(** * Anthill: a shallow embedding of the simulation engine

    The development follows the three Python modules of the engine:
    [ai_brain.py] (the rule-based decision used when the language model is
    not consulted), [world.py] (grid, food, scent fields, the per-frame
    update) and [ant.py] (the per-ant task machine).

    Conventions of the embedding.

    - Python floats (and the [float32] cells of the numpy arrays) are read as
      exact rationals, [Qc]; integers are [Z].  Every statement below that
      speaks of an equality between computed amounts is therefore a statement
      about exact arithmetic, not about IEEE rounding.
    - A numpy array of shape (width, height) is a finite map from index pairs
      to cells.  Reading or writing an index that is not a key of the map is
      an error ([None]); numpy would raise [IndexError] beyond the shape and
      wrap a negative index.  The totality lemmas below show that no method
      does either on a well-formed world.
    - Ant objects live in a store addressed by references; [World.ants] is the
      Python list of references.  [ant != self] is reference comparison, as
      the class defines no [__eq__].
    - Random draws and the answer of the decision service are inputs of the
      step functions.  The wall clock is read only by the memory and
      relationship code, which is not tracked.
    - The memory log, the relationship table, [preferred_tasks],
      [task_success_rate], [experience_points] and [following_pheromone] of an
      ant are not tracked: the methods that write them ([add_memory],
      [_age_memories], [_strengthen_relationship], [_interact_with_ant]) read
      nothing else and no other modelled method reads them. *)

From Stdlib Require Import QArith Qcanon Lqa Qround Qpower.
From stdpp Require Import gmap list fin_maps numbers.

#[local] Open Scope Z_scope.

(** ** Numbers *)

(** Python's two-argument [min]: the second argument wins only when it is
    strictly smaller. *)
Definition py_min (a b : Qc) : Qc := if decide (b < a)%Qc then b else a.

(** [range(lo, hi)]. *)
Definition py_range (lo hi : Z) : list Z :=
  (λ i : nat, lo + Z.of_nat i) <$> seq 0 (Z.to_nat (hi - lo)).

(** A [for] loop whose body may fail. *)
Fixpoint for_each {A S : Type} (body : S → A → option S) (s : S) (l : list A)
  : option S :=
  match l with
  | [] => Some s
  | i :: l' => s' ← body s i; for_each body s' l'
  end.

(** ** float32 *)

(** 2^e as a rational. *)
Definition pow2 (e : Z) : Qc := Q2Qc (2 ^ e)%Q.

(** The exponent of the binade of a rational that is not negative and below
    2^128: the greatest [e] from -126 up with [2^e ≤ q], and -126 in the
    subnormal range. *)
Fixpoint exp_search (fuel : nat) (e : Z) (q : Qc) : Z :=
  match fuel with
  | O => e
  | S fuel => if decide (pow2 (e + 1) ≤ q)%Qc then exp_search fuel (e + 1) q else e
  end.

Definition f32_exponent (q : Qc) : Z :=
  exp_search 253 (-126) (if decide (q < Q2Qc 0)%Qc then - q else q)%Qc.

(** Rounding to the nearest integer, ties to even. *)
Definition round_half_even (q : Qc) : Z :=
  let f := Qfloor q in
  let r := (q - Q2Qc (inject_Z f))%Qc in
  if decide (r < Q2Qc 0.5)%Qc then f
  else if decide (Q2Qc 0.5 < r)%Qc then f + 1
  else if Z.even f then f else f + 1.

(** The float32 nearest to a rational of magnitude below 2^128: round to
    nearest, ties to even, 24 bits of precision, subnormals included.  It is
    what a store into a float32 array keeps of a value. *)
Definition f32 (q : Qc) : Qc :=
  let ulp := pow2 (f32_exponent q - 23) in
  (Q2Qc (inject_Z (round_half_even (q / ulp))) * ulp)%Qc.

(** ** config.py *)

Module config.
Definition ANT_VISION_RANGE : Z := 8.
Definition ANT_CARRYING_CAPACITY : Qc := Q2Qc 3.
Definition AI_UPDATE_FREQUENCY : Z := 30.
Definition PHEROMONE_DECAY_RATE : Qc := Q2Qc 0.995.
Definition MAX_PHEROMONE_STRENGTH : Qc := Q2Qc 100.
Definition DIGGING_ENERGY_COST : Qc := Q2Qc 5.
End config.

(** ** Task labels: the eight strings the decision may return *)

Inductive Task : Type :=
  | explore | move_to_food | collect_food | return_home
  | dig_tunnel | follow_ant | rest | help_ant.

#[global] Instance Task_eq_dec : EqDecision Task.
Proof. solve_decision. Defined.

(** ** ai_brain.py *)

(** The two dictionaries handed to the decision.  A field is [None] when the
    key is absent, so that [d.get(key, default)] is [default] there. *)
Record AntState : Type := mkAntState {
  st_energy : option Qc;
  st_carrying_food : option Qc;
  st_current_task : option Task;
  st_x : option Z;
  st_y : option Z;
  st_age : option Z
}.

Record WorldContext : Type := mkWorldContext {
  near_food : option bool;
  near_home : option bool;
  near_ants : list Z;
  tunnel_nearby : option bool
}.

(** [AIBrain._fallback_decision] *)
Definition _fallback_decision (ant_state : AntState) (world_context : WorldContext)
  : Task :=
  let energy := default (Q2Qc 100) (st_energy ant_state) in
  let food_carried := default (Q2Qc 0) (st_carrying_food ant_state) in
  let near_food := default false (near_food world_context) in
  let near_home := default false (near_home world_context) in
  if decide (energy < Q2Qc 30)%Qc then
    (if near_home then rest else return_home)
  else if decide (Q2Qc 0 < food_carried)%Qc then return_home
  else if near_food then collect_food
  else explore.

(** The rule list of the specification, in its order, over the four
    quantities it names; compared with [_fallback_decision] below. *)
Definition fallback_rules (energy carried_food : Qc) (food_visible near_home : bool)
  : Task :=
  if bool_decide (energy < Q2Qc 30)%Qc then
    if near_home then rest else return_home
  else if bool_decide (Q2Qc 0 < carried_food)%Qc then return_home
  else if food_visible then collect_food
  else explore.

(** ** ant.py: the state of an ant *)

Module Ant.
Record t : Type := mk {
  id : Z;
  x : Z;
  y : Z;
  prev_x : Z;
  prev_y : Z;
  energy : Qc;
  max_energy : Qc;
  age : Z;
  carrying_food : Qc;
  alive : bool;
  current_task : Task;
  target_x : option Z;
  target_y : option Z;
  ai_decision_cooldown : Z;
  pheromone_strength : Qc;
  path_history : list (Z * Z);
  stuck_counter : Z
}.

(** [Ant.__init__] *)
Definition __init__ (x y ant_id : Z) : t :=
  mk ant_id x y x y (Q2Qc 100) (Q2Qc 100) 0 (Q2Qc 0) true explore None None 0
     (Q2Qc 0) [] 0.

Definition set_pos (nx ny : Z) (a : t) : t :=
  mk (id a) nx ny (x a) (y a) (energy a) (max_energy a) (age a)
     (carrying_food a) (alive a) (current_task a) (target_x a) (target_y a)
     (ai_decision_cooldown a) (pheromone_strength a) (path_history a)
     (stuck_counter a).
Definition set_energy (e : Qc) (a : t) : t :=
  mk (id a) (x a) (y a) (prev_x a) (prev_y a) e (max_energy a) (age a)
     (carrying_food a) (alive a) (current_task a) (target_x a) (target_y a)
     (ai_decision_cooldown a) (pheromone_strength a) (path_history a)
     (stuck_counter a).
Definition set_age (n : Z) (a : t) : t :=
  mk (id a) (x a) (y a) (prev_x a) (prev_y a) (energy a) (max_energy a) n
     (carrying_food a) (alive a) (current_task a) (target_x a) (target_y a)
     (ai_decision_cooldown a) (pheromone_strength a) (path_history a)
     (stuck_counter a).
Definition set_carrying_food (c : Qc) (a : t) : t :=
  mk (id a) (x a) (y a) (prev_x a) (prev_y a) (energy a) (max_energy a) (age a)
     c (alive a) (current_task a) (target_x a) (target_y a)
     (ai_decision_cooldown a) (pheromone_strength a) (path_history a)
     (stuck_counter a).
Definition set_alive (b : bool) (a : t) : t :=
  mk (id a) (x a) (y a) (prev_x a) (prev_y a) (energy a) (max_energy a) (age a)
     (carrying_food a) b (current_task a) (target_x a) (target_y a)
     (ai_decision_cooldown a) (pheromone_strength a) (path_history a)
     (stuck_counter a).
Definition set_current_task (k : Task) (a : t) : t :=
  mk (id a) (x a) (y a) (prev_x a) (prev_y a) (energy a) (max_energy a) (age a)
     (carrying_food a) (alive a) k (target_x a) (target_y a)
     (ai_decision_cooldown a) (pheromone_strength a) (path_history a)
     (stuck_counter a).
Definition set_target (tx ty : option Z) (a : t) : t :=
  mk (id a) (x a) (y a) (prev_x a) (prev_y a) (energy a) (max_energy a) (age a)
     (carrying_food a) (alive a) (current_task a) tx ty
     (ai_decision_cooldown a) (pheromone_strength a) (path_history a)
     (stuck_counter a).
Definition set_ai_decision_cooldown (c : Z) (a : t) : t :=
  mk (id a) (x a) (y a) (prev_x a) (prev_y a) (energy a) (max_energy a) (age a)
     (carrying_food a) (alive a) (current_task a) (target_x a) (target_y a)
     c (pheromone_strength a) (path_history a) (stuck_counter a).
Definition set_pheromone_strength (p : Qc) (a : t) : t :=
  mk (id a) (x a) (y a) (prev_x a) (prev_y a) (energy a) (max_energy a) (age a)
     (carrying_food a) (alive a) (current_task a) (target_x a) (target_y a)
     (ai_decision_cooldown a) p (path_history a) (stuck_counter a).
Definition set_path_history (h : list (Z * Z)) (a : t) : t :=
  mk (id a) (x a) (y a) (prev_x a) (prev_y a) (energy a) (max_energy a) (age a)
     (carrying_food a) (alive a) (current_task a) (target_x a) (target_y a)
     (ai_decision_cooldown a) (pheromone_strength a) h (stuck_counter a).
Definition set_stuck_counter (n : Z) (a : t) : t :=
  mk (id a) (x a) (y a) (prev_x a) (prev_y a) (energy a) (max_energy a) (age a)
     (carrying_food a) (alive a) (current_task a) (target_x a) (target_y a)
     (ai_decision_cooldown a) (pheromone_strength a) (path_history a) n.
End Ant.

(** ** world.py: the state of the world and its interaction methods *)

(** The [uint8] terrain codes: 0 = air, 1 = soil, 2 = tunnel. *)
Inductive Terrain : Type := Air | Soil | Tunnel.

#[global] Instance Terrain_eq_dec : EqDecision Terrain.
Proof. solve_decision. Defined.

(** References to ant objects. *)
Abbreviation ref := nat.

Module World.
Record t : Type := mk {
  width : Z;
  height : Z;
  terrain : gmap (Z * Z) Terrain;
  food : gmap (Z * Z) Qc;
  pheromone_food : gmap (Z * Z) Qc;
  pheromone_home : gmap (Z * Z) Qc;
  ants : list ref;
  objects : gmap ref Ant.t;
  food_storage : Qc;
  total_food_collected : Qc;
  total_tunnels_dug : Z;
  frame_count : Z
}.

Definition set_terrain (g : gmap (Z * Z) Terrain) (w : t) : t :=
  mk (width w) (height w) g (food w) (pheromone_food w) (pheromone_home w)
     (ants w) (objects w) (food_storage w) (total_food_collected w)
     (total_tunnels_dug w) (frame_count w).
Definition set_food (g : gmap (Z * Z) Qc) (w : t) : t :=
  mk (width w) (height w) (terrain w) g (pheromone_food w) (pheromone_home w)
     (ants w) (objects w) (food_storage w) (total_food_collected w)
     (total_tunnels_dug w) (frame_count w).
Definition set_pheromone_food (g : gmap (Z * Z) Qc) (w : t) : t :=
  mk (width w) (height w) (terrain w) (food w) g (pheromone_home w)
     (ants w) (objects w) (food_storage w) (total_food_collected w)
     (total_tunnels_dug w) (frame_count w).
Definition set_pheromone_home (g : gmap (Z * Z) Qc) (w : t) : t :=
  mk (width w) (height w) (terrain w) (food w) (pheromone_food w) g
     (ants w) (objects w) (food_storage w) (total_food_collected w)
     (total_tunnels_dug w) (frame_count w).
Definition set_ants (l : list ref) (w : t) : t :=
  mk (width w) (height w) (terrain w) (food w) (pheromone_food w)
     (pheromone_home w) l (objects w) (food_storage w)
     (total_food_collected w) (total_tunnels_dug w) (frame_count w).
Definition set_objects (h : gmap ref Ant.t) (w : t) : t :=
  mk (width w) (height w) (terrain w) (food w) (pheromone_food w)
     (pheromone_home w) (ants w) h (food_storage w)
     (total_food_collected w) (total_tunnels_dug w) (frame_count w).
Definition set_food_storage (s c : Qc) (w : t) : t :=
  mk (width w) (height w) (terrain w) (food w) (pheromone_food w)
     (pheromone_home w) (ants w) (objects w) s c
     (total_tunnels_dug w) (frame_count w).
Definition set_total_tunnels_dug (n : Z) (w : t) : t :=
  mk (width w) (height w) (terrain w) (food w) (pheromone_food w)
     (pheromone_home w) (ants w) (objects w) (food_storage w)
     (total_food_collected w) n (frame_count w).
Definition set_frame_count (n : Z) (w : t) : t :=
  mk (width w) (height w) (terrain w) (food w) (pheromone_food w)
     (pheromone_home w) (ants w) (objects w) (food_storage w)
     (total_food_collected w) (total_tunnels_dug w) n.
End World.

(** [arr[x, y]] and [arr[x, y] = v]. *)
Definition np_get {A : Type} (arr : gmap (Z * Z) A) (x y : Z) : option A :=
  arr !! (x, y).

Definition np_set {A : Type} (arr : gmap (Z * Z) A) (x y : Z) (v : A)
  : option (gmap (Z * Z) A) :=
  match arr !! (x, y) with
  | Some _ => Some (<[(x, y) := v]> arr)
  | None => None
  end.

(** [World.is_valid_position] *)
Definition is_valid_position (w : World.t) (x y : Z) : bool :=
  bool_decide (0 ≤ x ∧ x < World.width w) && bool_decide (0 ≤ y ∧ y < World.height w).

(** [World.can_move_to] *)
Definition can_move_to (w : World.t) (x y : Z) : option bool :=
  if negb (is_valid_position w x y) then Some false
  else c ← np_get (World.terrain w) x y; Some (bool_decide (c ≠ Soil)).

(** [World.can_dig_at] *)
Definition can_dig_at (w : World.t) (x y : Z) : option bool :=
  if negb (is_valid_position w x y) then Some false
  else c ← np_get (World.terrain w) x y; Some (bool_decide (c = Soil)).

(** [World.dig_tunnel_at] *)
Definition dig_tunnel_at (w : World.t) (x y : Z) : option World.t :=
  ok ← can_dig_at w x y;
  if ok : bool then
    g ← np_set (World.terrain w) x y Tunnel;
    Some (World.set_total_tunnels_dug (World.total_tunnels_dug w + 1)
            (World.set_terrain g w))
  else Some w.

(** [World.is_tunnel] *)
Definition is_tunnel (w : World.t) (x y : Z) : option bool :=
  if negb (is_valid_position w x y) then Some false
  else c ← np_get (World.terrain w) x y; Some (bool_decide (c = Tunnel)).

(** [World.get_food_at] *)
Definition get_food_at (w : World.t) (x y : Z) : option Qc :=
  if negb (is_valid_position w x y) then Some (Q2Qc 0)
  else np_get (World.food w) x y.

(** [World.remove_food_at]: the amount removed and the world afterwards. *)
Definition remove_food_at (w : World.t) (x y : Z) (amount : Qc)
  : option (Qc * World.t) :=
  if is_valid_position w x y then
    cell ← np_get (World.food w) x y;
    let removed := py_min amount cell in
    g ← np_set (World.food w) x y (cell - removed)%Qc;
    Some (removed, World.set_food g w)
  else Some (Q2Qc 0, w).

(** [World.add_food_storage] *)
Definition add_food_storage (w : World.t) (amount : Qc) : World.t :=
  World.set_food_storage (World.food_storage w + amount)%Qc
    (World.total_food_collected w + amount)%Qc w.

(** The two scent kinds accepted by [get_pheromone_strength]; any other
    string falls through to the final [return 0.0]. *)
Inductive PheromoneType : Type := ph_food | ph_home | ph_other.

(** [World.get_pheromone_strength] *)
Definition get_pheromone_strength (w : World.t) (x y : Z) (pheromone_type : PheromoneType)
  : option Qc :=
  if negb (is_valid_position w x y) then Some (Q2Qc 0)
  else match pheromone_type with
       | ph_food => np_get (World.pheromone_food w) x y
       | ph_home => np_get (World.pheromone_home w) x y
       | ph_other => Some (Q2Qc 0)
       end.

(** ** ant.py: the behaviour of an ant *)

(** What one call of [Ant.update] draws from outside the engine: the answer
    of [ai_brain.make_decision] (any function of the two dictionaries into
    the eight labels), the jitter [random.randint(-5, 5)] of the cooldown and
    the offset [(int(distance * cos(angle)), int(distance * sin(angle)))] of
    a fresh exploration target. *)
Record AntEnv : Type := mkAntEnv {
  make_decision : AntState → WorldContext → Task;
  cooldown_jitter : Z;
  explore_offset : Z * Z
}.

(** Distances are compared through their squares: [math.sqrt] is strictly
    increasing on the integers that occur, so [sqrt(a) < sqrt(b)] is [a < b]
    and [sqrt(a) <= k] is [a <= k * k].  [None] is [float('inf')]. *)
Definition dist2 (x1 y1 x2 y2 : Z) : Z := (x1 - x2) ^ 2 + (y1 - y2) ^ 2.

Definition lt_min_distance (d : Z) (min_distance : option Z) : bool :=
  match min_distance with
  | None => true
  | Some m => bool_decide (d < m)
  end.

(** [Ant._gather_world_context] *)
Definition _gather_world_context (self : ref) (a : Ant.t) (w : World.t)
  : option WorldContext :=
  let r := config.ANT_VISION_RANGE in
  for_each (λ context dx,
    for_each (λ context dy,
      let check_x := Ant.x a + dx in
      let check_y := Ant.y a + dy in
      if negb (is_valid_position w check_x check_y) then Some context
      else
        f ← get_food_at w check_x check_y;
        let context :=
          if decide (Q2Qc 0 < f)%Qc
          then mkWorldContext (Some true) (near_home context)
                 (near_ants context) (tunnel_nearby context)
          else context in
        tn ← is_tunnel w check_x check_y;
        let context :=
          if tn : bool
          then mkWorldContext (near_food context) (Some true)
                 (near_ants context) (Some true)
          else context in
        for_each (λ context other,
          if decide (other ≠ self) then
            o ← World.objects w !! other;
            if bool_decide (Ant.x o = check_x) && bool_decide (Ant.y o = check_y)
            then Some (mkWorldContext (near_food context) (near_home context)
                         (near_ants context ++ [Ant.id o]) (tunnel_nearby context))
            else Some context
          else Some context) context (World.ants w))
      context (py_range (- r) (r + 1)))
    (mkWorldContext (Some false) (Some false) [] (Some false))
    (py_range (- r) (r + 1)).

(** [Ant._get_ant_state] *)
Definition _get_ant_state (a : Ant.t) : AntState :=
  mkAntState (Some (Ant.energy a)) (Some (Ant.carrying_food a))
    (Some (Ant.current_task a)) (Some (Ant.x a)) (Some (Ant.y a))
    (Some (Ant.age a)).

(** [Ant._update_ai_decision] *)
Definition _update_ai_decision (self : ref) (a : Ant.t) (w : World.t) (env : AntEnv)
  : option Ant.t :=
  let a := Ant.set_ai_decision_cooldown (Ant.ai_decision_cooldown a - 1) a in
  if decide (Ant.ai_decision_cooldown a ≤ 0) then
    world_context ← _gather_world_context self a w;
    let ant_state := _get_ant_state a in
    let new_action := make_decision env ant_state world_context in
    let a :=
      if decide (new_action ≠ Ant.current_task a)
      then Ant.set_target None None (Ant.set_current_task new_action a)
      else a in
    Some (Ant.set_ai_decision_cooldown
            (config.AI_UPDATE_FREQUENCY + cooldown_jitter env) a)
  else Some a.

(** [Ant._move_towards_target] *)
Definition _move_towards_target (a : Ant.t) (w : World.t) : option Ant.t :=
  match Ant.target_x a, Ant.target_y a with
  | Some target_x, Some target_y =>
      let dx := target_x - Ant.x a in
      let dy := target_y - Ant.y a in
      let dx := if decide (dx ≠ 0) then (if decide (dx > 0) then 1 else -1) else dx in
      let dy := if decide (dy ≠ 0) then (if decide (dy > 0) then 1 else -1) else dy in
      let new_x := Ant.x a + dx in
      let new_y := Ant.y a + dy in
      ok ← can_move_to w new_x new_y;
      if ok : bool
      then Some (Ant.set_stuck_counter 0 (Ant.set_pos new_x new_y a))
      else Some (Ant.set_stuck_counter (Ant.stuck_counter a + 1) a)
  | _, _ => Some a
  end.

(** [Ant._reached_target] *)
Definition _reached_target (a : Ant.t) : bool :=
  match Ant.target_x a, Ant.target_y a with
  | Some target_x, Some target_y =>
      bool_decide (Z.abs (Ant.x a - target_x) ≤ 1)
      && bool_decide (Z.abs (Ant.y a - target_y) ≤ 1)
  | _, _ => true
  end.

(** The scan shared by [_find_nearest_food] and [_find_nearest_tunnel]: the
    window is clipped to the grid, the first cell at the least distance wins. *)
Definition find_nearest (hit : Z → Z → option bool) (a : Ant.t) (w : World.t)
  : option (option (Z * Z)) :=
  let r := config.ANT_VISION_RANGE in
  res ← for_each (λ st x,
    for_each (λ (st : option Z * option (Z * Z)) y,
      h ← hit x y;
      if h : bool then
        let distance := dist2 x y (Ant.x a) (Ant.y a) in
        if lt_min_distance distance st.1 then Some (Some distance, Some (x, y))
        else Some st
      else Some st)
      st (py_range (Z.max 0 (Ant.y a - r)) (Z.min (World.height w) (Ant.y a + r + 1))))
    (None, None)
    (py_range (Z.max 0 (Ant.x a - r)) (Z.min (World.width w) (Ant.x a + r + 1)));
  Some res.2.

(** [Ant._find_nearest_food] *)
Definition _find_nearest_food (a : Ant.t) (w : World.t) : option (option (Z * Z)) :=
  find_nearest (λ x y, f ← get_food_at w x y; Some (bool_decide (Q2Qc 0 < f)%Qc)) a w.

(** [Ant._find_nearest_tunnel] *)
Definition _find_nearest_tunnel (a : Ant.t) (w : World.t) : option (option (Z * Z)) :=
  find_nearest (is_tunnel w) a w.

(** [Ant._find_nearest_ant]: the reference of the nearest other living ant
    within the vision range. *)
Definition _find_nearest_ant (self : ref) (a : Ant.t) (w : World.t)
  : option (option ref) :=
  let r := config.ANT_VISION_RANGE in
  res ← for_each (λ (st : option Z * option ref) other,
    if decide (other ≠ self) then
      o ← World.objects w !! other;
      if Ant.alive o then
        let distance := dist2 (Ant.x o) (Ant.y o) (Ant.x a) (Ant.y a) in
        if lt_min_distance distance st.1 && bool_decide (distance ≤ r * r)
        then Some (Some distance, Some other)
        else Some st
      else Some st
    else Some st) (None, None) (World.ants w);
  Some res.2.

(** [Ant._action_explore] *)
Definition _action_explore (a : Ant.t) (w : World.t) (env : AntEnv)
  : option (Ant.t * World.t) :=
  let a :=
    match Ant.target_x a, Ant.target_y a with
    | Some _, Some _ => a
    | _, _ => Ant.set_target (Some (Ant.x a + (explore_offset env).1))
                (Some (Ant.y a + (explore_offset env).2)) a
    end in
  a ← _move_towards_target a w;
  if _reached_target a || bool_decide (Ant.stuck_counter a > 10)
  then Some (Ant.set_stuck_counter 0 (Ant.set_target None None a), w)
  else Some (a, w).

(** [Ant._action_move_to_food] *)
Definition _action_move_to_food (a : Ant.t) (w : World.t) : option (Ant.t * World.t) :=
  food_location ← _find_nearest_food a w;
  match food_location with
  | Some (fx, fy) =>
      a ← _move_towards_target (Ant.set_target (Some fx) (Some fy) a) w;
      Some (a, w)
  | None => Some (Ant.set_current_task explore a, w)
  end.

(** [Ant._action_collect_food] *)
Definition _action_collect_food (a : Ant.t) (w : World.t) : option (Ant.t * World.t) :=
  food_amount ← get_food_at w (Ant.x a) (Ant.y a);
  if bool_decide (Q2Qc 0 < food_amount)%Qc
     && bool_decide (Ant.carrying_food a < config.ANT_CARRYING_CAPACITY)%Qc
  then
    let collected :=
      py_min food_amount (config.ANT_CARRYING_CAPACITY - Ant.carrying_food a)%Qc in
    '(_, w) ← remove_food_at w (Ant.x a) (Ant.y a) collected;
    let a := Ant.set_carrying_food (Ant.carrying_food a + collected)%Qc a in
    Some (Ant.set_current_task return_home a, w)
  else Some (Ant.set_current_task explore a, w).

(** [Ant._action_return_home] *)
Definition _action_return_home (a : Ant.t) (w : World.t) : option (Ant.t * World.t) :=
  home_location ← _find_nearest_tunnel a w;
  match home_location with
  | Some (hx, hy) =>
      a ← _move_towards_target (Ant.set_target (Some hx) (Some hy) a) w;
      at_home ← is_tunnel w (Ant.x a) (Ant.y a);
      if at_home && bool_decide (Q2Qc 0 < Ant.carrying_food a)%Qc
      then
        let w := add_food_storage w (Ant.carrying_food a) in
        Some (Ant.set_current_task explore (Ant.set_carrying_food (Q2Qc 0) a), w)
      else Some (a, w)
  | None => Some (Ant.set_current_task dig_tunnel a, w)
  end.

(** [Ant._action_dig_tunnel] *)
Definition _action_dig_tunnel (a : Ant.t) (w : World.t) : option (Ant.t * World.t) :=
  if decide (config.DIGGING_ENERGY_COST ≤ Ant.energy a)%Qc then
    ok ← can_dig_at w (Ant.x a) (Ant.y a);
    if ok : bool then
      w ← dig_tunnel_at w (Ant.x a) (Ant.y a);
      let a := Ant.set_energy (Ant.energy a - config.DIGGING_ENERGY_COST)%Qc a in
      Some (Ant.set_current_task explore a, w)
    else Some (a, w)
  else Some (Ant.set_current_task rest a, w).

(** [Ant._action_follow_ant].  The interaction at distance at most 2 only
    touches relationship tables and memory logs. *)
Definition _action_follow_ant (self : ref) (a : Ant.t) (w : World.t)
  : option (Ant.t * World.t) :=
  target_ant ← _find_nearest_ant self a w;
  match target_ant with
  | Some tr =>
      o ← World.objects w !! tr;
      a ← _move_towards_target (Ant.set_target (Some (Ant.x o)) (Some (Ant.y o)) a) w;
      Some (a, w)
  | None => Some (Ant.set_current_task explore a, w)
  end.

(** [Ant._action_rest] *)
Definition _action_rest (a : Ant.t) (w : World.t) : option (Ant.t * World.t) :=
  let a := Ant.set_energy (py_min (Ant.max_energy a) (Ant.energy a + Q2Qc 2)%Qc) a in
  if decide (Ant.max_energy a * Q2Qc 0.8 ≤ Ant.energy a)%Qc
  then Some (Ant.set_current_task explore a, w)
  else Some (a, w).

(** [Ant._action_help_ant].  The helped ant is another object of the store:
    its energy is raised there. *)
Definition _action_help_ant (self : ref) (a : Ant.t) (w : World.t)
  : option (Ant.t * World.t) :=
  target_ant ← _find_nearest_ant self a w;
  match target_ant with
  | Some tr =>
      o ← World.objects w !! tr;
      if bool_decide (Ant.current_task o = collect_food ∨ Ant.current_task o = dig_tunnel)
      then
        a ← _move_towards_target (Ant.set_target (Some (Ant.x o)) (Some (Ant.y o)) a) w;
        let distance := dist2 (Ant.x a) (Ant.y a) (Ant.x o) (Ant.y o) in
        if bool_decide (distance ≤ 1) then
          if bool_decide (Ant.current_task o = dig_tunnel) then
            if decide (config.DIGGING_ENERGY_COST ≤ Ant.energy a)%Qc then
              let a := Ant.set_energy (Ant.energy a - config.DIGGING_ENERGY_COST)%Qc a in
              let o := Ant.set_energy (Ant.energy o + Q2Qc 5)%Qc o in
              Some (a, World.set_objects (<[tr := o]> (World.objects w)) w)
            else Some (a, w)
          else Some (a, w)
        else Some (a, w)
      else Some (Ant.set_current_task explore a, w)
  | None => Some (Ant.set_current_task explore a, w)
  end.

(** [Ant._execute_action] *)
Definition _execute_action (self : ref) (a : Ant.t) (w : World.t) (env : AntEnv)
  : option (Ant.t * World.t) :=
  match Ant.current_task a with
  | explore => _action_explore a w env
  | move_to_food => _action_move_to_food a w
  | collect_food => _action_collect_food a w
  | return_home => _action_return_home a w
  | dig_tunnel => _action_dig_tunnel a w
  | follow_ant => _action_follow_ant self a w
  | rest => _action_rest a w
  | help_ant => _action_help_ant self a w
  end.

(** [Ant._update_movement_history] *)
Definition _update_movement_history (a : Ant.t) : Ant.t :=
  let h := Ant.path_history a ++ [(Ant.x a, Ant.y a)] in
  Ant.set_path_history (if decide (20 < Z.of_nat (length h)) then drop 1 h else h) a.

(** [Ant.update].  [a] is the state of the object [self], taken out of the
    store for the duration of the call; no method reaches [self] through
    [world.ants], since every scan of that list skips it. *)
Definition Ant_update (self : ref) (a : Ant.t) (w : World.t) (env : AntEnv)
  : option (Ant.t * World.t) :=
  if negb (Ant.alive a) then Some (a, w)
  else
    let a := Ant.set_age (Ant.age a + 1) a in
    let a := Ant.set_energy (Ant.energy a - Q2Qc 0.1)%Qc a in
    if decide (Ant.energy a ≤ Q2Qc 0)%Qc then Some (Ant.set_alive false a, w)
    else
      a ← _update_ai_decision self a w env;
      '(a, w) ← _execute_action self a w env;
      let a := _update_movement_history a in
      let a := Ant.set_pheromone_strength
                 (Ant.pheromone_strength a * config.PHEROMONE_DECAY_RATE)%Qc a in
      Some (a, w).

(** The task whose behaviour a call of [Ant.update] executes on a living ant
    that survives the decay: [current_task] as [_update_ai_decision] leaves
    it. *)
Definition executed_task (self : ref) (a : Ant.t) (w : World.t) (env : AntEnv)
  : option Task :=
  let a := Ant.set_age (Ant.age a + 1) a in
  let a := Ant.set_energy (Ant.energy a - Q2Qc 0.1)%Qc a in
  a ← _update_ai_decision self a w env;
  Some (Ant.current_task a).

(** ** world.py: the frame update *)

(** What one call of [World.update] draws from outside the engine: the inputs
    of each ant's update, the food roll ([None] when [random.random()] is not
    below the spawn rate, otherwise the drawn cell and amount) and the index
    drawn by [random.choice] among the tunnel cells. *)
Record TickEnv : Type := mkTickEnv {
  ant_env : ref → AntEnv;
  food_roll : option (Z * Z * Qc);
  spawn_choice : nat
}.

(** [list.remove]: drops the first occurrence, an error when there is none. *)
Fixpoint py_remove (r : ref) (l : list ref) : option (list ref) :=
  match l with
  | [] => None
  | h :: l' => if decide (h = r) then Some l' else cons h <$> py_remove r l'
  end.

(** [World._spawn_food] *)
Definition _spawn_food (w : World.t) (env : TickEnv) : option World.t :=
  match food_roll env with
  | None => Some w
  | Some (x, y, amount) =>
      if is_valid_position w x y then
        c ← np_get (World.terrain w) x y;
        if decide (c = Air) then
          f ← np_get (World.food w) x y;
          if decide (f < Q2Qc 10)%Qc then
            g ← np_set (World.food w) x y (f + amount)%Qc;
            Some (World.set_food g w)
          else Some w
        else Some w
      else Some w
  end.

(** What a decay step leaves in a cell of a scent field: the array is
    float32, so the rate is taken as a float32 and the product is rounded to
    float32. *)
Definition decay_cell (v : Qc) : Qc :=
  f32 (v * f32 config.PHEROMONE_DECAY_RATE)%Qc.

(** The first two statements of [World._update_pheromones]: both fields are
    multiplied by the decay rate. *)
Definition decay_pheromones (w : World.t) : World.t :=
  let w := World.set_pheromone_food (decay_cell <$> World.pheromone_food w) w in
  World.set_pheromone_home (decay_cell <$> World.pheromone_home w) w.

(** What [min(MAX_PHEROMONE_STRENGTH, cell + amount)] leaves in a cell once
    stored into the float32 array. *)
Definition deposit_cell (amount v : Qc) : Qc :=
  f32 (py_min config.MAX_PHEROMONE_STRENGTH (v + amount)%Qc).

(** [arr[x, y] = min(MAX_PHEROMONE_STRENGTH, arr[x, y] + amount)] *)
Definition deposit (arr : gmap (Z * Z) Qc) (x y : Z) (amount : Qc)
  : option (gmap (Z * Z) Qc) :=
  cell ← np_get arr x y;
  np_set arr x y (deposit_cell amount cell).

(** The loop of [World._update_pheromones]: what one ant drops. *)
Definition drop_pheromone (w : World.t) (r : ref) : option World.t :=
  o ← World.objects w !! r;
  if Ant.alive o then
    if is_valid_position w (Ant.x o) (Ant.y o) then
      if decide (Q2Qc 0 < Ant.carrying_food o)%Qc then
        g ← deposit (World.pheromone_home w) (Ant.x o) (Ant.y o) (Q2Qc 10);
        Some (World.set_pheromone_home g w)
      else if decide (Ant.current_task o = move_to_food) then
        g ← deposit (World.pheromone_food w) (Ant.x o) (Ant.y o) (Q2Qc 5);
        Some (World.set_pheromone_food g w)
      else Some w
    else Some w
  else Some w.

(** [World._update_pheromones] *)
Definition _update_pheromones (w : World.t) : option World.t :=
  for_each drop_pheromone (decay_pheromones w) (World.ants w).

(** Whether the ant object [r] drops home scent, or food scent, on the cell
    [k] in [_update_pheromones]: it is alive, on the grid and on [k], and
    carries food, or carries none and has the task [move_to_food]. *)
Definition drops_home (w : World.t) (k : Z * Z) (r : ref) : bool :=
  match World.objects w !! r with
  | Some o =>
      Ant.alive o && is_valid_position w (Ant.x o) (Ant.y o)
      && bool_decide ((Ant.x o, Ant.y o) = k)
      && bool_decide (Q2Qc 0 < Ant.carrying_food o)%Qc
  | None => false
  end.

Definition drops_food (w : World.t) (k : Z * Z) (r : ref) : bool :=
  match World.objects w !! r with
  | Some o =>
      Ant.alive o && is_valid_position w (Ant.x o) (Ant.y o)
      && bool_decide ((Ant.x o, Ant.y o) = k)
      && negb (bool_decide (Q2Qc 0 < Ant.carrying_food o)%Qc)
      && bool_decide (Ant.current_task o = move_to_food)
  | None => false
  end.

(** How many entries of a list of ants satisfy [p]. *)
Fixpoint count_ants (p : ref → bool) (l : list ref) : nat :=
  match l with
  | [] => 0
  | r :: l => (if p r then 1 else 0) + count_ants p l
  end.

(** [World._spawn_new_ant].  The new object gets a reference no object of the
    store has. *)
Definition _spawn_new_ant (w : World.t) (env : TickEnv) : option World.t :=
  tunnel_locations ← for_each (λ acc x,
    for_each (λ acc y,
      c ← np_get (World.terrain w) x y;
      if decide (c = Tunnel) then Some (acc ++ [(x, y)]) else Some acc)
      acc (py_range 0 (World.height w)))
    [] (py_range 0 (World.width w));
  match tunnel_locations with
  | [] => Some w
  | _ :: _ =>
      spawn_location ← tunnel_locations !! (spawn_choice env `mod` length tunnel_locations)%nat;
      let new_ant := Ant.__init__ spawn_location.1 spawn_location.2
                       (Z.of_nat (length (World.ants w))) in
      let r := fresh (dom (World.objects w)) in
      Some (World.set_ants (World.ants w ++ [r])
              (World.set_objects (<[r := new_ant]> (World.objects w)) w))
  end.

(** [World._check_colony_growth] *)
Definition _check_colony_growth (w : World.t) (env : TickEnv) : option World.t :=
  if bool_decide (Q2Qc 50 < World.food_storage w)%Qc
     && bool_decide (Z.of_nat (length (World.ants w)) < 30)
     && bool_decide (World.frame_count w `mod` 1800 = 0)
  then _spawn_new_ant w env
  else Some w.

(** The body of the loop of [World.update] for the ant object [r]: the ant is
    updated, its new state is stored, and it leaves [world.ants] when dead. *)
Definition ant_turn (env : TickEnv) (w : World.t) (r : ref) : option World.t :=
  a ← World.objects w !! r;
  '(a, w) ← Ant_update r a w (ant_env env r);
  let w := World.set_objects (<[r := a]> (World.objects w)) w in
  if negb (Ant.alive a) then
    l ← py_remove r (World.ants w);
    Some (World.set_ants l w)
  else Some w.

(** [World.update] *)
Definition World_update (w : World.t) (env : TickEnv) : option World.t :=
  let w := World.set_frame_count (World.frame_count w + 1) w in
  w ← for_each (ant_turn env) w (World.ants w);
  w ← _spawn_food w env;
  w ← _update_pheromones w;
  _check_colony_growth w env.

(** Successive frames, one input per frame. *)
Definition run (w : World.t) (envs : list TickEnv) : option World.t :=
  for_each World_update w envs.

(** ** Well-formed worlds *)

(** An array has a cell at every position of the grid. *)
Definition has_shape {A : Type} (w : World.t) (arr : gmap (Z * Z) A) : Prop :=
  ∀ x y, is_valid_position w x y = true → is_Some (arr !! (x, y)).

(** The four arrays have the shape of the grid, and [world.ants] lists each
    of its objects once. *)
Record world_ok (w : World.t) : Prop := mk_world_ok {
  ok_terrain : has_shape w (World.terrain w);
  ok_food : has_shape w (World.food w);
  ok_pheromone_food : has_shape w (World.pheromone_food w);
  ok_pheromone_home : has_shape w (World.pheromone_home w);
  ok_objects : ∀ r, r ∈ World.ants w → is_Some (World.objects w !! r);
  ok_nodup : NoDup (World.ants w)
}.

(** What a call of a method of the ant [self] may change in the world: cells
    of the terrain and food arrays, the food store and its counters, and the
    energy of another living ant of the list, raised by 5. *)
Record ant_step (self : ref) (w w' : World.t) : Prop := mk_ant_step {
  step_width : World.width w' = World.width w;
  step_height : World.height w' = World.height w;
  step_ants : World.ants w' = World.ants w;
  step_pheromone_food : World.pheromone_food w' = World.pheromone_food w;
  step_pheromone_home : World.pheromone_home w' = World.pheromone_home w;
  step_frame_count : World.frame_count w' = World.frame_count w;
  step_terrain : dom (World.terrain w') = dom (World.terrain w);
  step_food : dom (World.food w') = dom (World.food w);
  step_objects : ∀ r,
    World.objects w' !! r = World.objects w !! r
    ∨ (r ≠ self ∧ r ∈ World.ants w ∧
       ∃ o, World.objects w !! r = Some o ∧ Ant.alive o = true ∧
            World.objects w' !! r = Some (Ant.set_energy (Ant.energy o + Q2Qc 5)%Qc o))
}.

(** The ant stands on the grid. *)
Definition on_grid (w : World.t) (a : Ant.t) : Prop :=
  is_valid_position w (Ant.x a) (Ant.y a) = true.

(** What every method of an ant keeps: it neither kills nor revives the ant,
    leaves [max_energy] alone, and keeps the ant on the grid. *)
Record ant_kept (w : World.t) (a a' : Ant.t) : Prop := mk_ant_kept {
  kept_alive : Ant.alive a' = Ant.alive a;
  kept_max_energy : Ant.max_energy a' = Ant.max_energy a;
  kept_on_grid : on_grid w a → on_grid w a'
}.

(** What an action may do to the ant's own energy, resting apart: nothing,
    or pay the digging cost it can afford. *)
Definition energy_spent (a a' : Ant.t) : Prop :=
  Ant.energy a' = Ant.energy a
  ∨ ((config.DIGGING_ENERGY_COST ≤ Ant.energy a)%Qc
     ∧ Ant.energy a' = (Ant.energy a - config.DIGGING_ENERGY_COST)%Qc).

(** What an action other than resting guarantees. *)
Definition action_post (self : ref) (a : Ant.t) (w : World.t) (a' : Ant.t)
  (w' : World.t) : Prop :=
  ant_step self w w' ∧ ant_kept w a a' ∧ energy_spent a a'.

(** Every ant of [world.ants] is alive. *)
Definition all_alive (w : World.t) : Prop :=
  ∀ r, r ∈ World.ants w → ∃ o, World.objects w !! r = Some o ∧ Ant.alive o = true.


(** The object [r] is an ant standing on the grid. *)
Definition stands_on_grid (r : ref) (w : World.t) : Prop :=
  ∃ o, World.objects w !! r = Some o ∧ on_grid w o.

(** A step of the frame update that leaves the ants alone: the grid keeps
    its size, the arrays their cells, the list and the store are the same. *)
Record quiet_step (w w' : World.t) : Prop := mk_quiet_step {
  quiet_width : World.width w' = World.width w;
  quiet_height : World.height w' = World.height w;
  quiet_ants : World.ants w' = World.ants w;
  quiet_objects : World.objects w' = World.objects w;
  quiet_terrain : dom (World.terrain w') = dom (World.terrain w);
  quiet_food : dom (World.food w') = dom (World.food w);
  quiet_pheromone_food : dom (World.pheromone_food w') = dom (World.pheromone_food w);
  quiet_pheromone_home : dom (World.pheromone_home w') = dom (World.pheromone_home w)
}.

(** Both scent fields hold values between 0 and the ceiling. *)
Definition pheromones_in_range (w : World.t) : Prop :=
  ∀ k v, World.pheromone_food w !! k = Some v ∨ World.pheromone_home w !! k = Some v →
         (Q2Qc 0 ≤ v)%Qc ∧ (v ≤ config.MAX_PHEROMONE_STRENGTH)%Qc.

(** ** A small world to run the engine on *)

(** The array of shape (W, H) whose cell (x, y) is [f x y]. *)
Definition grid {A : Type} (W H : Z) (f : Z → Z → A) : gmap (Z * Z) A :=
  list_to_map (x ← py_range 0 W; y ← py_range 0 H; [((x, y), f x y)]).

(** Three columns of three cells: air on top, soil below, one tunnel cell in
    the middle; [fd] gives the food, [objs] the ants, numbered from 0. *)
Definition demo_world (fd : Z → Z → Qc) (objs : list Ant.t) : World.t :=
  World.mk 3 3
    (grid 3 3 (λ x y, if decide (y = 0) then Air
                      else if decide (x = 1 ∧ y = 1) then Tunnel else Soil))
    (grid 3 3 fd)
    (grid 3 3 (λ _ _, Q2Qc 0)) (grid 3 3 (λ _ _, Q2Qc 0))
    (seq 0 (length objs)) (list_to_map (zip (seq 0 (length objs)) objs))
    (Q2Qc 0) (Q2Qc 0) 0 0.

(** An ant as [Ant.__init__] makes it, then given a task, an energy, a load
    and a cooldown. *)
Definition demo_ant (x y : Z) (task : Task) (energy carrying : Qc) (cooldown : Z)
  : Ant.t :=
  Ant.set_ai_decision_cooldown cooldown
    (Ant.set_carrying_food carrying
       (Ant.set_energy energy
          (Ant.set_current_task task (Ant.__init__ x y 0)))).

(** Inputs of a frame in which the decision service is not consulted (the
    rule-based decision answers), no food is rolled, and exploration heads
    ten cells to the right. *)
Definition demo_env : TickEnv :=
  mkTickEnv (λ _, mkAntEnv _fallback_decision 0 (10, 0)) None 0.

(** ** What an update and a frame change and keep *)

(** What one action does to the world and to the load of the ant. *)
Inductive action_effect (self : ref) (a : Ant.t) (w : World.t)
  : Ant.t → World.t → Prop :=
  | effect_none a' :
      Ant.carrying_food a' = Ant.carrying_food a →
      action_effect self a w a' w
  | effect_collect a' f :
      is_valid_position w (Ant.x a) (Ant.y a) = true →
      World.food w !! (Ant.x a, Ant.y a) = Some f →
      (Q2Qc 0 < f)%Qc →
      (Ant.carrying_food a < config.ANT_CARRYING_CAPACITY)%Qc →
      Ant.carrying_food a' =
        (Ant.carrying_food a
         + py_min f (config.ANT_CARRYING_CAPACITY - Ant.carrying_food a))%Qc →
      action_effect self a w a'
        (World.set_food
           (<[(Ant.x a, Ant.y a) :=
                (f - py_min f (config.ANT_CARRYING_CAPACITY - Ant.carrying_food a))%Qc]>
              (World.food w)) w)
  | effect_deliver a' :
      is_tunnel w (Ant.x a') (Ant.y a') = Some true →
      (Q2Qc 0 < Ant.carrying_food a)%Qc →
      Ant.carrying_food a' = Q2Qc 0 →
      action_effect self a w a' (add_food_storage w (Ant.carrying_food a))
  | effect_dig a' :
      is_valid_position w (Ant.x a) (Ant.y a) = true →
      World.terrain w !! (Ant.x a, Ant.y a) = Some Soil →
      Ant.carrying_food a' = Ant.carrying_food a →
      action_effect self a w a'
        (World.set_total_tunnels_dug (World.total_tunnels_dug w + 1)
           (World.set_terrain (<[(Ant.x a, Ant.y a) := Tunnel]> (World.terrain w)) w))
  | effect_help a' tr o :
      tr ≠ self → tr ∈ World.ants w →
      World.objects w !! tr = Some o → Ant.alive o = true →
      Ant.current_task o = dig_tunnel →
      Ant.carrying_food a' = Ant.carrying_food a →
      action_effect self a w a'
        (World.set_objects
           (<[tr := Ant.set_energy (Ant.energy o + Q2Qc 5)%Qc o]> (World.objects w)) w).

(** The fields of an ant that no action writes. *)
Definition same_identity (a a' : Ant.t) : Prop :=
  Ant.id a' = Ant.id a ∧ Ant.max_energy a' = Ant.max_energy a
  ∧ Ant.age a' = Ant.age a ∧ Ant.alive a' = Ant.alive a
  ∧ Ant.ai_decision_cooldown a' = Ant.ai_decision_cooldown a
  ∧ Ant.pheromone_strength a' = Ant.pheromone_strength a
  ∧ Ant.path_history a' = Ant.path_history a.

(** Where an ant may be after a method: where it was, or on a cell that
    [can_move_to] accepts, one step away at most along each axis. *)
Definition moved_at_most_one_step (w : World.t) (a a' : Ant.t) : Prop :=
  (Ant.x a' = Ant.x a ∧ Ant.y a' = Ant.y a)
  ∨ (can_move_to w (Ant.x a') (Ant.y a') = Some true
     ∧ Z.abs (Ant.x a' - Ant.x a) ≤ 1 ∧ Z.abs (Ant.y a' - Ant.y a) ≤ 1
     ∧ Ant.prev_x a' = Ant.x a ∧ Ant.prev_y a' = Ant.y a).

(** The object [r] is an ant with the property [Q] in the world. *)
Definition holds_for (Q : World.t → Ant.t → Prop) (r : ref) (w : World.t) : Prop :=
  ∃ o, World.objects w !! r = Some o ∧ Q w o.

(** A property of an ant in a world that the engine keeps: it depends on the
    world through the size of the grid and the terrain only, survives the
    digging of a soil cell and a helper's gift, is kept by the ant's own
    update, and holds of an ant created on a tunnel cell. *)
Record ant_invariant (Q : World.t → Ant.t → Prop) : Prop := mk_ant_invariant {
  inv_ground : ∀ w w' o,
    World.width w' = World.width w → World.height w' = World.height w →
    World.terrain w' = World.terrain w → Q w o → Q w' o;
  inv_dig : ∀ w x y o,
    World.terrain w !! (x, y) = Some Soil → Q w o →
    Q (World.set_terrain (<[(x, y) := Tunnel]> (World.terrain w)) w) o;
  inv_helped : ∀ w o, Q w o → Q w (Ant.set_energy (Ant.energy o + Q2Qc 5)%Qc o);
  inv_update : ∀ self a w env a' w',
    Q w a → Ant_update self a w env = Some (a', w') → Q w' a';
  inv_born : ∀ w x y n,
    is_valid_position w x y = true → World.terrain w !! (x, y) = Some Tunnel →
    Q w (Ant.__init__ x y n)
}.

(** The ant stands on a cell of the grid that is not soil. *)
Definition off_soil (w : World.t) (o : Ant.t) : Prop :=
  can_move_to w (Ant.x o) (Ant.y o) = Some true.

(** The load of the ant is between 0 and the carrying capacity. *)
Definition load_ok (o : Ant.t) : Prop :=
  (Q2Qc 0 ≤ Ant.carrying_food o)%Qc
  ∧ (Ant.carrying_food o ≤ config.ANT_CARRYING_CAPACITY)%Qc.

(** The movement history holds at most 20 positions. *)
Definition history_ok (o : Ant.t) : Prop := (length (Ant.path_history o) ≤ 20)%nat.

(** [max_energy] is not negative and a living ant has no negative energy. *)
Definition energy_ok (o : Ant.t) : Prop :=
  (Q2Qc 0 ≤ Ant.max_energy o)%Qc
  ∧ (Ant.alive o = true → (Q2Qc 0 ≤ Ant.energy o)%Qc).

(** From [w] to [w'] the terrain only changed by soil turning into tunnel. *)
Definition terrain_grows (w w' : World.t) : Prop :=
  ∀ k c, World.terrain w !! k = Some c →
         World.terrain w' !! k = Some c
         ∨ (c = Soil ∧ World.terrain w' !! k = Some Tunnel).

(** No cell holds a negative amount of food. *)
Definition food_nonneg (w : World.t) : Prop :=
  ∀ k f, World.food w !! k = Some f → (Q2Qc 0 ≤ f)%Qc.

(** The food roll of a frame, if any, is not negative. *)
Definition roll_nonneg (env : TickEnv) : Prop :=
  ∀ x y amount, food_roll env = Some (x, y, amount) → (Q2Qc 0 ≤ amount)%Qc.

(** The step the three nearest-target scans share: [cand i] is the distance
    of [i] when [i] is a candidate; a candidate replaces the best one so far
    only when it is strictly nearer. *)
Definition nearest_step {A : Type} (cand : A → option (option Z))
  (st : option Z * option A) (i : A) : option (option Z * option A) :=
  c ← cand i;
  match c with
  | Some distance =>
      if lt_min_distance distance st.1 then Some (Some distance, Some i)
      else Some st
  | None => Some st
  end.

(** The cells of the vision window of an ant, clipped to the grid, in the
    order in which [_find_nearest_food] and [_find_nearest_tunnel] visit
    them. *)
Definition vision_cells (a : Ant.t) (w : World.t) : list (Z * Z) :=
  let r := config.ANT_VISION_RANGE in
  x ← py_range (Z.max 0 (Ant.x a - r)) (Z.min (World.width w) (Ant.x a + r + 1));
  y ← py_range (Z.max 0 (Ant.y a - r)) (Z.min (World.height w) (Ant.y a + r + 1));
  [(x, y)].

(** [p] is the first of the candidates of [l] at the least distance: the
    candidates before it are strictly farther, those after it are not
    nearer. *)
Definition first_nearest {A : Type} (cand : A → option (option Z)) (l : list A)
  (p : A) (d : Z) : Prop :=
  ∃ l1 l2, l = l1 ++ p :: l2
    ∧ cand p = Some (Some d)
    ∧ (∀ q dq, q ∈ l1 → cand q = Some (Some dq) → d < dq)
    ∧ (∀ q dq, q ∈ l2 → cand q = Some (Some dq) → d ≤ dq).

(** A cell of the vision window as a candidate of [find_nearest]: a cell
    that [hit] accepts, at its squared distance from the ant. *)
Definition cell_cand (hit : Z → Z → option bool) (a : Ant.t) (p : Z * Z)
  : option (option Z) :=
  h ← hit p.1 p.2;
  Some (if h : bool then Some (dist2 p.1 p.2 (Ant.x a) (Ant.y a)) else None).

(** What the scans of the vision window answer: nothing when no cell in
    view is [good]; otherwise a [good] cell in view such that the good cells
    visited before it are strictly farther from the ant and those visited
    after it are not nearer. *)
Definition nearest_in_view (good : Z → Z → Prop) (a : Ant.t) (w : World.t)
  (res : option (Z * Z)) : Prop :=
  match res with
  | None => ∀ x y, (x, y) ∈ vision_cells a w → ¬ good x y
  | Some p =>
      good p.1 p.2
      ∧ ∃ l1 l2, vision_cells a w = l1 ++ p :: l2
        ∧ (∀ q, q ∈ l1 → good q.1 q.2 →
             dist2 p.1 p.2 (Ant.x a) (Ant.y a) < dist2 q.1 q.2 (Ant.x a) (Ant.y a))
        ∧ (∀ q, q ∈ l2 → good q.1 q.2 →
             dist2 p.1 p.2 (Ant.x a) (Ant.y a) ≤ dist2 q.1 q.2 (Ant.x a) (Ant.y a))
  end.

(** [r] is a living ant other than [self], at squared distance [d] from the
    ant [a]. *)
Definition other_ant (self : ref) (a : Ant.t) (w : World.t) (r : ref) (d : Z)
  : Prop :=
  r ≠ self
  ∧ ∃ o, World.objects w !! r = Some o ∧ Ant.alive o = true
      ∧ d = dist2 (Ant.x o) (Ant.y o) (Ant.x a) (Ant.y a).

(** What [_find_nearest_ant] answers: nothing when every other living ant of
    the list is beyond the vision range; otherwise one within the range such
    that those listed before it are strictly farther and those listed after
    it are not nearer. *)
Definition nearest_ant_in_view (self : ref) (a : Ant.t) (w : World.t)
  (res : option ref) : Prop :=
  let r2 := config.ANT_VISION_RANGE * config.ANT_VISION_RANGE in
  match res with
  | None => ∀ r d, r ∈ World.ants w → other_ant self a w r d → r2 < d
  | Some r =>
      ∃ d, other_ant self a w r d ∧ d ≤ r2
        ∧ ∃ l1 l2, World.ants w = l1 ++ r :: l2
          ∧ (∀ q dq, q ∈ l1 → other_ant self a w q dq → d < dq)
          ∧ (∀ q dq, q ∈ l2 → other_ant self a w q dq → d ≤ dq)
  end.

(** An ant of the list as a candidate of [_find_nearest_ant]. *)
Definition ant_cand (self : ref) (a : Ant.t) (w : World.t) (other : ref)
  : option (option Z) :=
  if decide (other ≠ self) then
    o ← World.objects w !! other;
    let distance := dist2 (Ant.x o) (Ant.y o) (Ant.x a) (Ant.y a) in
    Some (if Ant.alive o
             && bool_decide (distance ≤ config.ANT_VISION_RANGE * config.ANT_VISION_RANGE)
          then Some distance else None)
  else Some None.

(** Every ant object of the store, listed in [world.ants] or not, has the
    property [Q]. *)
Definition all_hold (Q : World.t → Ant.t → Prop) (w : World.t) : Prop :=
  ∀ r o, World.objects w !! r = Some o → Q w o.

(** A world the game can be in: well-formed, and with a positive width, as
    the draw [random.randint(0, self.width - 1)] of [_spawn_food] needs. *)
Definition playable (w : World.t) : Prop := world_ok w ∧ 0 < World.width w.

(** ** world.py: the constructor *)

(** More of config.py. *)
Module config2.
Definition INITIAL_ANTS : nat := 12.
Definition INITIAL_FOOD_AMOUNT : nat := 50.
Definition STARTING_CHAMBER_SIZE : Z := 10.
Definition ANT_MEMORY_SIZE : nat := 50.
Definition RELATIONSHIP_STRENGTH_MAX : Qc := Q2Qc 100.
End config2.

(** The draws of the constructor: [initial_food_roll i] is the cell and the
    amount drawn in the [i]th round of [_spawn_initial_food],
    [initial_ant_offset i] the two offsets drawn in the [i]th round of
    [_create_initial_ants].  The draws are not restricted to the ranges the
    code draws from. *)
Record InitEnv : Type := mkInitEnv {
  initial_food_roll : nat → Z * Z * Qc;
  initial_ant_offset : nat → Z * Z
}.

(** [np.full((width, height), v)] *)
Definition np_full {A : Type} (width height : Z) (v : A) : gmap (Z * Z) A :=
  grid width height (λ _ _, v).

(** [arr[:, lo:hi] = v], for [0 ≤ lo]. *)
Definition np_fill_rows {A : Type} (arr : gmap (Z * Z) A) (lo hi : Z) (v : A)
  : gmap (Z * Z) A :=
  map_imap (λ k c, Some (if decide (lo ≤ k.2 < hi) then v else c)) arr.

(** [if self.is_valid_position(x, y): self.terrain[x, y] = 2] *)
Definition carve (w : World.t) (x y : Z) : option World.t :=
  if is_valid_position w x y then
    g ← np_set (World.terrain w) x y Tunnel;
    Some (World.set_terrain g w)
  else Some w.

(** [World._generate_initial_terrain] *)
Definition _generate_initial_terrain (w : World.t) : option World.t :=
  let ground_level := World.height w `div` 4 in
  let w := World.set_terrain (np_fill_rows (World.terrain w) 0 ground_level Air) w in
  let w := World.set_terrain
             (np_fill_rows (World.terrain w) ground_level (World.height w) Soil) w in
  let center_x := World.width w `div` 2 in
  let center_y := ground_level + config2.STARTING_CHAMBER_SIZE in
  let chamber_size := config2.STARTING_CHAMBER_SIZE in
  w ← for_each (λ w x,
         for_each (λ w y, carve w x y) w
           (py_range (center_y - chamber_size `div` 2) (center_y + chamber_size `div` 2)))
       w (py_range (center_x - chamber_size `div` 2) (center_x + chamber_size `div` 2));
  for_each (λ w y, carve w center_x y) w (py_range ground_level center_y).

(** [World._spawn_initial_food].  [random.randint(0, self.width - 1)] raises
    when the width is not positive. *)
Definition _spawn_initial_food (w : World.t) (env : InitEnv) : option World.t :=
  for_each (λ w i,
    if decide (World.width w ≤ 0) then None
    else
      let '(x, y, amount) := initial_food_roll env i in
      if is_valid_position w x y then
        c ← np_get (World.terrain w) x y;
        if decide (c = Air) then
          f ← np_get (World.food w) x y;
          g ← np_set (World.food w) x y (f + amount)%Qc;
          Some (World.set_food g w)
        else Some w
      else Some w) w (seq 0 config2.INITIAL_FOOD_AMOUNT).

(** [self.ants.append(ant)] for a new ant object. *)
Definition append_ant (w : World.t) (a : Ant.t) : World.t :=
  let r := fresh (dom (World.objects w)) in
  World.set_ants (World.ants w ++ [r])
    (World.set_objects (<[r := a]> (World.objects w)) w).

(** [World._create_initial_ants] *)
Definition _create_initial_ants (w : World.t) (env : InitEnv) : option World.t :=
  let center_x := World.width w `div` 2 in
  let center_y := World.height w `div` 4 + config2.STARTING_CHAMBER_SIZE in
  w ← for_each (λ w i,
         let '(offset_x, offset_y) := initial_ant_offset env i in
         let ant_x := center_x + offset_x in
         let ant_y := center_y + offset_y in
         if is_valid_position w ant_x ant_y then
           c ← np_get (World.terrain w) ant_x ant_y;
           if decide (c = Tunnel)
           then Some (append_ant w
                        (Ant.__init__ ant_x ant_y (Z.of_nat (length (World.ants w)))))
           else Some w
         else Some w) w (seq 0 config2.INITIAL_ANTS);
  if decide (length (World.ants w) = 0%nat) then
    for_each (λ w i, Some (append_ant w (Ant.__init__ center_x center_y (Z.of_nat i))))
      w (seq 0 config2.INITIAL_ANTS)
  else Some w.

(** [World.__init__].  [np.full] raises on a negative dimension. *)
Definition World__init__ (width height : Z) (env : InitEnv) : option World.t :=
  if decide (width < 0 ∨ height < 0) then None
  else
    let w := World.mk width height
               (np_full width height Soil) (np_full width height (Q2Qc 0))
               (np_full width height (Q2Qc 0)) (np_full width height (Q2Qc 0))
               [] ∅ (Q2Qc 0) (Q2Qc 0) 0 0 in
    w ← _generate_initial_terrain w;
    w ← _spawn_initial_food w env;
    _create_initial_ants w env.

(** The cells of the starting chamber and of the entrance shaft of a grid of
    the given size. *)
Definition in_chamber (width height x y : Z) : Prop :=
  let center_x := width `div` 2 in
  let center_y := height `div` 4 + config2.STARTING_CHAMBER_SIZE in
  (center_x - 5 ≤ x < center_x + 5 ∧ center_y - 5 ≤ y < center_y + 5)
  ∨ (x = center_x ∧ height `div` 4 ≤ y < center_y).

(** A world the constructor may leave: the four arrays have the shape of the
    grid, the terrain is air above the ground level and soil below it, but
    for the chamber and the shaft, which are tunnel. *)
Record fresh_world (w : World.t) : Prop := mk_fresh_world {
  fresh_terrain : ∀ x y, is_valid_position w x y = true →
    World.terrain w !! (x, y) =
      Some (if decide (in_chamber (World.width w) (World.height w) x y) then Tunnel
            else if decide (y < World.height w `div` 4) then Air else Soil);
  fresh_food : has_shape w (World.food w);
  fresh_pheromone_food : has_shape w (World.pheromone_food w);
  fresh_pheromone_home : has_shape w (World.pheromone_home w);
  fresh_counters :
    World.food_storage w = Q2Qc 0 ∧ World.total_food_collected w = Q2Qc 0
    ∧ World.total_tunnels_dug w = 0 ∧ World.frame_count w = 0
}.

(** Food lies on air cells only. *)
Definition food_on_air (w : World.t) : Prop :=
  ∀ k f, World.food w !! k = Some f → f ≠ Q2Qc 0 → World.terrain w !! k = Some Air.

#[global] Instance in_chamber_dec width height x y :
  Decision (in_chamber width height x y).
Proof. unfold in_chamber. cbv zeta. apply _. Defined.

(** What differs between two worlds is the terrain. *)
Definition same_but_terrain (w w' : World.t) : Prop :=
  w' = World.set_terrain (World.terrain w') w.

(** A colony as the constructor leaves it: the list names each object of the
    store once, in the order of creation, every ant is as [Ant.__init__]
    makes it, numbered by its place in the list, and stands where [placed]
    allows. *)
Record new_colony (placed : Z → Z → Prop) (w : World.t) : Prop := mk_new_colony {
  colony_listed : ∀ r, r ∈ World.ants w ↔ is_Some (World.objects w !! r);
  colony_nodup : NoDup (World.ants w);
  colony_ants : ∀ i r, World.ants w !! i = Some r →
    ∃ x y, World.objects w !! r = Some (Ant.__init__ x y (Z.of_nat i)) ∧ placed x y
}.

(* ===================================================================== *)
(** * Properties *)
(* ===================================================================== *)

(** ** Rational arithmetic through [Q] *)

Lemma Q2Qc_this (q : Q) : (this (Q2Qc q) == q)%Q.
Proof. apply Qred_correct. Qed.

Lemma Qc_plus_Q (a b : Qc) : (this (a + b)%Qc == this a + this b)%Q.
Proof. apply Qred_correct. Qed.

Lemma Qc_opp_Q (a : Qc) : (this (- a)%Qc == - this a)%Q.
Proof. apply Qred_correct. Qed.

Lemma Qc_minus_Q (a b : Qc) : (this (a - b)%Qc == this a - this b)%Q.
Proof. unfold Qcminus. rewrite Qc_plus_Q, Qc_opp_Q. reflexivity. Qed.

Lemma Qc_mult_Q (a b : Qc) : (this (a * b)%Qc == this a * this b)%Q.
Proof. apply Qred_correct. Qed.

Lemma Qc_eq_Q (a b : Qc) : a = b ↔ (this a == this b)%Q.
Proof. split; [intros ->; reflexivity | apply Qc_is_canon]. Qed.

Create Rewrite HintDb qc2q.
#[local] Hint Rewrite Qc_plus_Q Qc_minus_Q Qc_mult_Q Qc_opp_Q Q2Qc_this : qc2q.

(** Linear goals over [Qc], sent to [lra] over [Q]. *)
Ltac qc_lra :=
  repeat match goal with
  | H : @eq Qc _ _ |- _ => rewrite Qc_eq_Q in H
  end;
  try (apply Qc_is_canon);
  unfold Qcle, Qclt in *;
  autorewrite with qc2q in *;
  lra.

(** Closed goals over [Qc]. *)
Ltac qc_eval := apply Qc_is_canon; vm_compute; reflexivity.

(** [py_min] is the lesser of its arguments. *)
Lemma py_min_spec (p q : Qc) :
  (py_min p q ≤ p)%Qc ∧ (py_min p q ≤ q)%Qc ∧ (py_min p q = p ∨ py_min p q = q).
Proof. unfold py_min. case_decide; split_and!; auto; qc_lra. Qed.

Lemma py_min_absorb (p q : Qc) : py_min (py_min p q) p = py_min p q.
Proof. unfold py_min. repeat case_decide; try done; qc_lra. Qed.

(** ** float32 rounding *)

Section float32.
Implicit Types (q : Qc) (e : Z).

Lemma pow2_Q e : (this (pow2 e) == 2 ^ e)%Q.
Proof. apply Q2Qc_this. Qed.

Lemma pow2_pos e : (Q2Qc 0 < pow2 e)%Qc.
Proof.
  unfold Qclt. rewrite pow2_Q, Q2Qc_this. by apply Qpower_0_lt.
Qed.

Lemma pow2_le e1 e2 : e1 ≤ e2 → (pow2 e1 ≤ pow2 e2)%Qc.
Proof.
  intros He. unfold Qcle. rewrite !pow2_Q.
  apply Qpower_le_compat_l; [done|]. by vm_compute.
Qed.

Lemma pow2_add e1 e2 : (pow2 (e1 + e2) = pow2 e1 * pow2 e2)%Qc.
Proof.
  apply Qc_is_canon. rewrite Qc_mult_Q, !pow2_Q. by apply Qpower_plus.
Qed.

Lemma pow2_lt_inv e1 e2 q : (pow2 e1 ≤ q)%Qc → (q < pow2 e2)%Qc → e1 < e2.
Proof.
  intros H1 H2. destruct (decide (e1 < e2)) as [|Hge]; [done|].
  pose proof (pow2_le e2 e1 ltac:(lia)). qc_lra.
Qed.

Lemma exp_search_le fuel e q B :
  e ≤ B → (q < pow2 (B + 1))%Qc → exp_search fuel e q ≤ B.
Proof.
  revert e. induction fuel as [|fuel IH]; intros e He Hq; simpl; [done|].
  case_decide as Hstep; [|done]. apply IH; [|done].
  pose proof (pow2_lt_inv _ _ _ Hstep Hq). lia.
Qed.

Lemma exp_search_ge fuel e q : e ≤ exp_search fuel e q.
Proof.
  revert e. induction fuel as [|fuel IH]; intros e; simpl; [done|].
  case_decide; [|done]. specialize (IH (e + 1)). lia.
Qed.

Lemma f32_exponent_bounds q B :
  -126 ≤ B → (Q2Qc 0 ≤ q)%Qc → (q < pow2 (B + 1))%Qc →
  -126 ≤ f32_exponent q ≤ B.
Proof.
  intros HB H0 Hq. unfold f32_exponent.
  rewrite decide_False by qc_lra.
  split; [apply exp_search_ge|by apply exp_search_le].
Qed.

Lemma round_half_even_bounds q :
  (q - Q2Qc 0.5 ≤ Q2Qc (inject_Z (round_half_even q)))%Qc
  ∧ (Q2Qc (inject_Z (round_half_even q)) ≤ q + Q2Qc 0.5)%Qc.
Proof.
  pose proof (Qfloor_le q) as Hlo. pose proof (Qlt_floor q) as Hhi.
  rewrite inject_Z_plus in Hhi. change (inject_Z 1) with 1%Q in Hhi.
  unfold round_half_even. cbv zeta.
  repeat case_decide; try destruct (Z.even _);
    unfold Qcle, Qclt in *; autorewrite with qc2q in *;
    rewrite ?inject_Z_plus; change (inject_Z 1) with 1%Q in *; split; lra.
Qed.

Lemma round_half_even_nonneg q : (Q2Qc 0 ≤ q)%Qc → 0 ≤ round_half_even q.
Proof.
  intros Hq. assert (0 ≤ Qfloor q) as Hf.
  { rewrite <- (Qfloor_Z 0). apply Qfloor_resp_le.
    unfold Qcle in Hq. by rewrite Q2Qc_this in Hq. }
  unfold round_half_even. cbv zeta. repeat case_decide; try destruct (Z.even _); lia.
Qed.

Lemma round_half_even_le q (m : Z) :
  (q ≤ Q2Qc (inject_Z m))%Qc → round_half_even q ≤ m.
Proof.
  intros Hq. unfold Qcle in Hq. rewrite Q2Qc_this in Hq.
  assert (Qfloor q ≤ m) as Hf.
  { rewrite <- (Qfloor_Z m). by apply Qfloor_resp_le. }
  pose proof (Qfloor_le q) as Hlo.
  assert (Qfloor q < m ∨ (this q == inject_Z (Qfloor q))%Q) as [Hlt|Heq].
  { destruct (decide (Qfloor q = m)) as [Heq|]; [|left; lia].
    right. rewrite Heq in *. lra. }
  - unfold round_half_even. cbv zeta.
    repeat case_decide; try destruct (Z.even _); lia.
  - unfold round_half_even. cbv zeta. rewrite decide_True; [done|].
    unfold Qclt. autorewrite with qc2q. lra.
Qed.
End float32.

Section float32_bounds.
Implicit Types (q : Qc) (e : Z).

Lemma inject_nonneg (n : Z) : 0 ≤ n → (Q2Qc 0 ≤ Q2Qc (inject_Z n))%Qc.
Proof.
  intros Hn. unfold Qcle. rewrite !Q2Qc_this.
  change 0%Q with (inject_Z 0). by rewrite <- Zle_Qle.
Qed.

Lemma inject_le (n m : Z) : n ≤ m → (Q2Qc (inject_Z n) ≤ Q2Qc (inject_Z m))%Qc.
Proof. intros Hn. unfold Qcle. rewrite !Q2Qc_this. by rewrite <- Zle_Qle. Qed.

Lemma f32_unfold q :
  let ulp := pow2 (f32_exponent q - 23) in
  ((q / ulp) * ulp = q)%Qc
  ∧ f32 q = (Q2Qc (inject_Z (round_half_even (q / ulp))) * ulp)%Qc
  ∧ (Q2Qc 0 < ulp)%Qc.
Proof.
  cbv zeta. split_and!; [|done|apply pow2_pos].
  rewrite Qcmult_comm. apply Qcmult_div_r.
  pose proof (pow2_pos (f32_exponent q - 23)) as Hpos.
  intros Heq. rewrite Heq in Hpos. by apply Qclt_not_eq in Hpos.
Qed.

Lemma f32_nonneg q : (Q2Qc 0 ≤ q)%Qc → (Q2Qc 0 ≤ f32 q)%Qc.
Proof.
  intros Hq. destruct (f32_unfold q) as (Hx & -> & Hulp).
  set (ulp := pow2 (f32_exponent q - 23)) in *. set (x := (q / ulp)%Qc) in *.
  assert (Q2Qc 0 ≤ x)%Qc as Hx0.
  { apply (Qcmult_lt_0_le_reg_r _ _ ulp); [done|]. rewrite Hx, Qcmult_0_l. done. }
  pose proof (inject_nonneg _ (round_half_even_nonneg x Hx0)) as HR.
  apply (Qcmult_le_compat_r _ _ ulp) in HR; [|by apply Qclt_le_weak].
  by rewrite Qcmult_0_l in HR.
Qed.

(** Rounding does not cross an integer that is itself a float32 of a binade
    at least as high. *)
Lemma f32_le q (c B : Z) :
  -126 ≤ B ≤ 23 → (Q2Qc 0 ≤ q)%Qc → (q ≤ Q2Qc (inject_Z c))%Qc →
  (Q2Qc (inject_Z c) < pow2 (B + 1))%Qc →
  (f32 q ≤ Q2Qc (inject_Z c))%Qc.
Proof.
  intros HB H0 Hq Hc.
  destruct (f32_exponent_bounds q B) as [He1 He2]; [lia|done|qc_lra|].
  destruct (f32_unfold q) as (Hx & -> & Hulp).
  set (e := f32_exponent q) in *. set (ulp := pow2 (e - 23)) in *.
  set (x := (q / ulp)%Qc) in *.
  assert (Q2Qc (inject_Z c) = Q2Qc (inject_Z (c * 2 ^ (23 - e))) * ulp)%Qc as Hc'.
  { subst ulp. apply Qc_is_canon. rewrite Qc_mult_Q, pow2_Q, !Q2Qc_this.
    rewrite inject_Z_mult, Zpower_Qpower by lia.
    rewrite <- Qmult_assoc, <- Qpower_plus by done.
    replace (23 - e + (e - 23)) with 0 by lia. simpl. ring. }
  assert (x ≤ Q2Qc (inject_Z (c * 2 ^ (23 - e))))%Qc as Hxm.
  { apply (Qcmult_lt_0_le_reg_r _ _ ulp); [done|]. by rewrite Hx, <- Hc'. }
  apply round_half_even_le, inject_le in Hxm.
  apply (Qcmult_le_compat_r _ _ ulp) in Hxm; [|by apply Qclt_le_weak].
  by rewrite <- Hc' in Hxm.
Qed.

(** The rounding error is at most half a unit in the last place. *)
Lemma f32_error q B :
  -126 ≤ B → (Q2Qc 0 ≤ q)%Qc → (q < pow2 (B + 1))%Qc →
  (q - pow2 (B - 24) ≤ f32 q)%Qc ∧ (f32 q ≤ q + pow2 (B - 24))%Qc.
Proof.
  intros HB H0 Hq.
  destruct (f32_exponent_bounds q B) as [He1 He2]; [lia|done|done|].
  destruct (f32_unfold q) as (Hx & -> & Hulp).
  set (e := f32_exponent q) in *. set (ulp := pow2 (e - 23)) in *.
  set (x := (q / ulp)%Qc) in *.
  destruct (round_half_even_bounds x) as [Hlo Hhi].
  set (R := Q2Qc (inject_Z (round_half_even x))) in *.
  apply (Qcmult_le_compat_r _ _ ulp) in Hlo, Hhi; try (by apply Qclt_le_weak).
  assert (ulp ≤ pow2 (B - 23))%Qc as Hle by (apply pow2_le; lia).
  assert (pow2 (B - 23) = Q2Qc 2 * pow2 (B - 24))%Qc as Hhalf.
  { replace (B - 23) with (1 + (B - 24)) by lia. rewrite pow2_add. f_equal. }
  rewrite Hhalf in Hle.
  rewrite Qcmult_plus_distr_l in Hhi.
  unfold Qcminus in Hlo. rewrite Qcmult_plus_distr_l in Hlo.
  rewrite Hx in Hlo, Hhi.
  split; qc_lra.
Qed.
End float32_bounds.

(** ** The rule-based decision *)

Section fallback.
Implicit Types (st : AntState) (ctx : WorldContext).

Lemma fallback_unfold st ctx :
  _fallback_decision st ctx =
  fallback_rules (default (Q2Qc 100) (st_energy st))
    (default (Q2Qc 0) (st_carrying_food st))
    (default false (near_food ctx)) (default false (near_home ctx)).
Proof.
  unfold _fallback_decision, fallback_rules.
  repeat case_decide; repeat case_bool_decide; done.
Qed.

(** C1, as stated, fails: an ant carrying two units of food with energy 25
    next to a tunnel is told to rest, not to return home. *)
Lemma fallback_carrying_food_rests :
  let st := mkAntState (Some (Q2Qc 25)) (Some (Q2Qc 2)) None None None None in
  let ctx := mkWorldContext None (Some true) [] None in
  (Q2Qc 0 < default (Q2Qc 0) (st_carrying_food st))%Qc
  ∧ _fallback_decision st ctx = rest
  ∧ _fallback_decision st ctx ≠ return_home.
Proof. split_and!; [by vm_compute|reflexivity|discriminate]. Qed.

(** C1, amended: with carried food greater than 0 the rule-based decision is
    ReturnHome, except when the energy is below 30 and a tunnel is in view,
    where it is Rest. *)
Theorem fallback_carrying_food st ctx :
  (Q2Qc 0 < default (Q2Qc 0) (st_carrying_food st))%Qc →
  _fallback_decision st ctx =
  if bool_decide (default (Q2Qc 100) (st_energy st) < Q2Qc 30)%Qc
     && default false (near_home ctx)
  then rest else return_home.
Proof.
  intros Hfood. rewrite fallback_unfold. unfold fallback_rules.
  rewrite (bool_decide_eq_true_2 _ Hfood).
  case_bool_decide; destruct (default false (near_home ctx)); done.
Qed.

Lemma fallback_carrying_food_witness :
  _fallback_decision
    (mkAntState (Some (Q2Qc 50)) (Some (Q2Qc 2)) None None None None)
    (mkWorldContext None (Some true) [] None) = return_home.
Proof.
  rewrite (fallback_carrying_food _ _); [reflexivity | vm_compute; reflexivity].
Defined.

(** C5: the rule-based decision is the function of the state given by the
    rules of the specification in their order (energy below 30: Rest near
    home, else ReturnHome; carried food: ReturnHome; food in view:
    CollectFood; otherwise Explore); at energy 25 near home it is Rest. *)
Theorem fallback_follows_rules :
  (∀ energy carried food_visible home task x y age tunnel ants,
     _fallback_decision
       (mkAntState (Some energy) (Some carried) task x y age)
       (mkWorldContext (Some food_visible) (Some home) ants tunnel)
     = fallback_rules energy carried food_visible home)
  ∧ (∀ carried task x y age food_visible tunnel ants,
     _fallback_decision
       (mkAntState (Some (Q2Qc 25)) carried task x y age)
       (mkWorldContext food_visible (Some true) ants tunnel) = rest).
Proof.
  split; intros; rewrite fallback_unfold; [done|].
  unfold fallback_rules. cbn [default st_energy near_home].
  rewrite (bool_decide_eq_true_2 (Q2Qc 25 < Q2Qc 30)%Qc); [done | vm_compute; reflexivity].
Qed.
End fallback.

(** ** Grid queries *)

Section grid.
Implicit Types (w : World.t) (x y : Z).

Lemma is_valid_position_spec w x y :
  is_valid_position w x y = true ↔
  (0 ≤ x < World.width w) ∧ (0 ≤ y < World.height w).
Proof.
  unfold is_valid_position.
  rewrite andb_true_iff, !bool_decide_eq_true. tauto.
Qed.

Lemma is_valid_position_false w x y :
  ¬ ((0 ≤ x < World.width w) ∧ (0 ≤ y < World.height w)) →
  is_valid_position w x y = false.
Proof.
  intros H. apply not_true_is_false. by rewrite is_valid_position_spec.
Qed.

(** C9: outside the grid every query answers with its neutral value, does
    not fail, and leaves the world as it was. *)
Theorem out_of_bounds_is_neutral w x y :
  ¬ ((0 ≤ x < World.width w) ∧ (0 ≤ y < World.height w)) →
  can_move_to w x y = Some false
  ∧ can_dig_at w x y = Some false
  ∧ is_tunnel w x y = Some false
  ∧ get_food_at w x y = Some (Q2Qc 0)
  ∧ (∀ amount, remove_food_at w x y amount = Some (Q2Qc 0, w))
  ∧ (∀ kind, get_pheromone_strength w x y kind = Some (Q2Qc 0))
  ∧ dig_tunnel_at w x y = Some w.
Proof.
  intros H%is_valid_position_false.
  unfold can_move_to, can_dig_at, is_tunnel, get_food_at, remove_food_at,
    get_pheromone_strength, dig_tunnel_at, can_dig_at.
  rewrite H. simpl. done.
Qed.

(** C8: digging turns Soil into Tunnel and counts it; anywhere else it
    changes nothing; digging a cell twice is digging it once. *)
Theorem dig_tunnel_at_spec w x y :
  (∀ c, is_valid_position w x y = true → World.terrain w !! (x, y) = Some c →
     dig_tunnel_at w x y =
     Some (if decide (c = Soil)
           then World.set_total_tunnels_dug (World.total_tunnels_dug w + 1)
                  (World.set_terrain (<[(x, y) := Tunnel]> (World.terrain w)) w)
           else w))
  ∧ (is_valid_position w x y = false → dig_tunnel_at w x y = Some w)
  ∧ (w1 ← dig_tunnel_at w x y; dig_tunnel_at w1 x y) = dig_tunnel_at w x y.
Proof.
  unfold dig_tunnel_at, can_dig_at, np_get, np_set.
  split_and!.
  - intros c -> Hc. rewrite Hc. simpl.
    case_decide; subst.
    + by rewrite bool_decide_eq_true_2.
    + by rewrite bool_decide_eq_false_2.
  - by intros ->.
  - destruct (is_valid_position w x y) eqn:Hv; simpl; [|by rewrite Hv].
    destruct (World.terrain w !! (x, y)) as [c|] eqn:Hc; simpl; [|done].
    case_bool_decide; simpl; subst.
    + unfold is_valid_position in *. simpl. rewrite Hv. simpl.
      by rewrite lookup_insert_eq.
    + rewrite Hv, Hc. simpl. by rewrite ?bool_decide_eq_false_2.
Qed.
End grid.

(** ** Loops *)

Section loops.
Context {A S : Type}.
Implicit Types (body : S → A → option S) (l : list A).

Lemma for_each_app body s l1 l2 :
  for_each body s (l1 ++ l2) = s' ← for_each body s l1; for_each body s' l2.
Proof.
  revert s. induction l1 as [|i l1 IH]; intros s; simpl; [done|].
  destruct (body s i); simpl; auto.
Qed.

(** A property kept by the body is kept by the loop. *)
Lemma for_each_inv (P : S → Prop) body l s s' :
  (∀ s i s', i ∈ l → P s → body s i = Some s' → P s') →
  P s → for_each body s l = Some s' → P s'.
Proof.
  revert s. induction l as [|i l IH]; intros s Hb Hs Hrun; simpl in Hrun.
  - by simplify_eq.
  - destruct (body s i) as [s1|] eqn:Hi; simplify_eq/=.
    apply (IH s1); [|by eapply Hb; [left|..]|done].
    intros s0 j s0' Hj. apply Hb. by right.
Qed.

(** A loop whose body succeeds on every state of an invariant succeeds. *)
Lemma for_each_total (P : S → Prop) body l s :
  (∀ s i, i ∈ l → P s → ∃ s', body s i = Some s' ∧ P s') →
  P s → ∃ s', for_each body s l = Some s' ∧ P s'.
Proof.
  revert s. induction l as [|i l IH]; intros s Hb Hs; simpl; [by eauto|].
  destruct (Hb s i) as (s1 & -> & Hs1); [by left|done|]. simpl.
  apply IH; [|done]. intros s0 j Hj. apply Hb. by right.
Qed.

Lemma for_each_succeeds body l s :
  (∀ s i, i ∈ l → ∃ s', body s i = Some s') → ∃ s', for_each body s l = Some s'.
Proof.
  intros Hb. destruct (for_each_total (λ _, True) body l s) as (s' & ? & _); eauto.
  intros s0 i Hi _. destruct (Hb s0 i Hi); eauto.
Qed.
End loops.

Lemma elem_of_py_range lo hi i : i ∈ py_range lo hi ↔ lo ≤ i < hi.
Proof.
  unfold py_range. rewrite list_elem_of_fmap. split.
  - intros (k & -> & Hk%elem_of_seq). lia.
  - intros H. exists (Z.to_nat (i - lo)). split; [lia|].
    apply elem_of_seq. lia.
Qed.

(** ** Queries on a well-formed world do not fail *)

Section queries.
Context (w : World.t) (Hok : world_ok w).
Implicit Types (x y : Z).

Lemma can_move_to_total x y : ∃ b, can_move_to w x y = Some b.
Proof.
  unfold can_move_to, np_get.
  destruct (is_valid_position w x y) eqn:Hv; simpl; [|by eauto].
  destruct (ok_terrain w Hok x y Hv) as [c ->]. simpl. eauto.
Qed.

Lemma can_dig_at_total x y : ∃ b, can_dig_at w x y = Some b.
Proof.
  unfold can_dig_at, np_get.
  destruct (is_valid_position w x y) eqn:Hv; simpl; [|by eauto].
  destruct (ok_terrain w Hok x y Hv) as [c ->]. simpl. eauto.
Qed.

Lemma is_tunnel_total x y : ∃ b, is_tunnel w x y = Some b.
Proof.
  unfold is_tunnel, np_get.
  destruct (is_valid_position w x y) eqn:Hv; simpl; [|by eauto].
  destruct (ok_terrain w Hok x y Hv) as [c ->]. simpl. eauto.
Qed.

Lemma get_food_at_total x y : ∃ f, get_food_at w x y = Some f.
Proof.
  unfold get_food_at, np_get.
  destruct (is_valid_position w x y) eqn:Hv; simpl; [|by eauto].
  destruct (ok_food w Hok x y Hv) as [c ->]. eauto.
Qed.
End queries.

Lemma can_move_to_valid w x y :
  can_move_to w x y = Some true → is_valid_position w x y = true.
Proof.
  unfold can_move_to. destruct (is_valid_position w x y); simpl; [done|].
  intros; simplify_eq.
Qed.

(** ** One ant, one update *)

Lemma ant_kept_refl w a : ant_kept w a a.
Proof. by split. Qed.

Lemma ant_kept_trans w a1 a2 a3 :
  ant_kept w a1 a2 → ant_kept w a2 a3 → ant_kept w a1 a3.
Proof. intros [] []. split; try congruence; auto. Qed.

Lemma ant_step_refl self w : ant_step self w w.
Proof. split; auto. Qed.

Lemma on_grid_ant_step self w w' a : ant_step self w w' → on_grid w a → on_grid w' a.
Proof.
  intros [Hw Hh _ _ _ _ _ _ _]. unfold on_grid, is_valid_position. by rewrite Hw, Hh.
Qed.

Section movement.
Implicit Types (a : Ant.t) (w : World.t).

Lemma move_towards_target_kept a w a' :
  _move_towards_target a w = Some a' →
  ant_kept w a a' ∧ Ant.energy a' = Ant.energy a
  ∧ Ant.current_task a' = Ant.current_task a
  ∧ Ant.carrying_food a' = Ant.carrying_food a.
Proof.
  unfold _move_towards_target. intros H.
  destruct (Ant.target_x a) as [tx|], (Ant.target_y a) as [ty|]; simplify_eq;
    try (by split_and!; [apply ant_kept_refl|..]).
  cbv zeta in H.
  match type of H with
  | context [can_move_to w ?nx ?ny] =>
      destruct (can_move_to w nx ny) as [[]|] eqn:Hm
  end; simplify_eq/=.
  - apply can_move_to_valid in Hm. by split_and!; [split|..].
  - by split_and!; [split|..].
Qed.

Lemma move_towards_target_total a w :
  world_ok w → ∃ a', _move_towards_target a w = Some a'.
Proof.
  intros Hok. unfold _move_towards_target.
  destruct (Ant.target_x a) as [tx|], (Ant.target_y a) as [ty|]; eauto.
  cbv zeta.
  match goal with
  | |- context [can_move_to w ?nx ?ny] =>
      destruct (can_move_to_total w Hok nx ny) as [[] ->]
  end; simpl; eauto.
Qed.
End movement.

Section scans.
Implicit Types (a : Ant.t) (w : World.t).

Lemma find_nearest_total hit a w :
  (∀ x y, ∃ b, hit x y = Some b) → ∃ r, find_nearest hit a w = Some r.
Proof.
  intros Hhit. unfold find_nearest.
  match goal with
  | |- context [for_each ?b ?s ?l] => destruct (for_each_succeeds b l s) as [st ->]
  end; [|by simpl; eauto].
  intros st x _. apply for_each_succeeds. intros st' y _.
  destruct (Hhit x y) as [[] ->]; simpl; [case_match|]; eauto.
Qed.

Lemma _find_nearest_food_total a w :
  world_ok w → ∃ r, _find_nearest_food a w = Some r.
Proof.
  intros Hok. apply find_nearest_total. intros x y.
  destruct (get_food_at_total w Hok x y) as [f ->]. simpl. eauto.
Qed.

Lemma _find_nearest_tunnel_total a w :
  world_ok w → ∃ r, _find_nearest_tunnel a w = Some r.
Proof. intros Hok. apply find_nearest_total, is_tunnel_total, Hok. Qed.

Lemma _find_nearest_ant_total self a w :
  world_ok w → ∃ r, _find_nearest_ant self a w = Some r.
Proof.
  intros Hok. unfold _find_nearest_ant.
  match goal with
  | |- context [for_each ?b ?s ?l] => destruct (for_each_succeeds b l s) as [st ->]
  end; [|by simpl; eauto].
  intros st r Hr. case_decide; [|by eauto].
  destruct (ok_objects w Hok r Hr) as [o ->]. simpl.
  repeat case_match; eauto.
Qed.

(** The ant found is another living ant of the list. *)
Lemma _find_nearest_ant_found self a w tr :
  _find_nearest_ant self a w = Some (Some tr) →
  tr ≠ self ∧ tr ∈ World.ants w ∧
  ∃ o, World.objects w !! tr = Some o ∧ Ant.alive o = true.
Proof.
  unfold _find_nearest_ant. intros H.
  destruct (for_each _ _ _) as [res|] eqn:Hloop; simplify_eq/=.
  revert Hloop H.
  apply (for_each_inv (λ st : option Z * option ref, st.2 = Some tr → _));
    [|done].
  intros st r st' Hr IH Hbody Hst'.
  case_decide; [|by simplify_eq; auto].
  destruct (World.objects w !! r) as [o|] eqn:Ho; simplify_eq/=.
  destruct (Ant.alive o) eqn:Halive; [|by simplify_eq; auto].
  case_match; simplify_eq/=; eauto.
Qed.
End scans.

Section world_ops.
Implicit Types (w : World.t) (x y : Z).

Lemma np_set_dom {A} (arr g : gmap (Z * Z) A) x y v :
  np_set arr x y v = Some g → dom g = dom arr.
Proof.
  unfold np_set. destruct (arr !! (x, y)) eqn:Hc; intros; simplify_eq.
  apply dom_insert_lookup_L. eauto.
Qed.

Lemma np_set_spec {A} (arr g : gmap (Z * Z) A) x y v :
  np_set arr x y v = Some g → g = <[(x, y) := v]> arr.
Proof. unfold np_set. case_match; intros; by simplify_eq. Qed.

Lemma remove_food_at_step self w x y amount removed w' :
  remove_food_at w x y amount = Some (removed, w') → ant_step self w w'.
Proof.
  unfold remove_food_at, np_get. intros H.
  destruct (is_valid_position w x y); simplify_option_eq; [|apply ant_step_refl].
  split; simpl; eauto using np_set_dom.
Qed.

Lemma dig_tunnel_at_step self w x y w' :
  dig_tunnel_at w x y = Some w' → ant_step self w w'.
Proof.
  unfold dig_tunnel_at. intros H.
  destruct (can_dig_at w x y) as [[]|]; simplify_option_eq; [|apply ant_step_refl].
  split; simpl; eauto using np_set_dom.
Qed.

Lemma add_food_storage_step self w amount : ant_step self w (add_food_storage w amount).
Proof. split; simpl; auto. Qed.

Lemma ant_step_world_ok self w w' : ant_step self w w' → world_ok w → world_ok w'.
Proof.
  intros [Hw Hh Hants Hpf Hph _ Hter Hfood Hobj] [].
  assert (Hv : ∀ x y, is_valid_position w' x y = is_valid_position w x y).
  { intros. unfold is_valid_position. by rewrite Hw, Hh. }
  split; unfold has_shape; try setoid_rewrite Hv.
  - intros x y ?. apply elem_of_dom. rewrite Hter. apply elem_of_dom. auto.
  - intros x y ?. apply elem_of_dom. rewrite Hfood. apply elem_of_dom. auto.
  - by rewrite Hpf.
  - by rewrite Hph.
  - rewrite Hants. intros r Hr.
    destruct (Hobj r) as [->|(_ & _ & o & _ & _ & ->)]; eauto.
  - by rewrite Hants.
Qed.

Lemma remove_food_at_total w x y amount :
  world_ok w → ∃ res, remove_food_at w x y amount = Some res.
Proof.
  intros Hok. unfold remove_food_at, np_get, np_set.
  destruct (is_valid_position w x y) eqn:Hv; [|by eauto].
  destruct (ok_food w Hok x y Hv) as [c ->]. simpl. eauto.
Qed.

Lemma dig_tunnel_at_total w x y :
  world_ok w → ∃ w', dig_tunnel_at w x y = Some w'.
Proof.
  intros Hok. unfold dig_tunnel_at, can_dig_at, np_get, np_set.
  destruct (is_valid_position w x y) eqn:Hv; simpl; [|by eauto].
  destruct (ok_terrain w Hok x y Hv) as [c ->]. simpl.
  case_bool_decide; eauto.
Qed.
End world_ops.

Section actions.
Implicit Types (a : Ant.t) (w : World.t) (self : ref).

Lemma _action_explore_post self a w env a' w' :
  _action_explore a w env = Some (a', w') → action_post self a w a' w'.
Proof.
  unfold _action_explore. intros Hrun.
  match type of Hrun with
  | context [_move_towards_target ?a0 w] => set (a0' := a0) in Hrun
  end.
  assert (ant_kept w a a0' ∧ Ant.energy a0' = Ant.energy a) as [Hk0 He0].
  { subst a0'. repeat case_match; by split. }
  destruct (_move_towards_target a0' w) as [a1|] eqn:Hm; simplify_eq/=.
  apply move_towards_target_kept in Hm as (Hk1 & He1 & _).
  pose proof (ant_kept_trans _ _ _ _ Hk0 Hk1) as [].
  case_match; simplify_eq;
    (split_and!; [apply ant_step_refl|by split|left; simpl; congruence]).
Qed.

Lemma move_with_target_kept a w tx ty a1 :
  _move_towards_target (Ant.set_target tx ty a) w = Some a1 →
  ant_kept w a a1 ∧ Ant.energy a1 = Ant.energy a
  ∧ Ant.current_task a1 = Ant.current_task a
  ∧ Ant.carrying_food a1 = Ant.carrying_food a.
Proof. intros (Hk & ? & ? & ?)%move_towards_target_kept. by destruct Hk. Qed.

Lemma set_current_task_post self a w k :
  action_post self a w (Ant.set_current_task k a) w.
Proof. split_and!; [apply ant_step_refl|by split|by left]. Qed.

Lemma _action_move_to_food_post self a w a' w' :
  _action_move_to_food a w = Some (a', w') → action_post self a w a' w'.
Proof.
  unfold _action_move_to_food. intros Hrun.
  destruct (_find_nearest_food a w) as [[[fx fy]|]|]; simplify_eq/=;
    [|apply set_current_task_post].
  destruct (_move_towards_target _ w) as [a1|] eqn:Hm; simplify_eq/=.
  apply move_with_target_kept in Hm as (Hk & He & _).
  split_and!; [apply ant_step_refl|done|left; simpl; by rewrite ?He].
Qed.

Lemma _action_collect_food_post self a w a' w' :
  _action_collect_food a w = Some (a', w') → action_post self a w a' w'.
Proof.
  unfold _action_collect_food. intros Hrun.
  destruct (get_food_at w _ _) as [f|]; simplify_eq/=.
  case_match; simplify_eq/=; [|apply set_current_task_post].
  destruct (remove_food_at w _ _ _) as [[removed w1]|] eqn:Hrm; simplify_eq/=.
  split_and!; [by eapply remove_food_at_step|by split|by left].
Qed.

Lemma _action_return_home_post self a w a' w' :
  _action_return_home a w = Some (a', w') → action_post self a w a' w'.
Proof.
  unfold _action_return_home. intros Hrun.
  destruct (_find_nearest_tunnel a w) as [[[hx hy]|]|]; simplify_eq/=;
    [|apply set_current_task_post].
  destruct (_move_towards_target _ w) as [a1|] eqn:Hm; simplify_eq/=.
  apply move_with_target_kept in Hm as ([] & He & _).
  destruct (is_tunnel w _ _) as [at_home|]; simplify_eq/=.
  case_match; simplify_eq/=.
  - split_and!; [apply add_food_storage_step|by split|left; simpl; by rewrite ?He].
  - split_and!; [apply ant_step_refl|by split|left; simpl; by rewrite ?He].
Qed.

Lemma _action_dig_tunnel_post self a w a' w' :
  _action_dig_tunnel a w = Some (a', w') → action_post self a w a' w'.
Proof.
  unfold _action_dig_tunnel. intros Hrun.
  case_decide; simplify_eq/=; [|apply set_current_task_post].
  destruct (can_dig_at w _ _) as [[]|]; simplify_eq/=.
  - destruct (dig_tunnel_at w _ _) as [w1|] eqn:Hdig; simplify_eq/=.
    split_and!; [by eapply dig_tunnel_at_step|by split|].
    by right.
  - split_and!; [apply ant_step_refl|apply ant_kept_refl|by left].
Qed.

Lemma _action_follow_ant_post self a w a' w' :
  _action_follow_ant self a w = Some (a', w') → action_post self a w a' w'.
Proof.
  unfold _action_follow_ant. intros Hrun.
  destruct (_find_nearest_ant self a w) as [[tr|]|]; simplify_eq/=;
    [|apply set_current_task_post].
  destruct (World.objects w !! tr) as [o|]; simplify_eq/=.
  destruct (_move_towards_target _ w) as [a1|] eqn:Hm; simplify_eq/=.
  apply move_with_target_kept in Hm as (Hk & He & _).
  split_and!; [apply ant_step_refl|done|left; simpl; by rewrite ?He].
Qed.

Lemma _action_help_ant_post self a w a' w' :
  _action_help_ant self a w = Some (a', w') → action_post self a w a' w'.
Proof.
  unfold _action_help_ant. intros Hrun.
  destruct (_find_nearest_ant self a w) as [[tr|]|] eqn:Hfind; simplify_eq/=;
    [|apply set_current_task_post].
  apply _find_nearest_ant_found in Hfind as (Hne & Hin & o & Ho & Halive).
  rewrite Ho in Hrun. simpl in Hrun.
  case_bool_decide; simplify_eq/=; [|apply set_current_task_post].
  destruct (_move_towards_target _ w) as [a1|] eqn:Hm; simplify_eq/=.
  apply move_with_target_kept in Hm as ([] & He & _).
  assert (action_post self a w a1 w).
  { split_and!; [apply ant_step_refl|by split|left; simpl; by rewrite ?He]. }
  repeat (case_bool_decide || case_decide); simplify_eq/=; try done.
  split_and!; [|by split|right; simpl; rewrite <- He; by split].
  split; simpl; auto. intros r.
  destruct (decide (r = tr)) as [->|]; [right|left; by rewrite lookup_insert_ne].
  split_and!; [done..|]. exists o. by rewrite lookup_insert_eq.
Qed.

(** Resting keeps the frame too; it is the one action that may raise the
    ant's own energy. *)
Lemma _action_rest_post self a w a' w' :
  _action_rest a w = Some (a', w') → ant_step self w w' ∧ ant_kept w a a'.
Proof.
  unfold _action_rest. intros Hrun.
  case_decide; simplify_eq/=; (split; [apply ant_step_refl|by split]).
Qed.


Lemma _execute_action_post self a w env a' w' :
  _execute_action self a w env = Some (a', w') →
  ant_step self w w' ∧ ant_kept w a a' ∧
  (Ant.current_task a ≠ rest → energy_spent a a').
Proof.
  unfold _execute_action. intros Hrun.
  destruct (Ant.current_task a);
    first [ apply _action_rest_post with (self := self) in Hrun as [];
            by split_and!
          | assert (action_post self a w a' w') as (? & ? & ?);
            [eauto using _action_explore_post, _action_move_to_food_post,
               _action_collect_food_post, _action_return_home_post,
               _action_dig_tunnel_post, _action_follow_ant_post,
               _action_help_ant_post
            |by split_and!] ].
Qed.
End actions.

Section update.
Implicit Types (a : Ant.t) (w : World.t) (self : ref) (env : AntEnv).

Lemma _gather_world_context_total self a w :
  world_ok w → ∃ ctx, _gather_world_context self a w = Some ctx.
Proof.
  intros Hok. unfold _gather_world_context.
  apply for_each_succeeds. intros ctx dx _.
  apply for_each_succeeds. intros ctx' dy _.
  destruct (is_valid_position w _ _); simpl; [|by eauto].
  destruct (get_food_at_total w Hok (Ant.x a + dx) (Ant.y a + dy)) as [f ->].
  destruct (is_tunnel_total w Hok (Ant.x a + dx) (Ant.y a + dy)) as [tn ->].
  simpl. apply for_each_succeeds. intros ctx'' r Hr.
  case_decide; [|by eauto].
  destruct (ok_objects w Hok r Hr) as [o ->]. simpl. case_match; eauto.
Qed.

Lemma _update_ai_decision_kept self a w env a1 :
  _update_ai_decision self a w env = Some a1 →
  ant_kept w a a1 ∧ Ant.energy a1 = Ant.energy a.
Proof.
  unfold _update_ai_decision. intros Hrun.
  case_decide; simplify_eq/=; [|by split; [split|]].
  destruct (_gather_world_context _ _ _) as [ctx|]; simplify_eq/=.
  case_decide; by split; [split|].
Qed.

Lemma _update_ai_decision_total self a w env :
  world_ok w → ∃ a1, _update_ai_decision self a w env = Some a1.
Proof.
  intros Hok. unfold _update_ai_decision. case_decide; [|by eauto].
  match goal with
  | |- context [_gather_world_context self ?a0 w] =>
      destruct (_gather_world_context_total self a0 w Hok) as [ctx ->]
  end. simpl. eauto.
Qed.

Lemma _execute_action_total self a w env :
  world_ok w → ∃ res, _execute_action self a w env = Some res.
Proof.
  intros Hok. unfold _execute_action.
  destruct (Ant.current_task a).
  - unfold _action_explore.
    match goal with
    | |- context [_move_towards_target ?a0 w] =>
        destruct (move_towards_target_total a0 w Hok) as [a1 ->]
    end. simpl. case_match; eauto.
  - unfold _action_move_to_food.
    destruct (_find_nearest_food_total a w Hok) as [[[fx fy]|] ->]; simpl; eauto.
    destruct (move_towards_target_total
                (Ant.set_target (Some fx) (Some fy) a) w Hok) as [a1 ->].
    simpl. eauto.
  - unfold _action_collect_food.
    destruct (get_food_at_total w Hok (Ant.x a) (Ant.y a)) as [f ->]. simpl.
    case_match; eauto.
    match goal with
    | |- context [remove_food_at w ?x ?y ?c] =>
        destruct (remove_food_at_total w x y c Hok) as [[removed w1] ->]
    end. simpl. eauto.
  - unfold _action_return_home.
    destruct (_find_nearest_tunnel_total a w Hok) as [[[hx hy]|] ->]; simpl; eauto.
    destruct (move_towards_target_total
                (Ant.set_target (Some hx) (Some hy) a) w Hok) as [a1 ->].
    simpl.
    destruct (is_tunnel_total w Hok (Ant.x a1) (Ant.y a1)) as [tn ->].
    simpl. case_match; eauto.
  - unfold _action_dig_tunnel. case_decide; eauto.
    destruct (can_dig_at_total w Hok (Ant.x a) (Ant.y a)) as [[] ->]; simpl; eauto.
    destruct (dig_tunnel_at_total w (Ant.x a) (Ant.y a) Hok) as [w1 ->].
    simpl. eauto.
  - unfold _action_follow_ant.
    destruct (_find_nearest_ant_total self a w Hok) as [[tr|] Hfind];
      rewrite Hfind; simpl; eauto.
    apply _find_nearest_ant_found in Hfind as (_ & _ & o & -> & _). simpl.
    destruct (move_towards_target_total
                (Ant.set_target (Some (Ant.x o)) (Some (Ant.y o)) a) w Hok)
      as [a1 ->].
    simpl. eauto.
  - unfold _action_rest. case_decide; eauto.
  - unfold _action_help_ant.
    destruct (_find_nearest_ant_total self a w Hok) as [[tr|] Hfind];
      rewrite Hfind; simpl; eauto.
    apply _find_nearest_ant_found in Hfind as (_ & _ & o & -> & _). simpl.
    case_bool_decide; eauto.
    destruct (move_towards_target_total
                (Ant.set_target (Some (Ant.x o)) (Some (Ant.y o)) a) w Hok)
      as [a1 ->].
    simpl. repeat case_match; eauto.
Qed.



(** Every call of [Ant.update] returns on a well-formed world. *)
Lemma Ant_update_total self a w env :
  world_ok w → ∃ res, Ant_update self a w env = Some res.
Proof.
  intros Hok. unfold Ant_update.
  destruct (Ant.alive a); simpl; [|by eauto].
  case_decide; [by eauto|].
  match goal with
  | |- context [_update_ai_decision self ?a0 w env] =>
      destruct (_update_ai_decision_total self a0 w env Hok) as [a1 ->]
  end. simpl.
  destruct (_execute_action_total self a1 w env Hok) as [[a2 w2] ->].
  simpl. eauto.
Qed.

(** What [Ant.update] does to the world and keeps of the ant; the ant is
    alive afterwards exactly when it was alive and its energy stays above 0
    after the decay. *)
Lemma Ant_update_post self a w env a' w' :
  Ant_update self a w env = Some (a', w') →
  ant_step self w w'
  ∧ Ant.max_energy a' = Ant.max_energy a
  ∧ (on_grid w a → on_grid w' a')
  ∧ Ant.alive a' =
      Ant.alive a && bool_decide (¬ (Ant.energy a - Q2Qc 0.1 ≤ Q2Qc 0)%Qc).
Proof.
  unfold Ant_update. intros Hrun.
  destruct (Ant.alive a) eqn:Halive; simplify_eq/=;
    [|by split_and!; [apply ant_step_refl|..]].
  case_decide as Hdie; simplify_eq/=.
  { rewrite bool_decide_eq_false_2 by auto.
    by split_and!; [apply ant_step_refl|..]. }
  rewrite bool_decide_eq_true_2 by done.
  destruct (_update_ai_decision _ _ _ _) as [a1|] eqn:Hdec; simplify_eq/=.
  destruct (_execute_action _ _ _ _) as [[a2 w2]|] eqn:Hact; simplify_eq/=.
  apply _update_ai_decision_kept in Hdec as ([] & _).
  apply _execute_action_post in Hact as (Hstep & [] & _).
  split_and!; simpl in *; [done|congruence| |congruence].
  intros Hg. eapply on_grid_ant_step; [done|].
  unfold on_grid in *. simpl. auto.
Qed.


(** The task executed is the task the ant had, or a decision taken in this
    update, which needs the cooldown to run out. *)
Lemma executed_task_cases self a w env k :
  executed_task self a w env = Some k →
  k = Ant.current_task a
  ∨ (Ant.ai_decision_cooldown a - 1 ≤ 0
     ∧ ∃ st ctx, k = make_decision env st ctx).
Proof.
  unfold executed_task, _update_ai_decision. simpl. intros Hk.
  case_decide; simplify_eq/=; [|by left].
  destruct (_gather_world_context _ _ _) as [ctx|]; simplify_eq/=.
  case_decide; simpl; [right; eauto|by left].
Qed.

(** The ant's own update keeps its energy between 0 and [max_energy]. *)
Lemma Ant_update_own_energy_bounds self a w env a' w' :
  Ant.alive a = true →
  (Q2Qc 0 ≤ Ant.max_energy a)%Qc → (Ant.energy a ≤ Ant.max_energy a)%Qc →
  Ant_update self a w env = Some (a', w') →
  Ant.alive a' = true →
  (Q2Qc 0 ≤ Ant.energy a')%Qc ∧ (Ant.energy a' ≤ Ant.max_energy a')%Qc.
Proof.
  unfold Ant_update. intros -> Hmax Hle Hrun Halive'. simpl in *.
  case_decide as Hpos; simplify_eq/=.
  destruct (_update_ai_decision _ _ _ _) as [a1|] eqn:Hdec; simplify_eq/=.
  destruct (_execute_action _ _ _ _) as [[a2 w2]|] eqn:Hact; simplify_eq/=.
  apply _update_ai_decision_kept in Hdec as ([_ Hm1 _] & He1). simpl in *.
  destruct (decide (Ant.current_task a1 = rest)) as [Hrest|Hrest].
  - unfold _execute_action in Hact. rewrite Hrest in Hact.
    unfold _action_rest in Hact.
    destruct (py_min_spec (Ant.max_energy a1) (Ant.energy a1 + Q2Qc 2)%Qc)
      as (Hp1 & Hp2 & Hp3).
    case_decide; simplify_eq/=; rewrite Hm1 in *; rewrite He1 in *;
      (split; [destruct Hp3 as [->| ->]; [done|qc_lra]|done]).
  - apply _execute_action_post in Hact as (_ & [_ Hm2 _] & Hspent).
    rewrite Hm2, Hm1.
    destruct (Hspent Hrest) as [->|[Hcost ->]]; rewrite He1 in *;
      unfold config.DIGGING_ENERGY_COST in *; split; qc_lra.
Qed.
End update.

(** ** The frame update *)

Section removal.
Implicit Types (r : ref) (l : list ref).

Lemma py_remove_total r l : r ∈ l → ∃ l', py_remove r l = Some l'.
Proof.
  induction l as [|h l IH]; [by intros ?%elem_of_nil|].
  intros Hr. simpl. case_decide; [by eauto|].
  apply elem_of_cons in Hr as [->|Hr]; [done|].
  destruct (IH Hr) as [l' ->]. simpl. eauto.
Qed.


Lemma py_remove_elem_of r l l' r' :
  py_remove r l = Some l' → r' ∈ l' → r' ∈ l.
Proof.
  revert l'. induction l as [|h l IH]; intros l' Hrm Hr'; simplify_eq/=.
  case_decide; simplify_eq; [by right|].
  destruct (py_remove r l) as [l0|]; simplify_eq/=.
  apply elem_of_cons in Hr' as [->|]; [by left|right; eauto].
Qed.

Lemma py_remove_other r l l' r' :
  py_remove r l = Some l' → r' ∈ l → r' ≠ r → r' ∈ l'.
Proof.
  revert l'. induction l as [|h l IH]; intros l' Hrm Hr' Hne; simplify_eq/=.
  case_decide; simplify_eq; [by apply elem_of_cons in Hr' as [->|?]|].
  destruct (py_remove r l) as [l0|]; simplify_eq/=.
  apply elem_of_cons in Hr' as [->|]; [by left|right; eauto].
Qed.

Lemma py_remove_NoDup r l l' :
  py_remove r l = Some l' → NoDup l → NoDup l' ∧ r ∉ l'.
Proof.
  revert l'. induction l as [|h l IH]; intros l' Hrm Hnd; simplify_eq/=.
  apply list.NoDup_cons in Hnd as [Hh Hnd].
  case_decide; simplify_eq; [done|].
  destruct (py_remove r l) as [l0|] eqn:Hl0; simplify_eq/=.
  destruct (IH l0 eq_refl Hnd) as [Hnd0 Hr0]. split.
  - apply list.NoDup_cons. split; [|done]. intros ?. apply Hh.
    by eapply py_remove_elem_of.
  - by intros [->|?]%elem_of_cons.
Qed.
End removal.

Section turn.
Implicit Types (w : World.t) (r : ref) (env : TickEnv).

(** The pieces of one turn of the loop. *)
Lemma ant_turn_inv env w r w' :
  ant_turn env w r = Some w' →
  ∃ a a' w1,
    World.objects w !! r = Some a
    ∧ Ant_update r a w (ant_env env r) = Some (a', w1)
    ∧ ant_step r w w1
    ∧ World.objects w' = <[r := a']> (World.objects w1)
    ∧ World.width w' = World.width w ∧ World.height w' = World.height w
    ∧ World.terrain w' = World.terrain w1 ∧ World.food w' = World.food w1
    ∧ World.pheromone_food w' = World.pheromone_food w
    ∧ World.pheromone_home w' = World.pheromone_home w
    ∧ (if Ant.alive a' then World.ants w' = World.ants w
       else py_remove r (World.ants w) = Some (World.ants w')).
Proof.
  unfold ant_turn. intros Hrun.
  destruct (World.objects w !! r) as [a|] eqn:Ha; simplify_eq/=.
  destruct (Ant_update r a w (ant_env env r)) as [[a' w1]|] eqn:Hup; simplify_eq/=.
  pose proof (Ant_update_post _ _ _ _ _ _ Hup) as (Hstep & _).
  pose proof Hstep as [Hw Hh Hants Hpf Hph _ _ _ _].
  exists a, a', w1.
  destruct (Ant.alive a') eqn:Halive; simplify_eq/=.
  - by split_and!.
  - destruct (py_remove r (World.ants w1)) as [l|] eqn:Hrm; simplify_eq/=.
    rewrite Hants in Hrm. by split_and!.
Qed.

Lemma ant_turn_total env w r :
  world_ok w → r ∈ World.ants w → ∃ w', ant_turn env w r = Some w'.
Proof.
  intros Hok Hr. unfold ant_turn.
  destruct (ok_objects w Hok r Hr) as [a ->]. simpl.
  destruct (Ant_update_total r a w (ant_env env r) Hok) as [[a' w1] Hup].
  rewrite Hup. simpl.
  apply Ant_update_post in Hup as ([_ _ Hants _ _ _ _ _ _] & _).
  destruct (Ant.alive a'); simpl; [by eauto|].
  rewrite Hants. destruct (py_remove_total r (World.ants w) Hr) as [l ->].
  simpl. eauto.
Qed.

Lemma ant_turn_ants env w r w' r' :
  ant_turn env w r = Some w' → r' ∈ World.ants w' → r' ∈ World.ants w.
Proof.
  intros (a & a' & w1 & _ & _ & _ & _ & _ & _ & _ & _ & _ & _ & Hl)%ant_turn_inv.
  destruct (Ant.alive a'); [by rewrite Hl|]. by eapply py_remove_elem_of.
Qed.

(** The object of another ant after a turn: untouched, or helped. *)
Lemma ant_turn_other env w r w' r' :
  ant_turn env w r = Some w' → r' ≠ r →
  World.objects w' !! r' = World.objects w !! r'
  ∨ (r' ∈ World.ants w ∧
     ∃ o, World.objects w !! r' = Some o ∧ Ant.alive o = true ∧
          World.objects w' !! r' = Some (Ant.set_energy (Ant.energy o + Q2Qc 5)%Qc o)).
Proof.
  intros (a & a' & w1 & _ & _ & Hstep & Hobj & _)%ant_turn_inv Hne.
  rewrite Hobj, lookup_insert_ne by done.
  destruct (step_objects _ _ _ Hstep r') as [->|(_ & ? & o & ? & ? & ->)];
    [by left|right; eauto].
Qed.

Lemma ant_turn_world_ok env w r w' :
  world_ok w → ant_turn env w r = Some w' → world_ok w'.
Proof.
  intros Hok Hrun.
  pose proof (ant_turn_inv _ _ _ _ Hrun)
    as (a & a' & w1 & Ha & Hup & Hstep & Hobj & Hw & Hh & Hter & Hfood & Hpf & Hph & Hl).
  pose proof (ant_step_world_ok _ _ _ Hstep Hok) as Hok1.
  pose proof Hstep as [Hw1 Hh1 Hants1 _ _ _ _ _ _].
  assert (Hv : ∀ x y, is_valid_position w' x y = is_valid_position w1 x y).
  { intros. unfold is_valid_position. by rewrite Hw, Hh, Hw1, Hh1. }
  destruct Hok1 as [? ? ? ? Hobj1 Hnd1].
  split; unfold has_shape; try setoid_rewrite Hv.
  - by rewrite Hter.
  - by rewrite Hfood.
  - rewrite Hpf, <- (step_pheromone_food _ _ _ Hstep). done.
  - rewrite Hph, <- (step_pheromone_home _ _ _ Hstep). done.
  - intros r' Hr'. rewrite Hobj.
    destruct (decide (r' = r)) as [->|]; [by rewrite lookup_insert_eq|].
    rewrite lookup_insert_ne by done. apply Hobj1. rewrite Hants1.
    by eapply ant_turn_ants.
  - destruct (Ant.alive a'); [by rewrite Hl, <- Hants1|].
    eapply py_remove_NoDup; [done|]. by rewrite <- Hants1.
Qed.



Lemma ant_turn_stands_on_grid env w r w' r0 :
  stands_on_grid r0 w → ant_turn env w r = Some w' → stands_on_grid r0 w'.
Proof.
  intros (o & Ho & Hg) Hrun.
  pose proof (ant_turn_inv _ _ _ _ Hrun)
    as (a & a' & w1 & Ha & Hup & Hstep & Hobj & Hw & Hh & _).
  assert (Hv : ∀ o', on_grid w o' → on_grid w' o').
  { intros o'. unfold on_grid, is_valid_position. by rewrite Hw, Hh. }
  destruct (decide (r0 = r)) as [->|Hne].
  - simplify_eq. exists a'. rewrite Hobj, lookup_insert_eq. split; [done|].
    apply Ant_update_post in Hup as (_ & _ & Hgrid & _).
    specialize (Hgrid Hg). revert Hgrid.
    unfold on_grid, is_valid_position.
    by rewrite Hw, Hh, (step_width _ _ _ Hstep), (step_height _ _ _ Hstep).
  - unfold stands_on_grid.
    destruct (ant_turn_other _ _ _ _ r0 Hrun Hne) as [->|(_ & o' & ? & ? & ->)].
    + exists o. auto.
    + simplify_eq. eexists. split; [done|]. by apply Hv.
Qed.
End turn.

Section quiet.
Implicit Types (w : World.t) (r : ref).

Lemma quiet_step_refl w : quiet_step w w.
Proof. by split. Qed.

Lemma quiet_step_trans w1 w2 w3 :
  quiet_step w1 w2 → quiet_step w2 w3 → quiet_step w1 w3.
Proof. intros [] []. split; congruence. Qed.

Lemma quiet_valid w w' x y :
  quiet_step w w' → is_valid_position w' x y = is_valid_position w x y.
Proof. intros [Hw Hh _ _ _ _ _ _]. unfold is_valid_position. by rewrite Hw, Hh. Qed.

Lemma quiet_world_ok w w' : quiet_step w w' → world_ok w → world_ok w'.
Proof.
  intros Hq []. pose proof Hq as [_ _ Hants Hobj Hter Hfood Hpf Hph].
  split; unfold has_shape; try setoid_rewrite (quiet_valid _ _ _ _ Hq);
    try (by rewrite ?Hants, ?Hobj).
  all: intros x y ?; apply elem_of_dom.
  - rewrite Hter. apply elem_of_dom. auto.
  - rewrite Hfood. apply elem_of_dom. auto.
  - rewrite Hpf. apply elem_of_dom. auto.
  - rewrite Hph. apply elem_of_dom. auto.
Qed.



Lemma quiet_stands_on_grid w w' r :
  quiet_step w w' → stands_on_grid r w → stands_on_grid r w'.
Proof.
  intros Hq (o & Ho & Hg). exists o. unfold on_grid.
  rewrite (quiet_valid _ _ _ _ Hq), (quiet_objects _ _ Hq). auto.
Qed.

Lemma set_frame_count_quiet w n : quiet_step w (World.set_frame_count n w).
Proof. by split. Qed.

Lemma _spawn_food_quiet w env w' : _spawn_food w env = Some w' → quiet_step w w'.
Proof.
  unfold _spawn_food, np_get. intros Hrun.
  destruct (food_roll env) as [[[x y] amount]|]; simplify_eq; [|apply quiet_step_refl].
  destruct (is_valid_position w x y); simplify_eq; [|apply quiet_step_refl].
  destruct (World.terrain w !! (x, y)) as [c|]; simplify_eq/=.
  case_decide; simplify_eq; [|apply quiet_step_refl].
  destruct (World.food w !! (x, y)) as [f|] eqn:Hf; simplify_eq/=.
  case_decide; simplify_eq; [|apply quiet_step_refl].
  destruct (np_set _ _ _ _) as [g|] eqn:Hg; simplify_eq/=.
  split; simpl; eauto using np_set_dom.
Qed.

Lemma _spawn_food_total w env : world_ok w → ∃ w', _spawn_food w env = Some w'.
Proof.
  intros Hok. unfold _spawn_food, np_get, np_set.
  destruct (food_roll env) as [[[x y] amount]|]; [|by eauto].
  destruct (is_valid_position w x y) eqn:Hv; [|by eauto].
  destruct (ok_terrain w Hok x y Hv) as [c ->]. simpl.
  case_decide; [|by eauto].
  destruct (ok_food w Hok x y Hv) as [f Hf]. rewrite Hf. simpl.
  case_decide; [|by eauto]. rewrite ?Hf. simpl. eauto.
Qed.

Lemma decay_pheromones_quiet w : quiet_step w (decay_pheromones w).
Proof. split; simpl; try done; apply dom_fmap_L. Qed.

Lemma deposit_dom arr x y amount g : deposit arr x y amount = Some g → dom g = dom arr.
Proof.
  unfold deposit, np_get. intros H.
  destruct (arr !! (x, y)); simplify_eq/=. by eapply np_set_dom.
Qed.

Lemma drop_pheromone_quiet w r w' : drop_pheromone w r = Some w' → quiet_step w w'.
Proof.
  unfold drop_pheromone. intros Hrun.
  destruct (World.objects w !! r) as [o|]; simplify_eq/=.
  destruct (Ant.alive o); simplify_eq; [|apply quiet_step_refl].
  destruct (is_valid_position w _ _); simplify_eq; [|apply quiet_step_refl].
  repeat case_decide; simplify_eq; try apply quiet_step_refl.
  - destruct (deposit _ _ _ _) as [g|] eqn:Hg; simplify_eq/=.
    split; simpl; eauto using deposit_dom.
  - destruct (deposit _ _ _ _) as [g|] eqn:Hg; simplify_eq/=.
    split; simpl; eauto using deposit_dom.
Qed.

Lemma drop_pheromone_total w r :
  world_ok w → r ∈ World.ants w → ∃ w', drop_pheromone w r = Some w'.
Proof.
  intros Hok Hr. unfold drop_pheromone, deposit, np_get, np_set.
  destruct (ok_objects w Hok r Hr) as [o ->]. simpl.
  destruct (Ant.alive o); [|by eauto].
  destruct (is_valid_position w _ _) eqn:Hv; [|by eauto].
  repeat case_decide; eauto.
  - destruct (ok_pheromone_home w Hok _ _ Hv) as [c Hc]. rewrite Hc. simpl.
    rewrite ?Hc. simpl. eauto.
  - destruct (ok_pheromone_food w Hok _ _ Hv) as [c Hc]. rewrite Hc. simpl.
    rewrite ?Hc. simpl. eauto.
Qed.

Lemma _update_pheromones_quiet w w' :
  _update_pheromones w = Some w' → quiet_step w w'.
Proof.
  unfold _update_pheromones.
  apply (for_each_inv (quiet_step w)); [|apply decay_pheromones_quiet].
  intros s r s' _ Hq Hbody. eapply quiet_step_trans; [done|].
  by eapply drop_pheromone_quiet.
Qed.

Lemma _update_pheromones_total w :
  world_ok w → ∃ w', _update_pheromones w = Some w'.
Proof.
  intros Hok. unfold _update_pheromones.
  destruct (for_each_total (λ s, quiet_step w s) drop_pheromone (World.ants w)
              (decay_pheromones w)) as (w' & ? & _);
    [|apply decay_pheromones_quiet|by eauto].
  intros s r Hr Hq.
  destruct (drop_pheromone_total s r) as [s' Hs'];
    [by eapply quiet_world_ok|by rewrite (quiet_ants _ _ Hq)|].
  exists s'. split; [done|]. eapply quiet_step_trans; [done|].
  by eapply drop_pheromone_quiet.
Qed.
End quiet.

Section growth.
Implicit Types (w : World.t) (r : ref) (env : TickEnv).

(** The cells collected by the scan of [_spawn_new_ant] lie on the grid. *)
Lemma tunnel_scan_on_grid w locs :
  for_each (λ acc x,
    for_each (λ acc y,
      c ← np_get (World.terrain w) x y;
      if decide (c = Tunnel) then Some (acc ++ [(x, y)]) else Some acc)
      acc (py_range 0 (World.height w)))
    [] (py_range 0 (World.width w)) = Some locs →
  ∀ p, p ∈ locs → is_valid_position w p.1 p.2 = true.
Proof.
  set (P := λ acc : list (Z * Z),
              ∀ p, p ∈ acc → is_valid_position w p.1 p.2 = true).
  apply (for_each_inv P).
  - intros acc x acc' Hx%elem_of_py_range Hacc.
    apply (for_each_inv P); [|done].
    intros acc0 y acc1 Hy%elem_of_py_range Hacc0 Hbody.
    destruct (np_get _ _ _); simplify_eq/=.
    case_decide; simplify_eq; [|done].
    intros p [?| ->%list_elem_of_singleton]%elem_of_app; [by auto|].
    apply is_valid_position_spec. simpl. lia.
  - by intros p ?%elem_of_nil.
Qed.

Lemma tunnel_scan_total w :
  world_ok w →
  ∃ locs, for_each (λ acc x,
    for_each (λ acc y,
      c ← np_get (World.terrain w) x y;
      if decide (c = Tunnel) then Some (acc ++ [(x, y)]) else Some acc)
      acc (py_range 0 (World.height w)))
    [] (py_range 0 (World.width w)) = Some locs.
Proof.
  intros Hok. apply for_each_succeeds. intros acc x Hx%elem_of_py_range.
  apply for_each_succeeds. intros acc' y Hy%elem_of_py_range.
  destruct (ok_terrain w Hok x y) as [c Hc].
  { apply is_valid_position_spec. lia. }
  unfold np_get. rewrite Hc. simpl. case_decide; eauto.
Qed.

(** A spawn either does nothing or stores a new ant, standing on the grid,
    under a reference that was not in use, at the end of the list. *)
Lemma _spawn_new_ant_inv w env w' :
  _spawn_new_ant w env = Some w' →
  w' = w ∨
  ∃ x y, is_valid_position w x y = true ∧
    w' = World.set_ants (World.ants w ++ [fresh (dom (World.objects w))])
           (World.set_objects
              (<[fresh (dom (World.objects w)) :=
                   Ant.__init__ x y (Z.of_nat (length (World.ants w)))]>
                 (World.objects w)) w).
Proof.
  unfold _spawn_new_ant. intros Hrun.
  destruct (for_each _ _ _) as [locs|] eqn:Hscan; simplify_eq/=.
  pose proof (tunnel_scan_on_grid _ _ Hscan) as Hgrid.
  destruct locs as [|p0 locs]; simplify_eq; [by left|].
  destruct (_ !! _) as [[x y]|] eqn:Hp; simplify_eq/=.
  right. exists x, y. split; [|done].
  apply (Hgrid (x, y)). by eapply list_elem_of_lookup_2.
Qed.

Lemma _spawn_new_ant_total w env :
  world_ok w → ∃ w', _spawn_new_ant w env = Some w'.
Proof.
  intros Hok. unfold _spawn_new_ant.
  destruct (tunnel_scan_total w Hok) as [locs ->]. simpl.
  destruct locs as [|p0 locs]; [by eauto|].
  destruct (lookup_lt_is_Some_2 (p0 :: locs)
              (spawn_choice env `mod` length (p0 :: locs))%nat) as [p ->].
  { apply Nat.mod_upper_bound. simpl. lia. }
  simpl. eauto.
Qed.

Lemma _check_colony_growth_inv w env w' :
  _check_colony_growth w env = Some w' →
  w' = w ∨
  ∃ x y, is_valid_position w x y = true ∧
    w' = World.set_ants (World.ants w ++ [fresh (dom (World.objects w))])
           (World.set_objects
              (<[fresh (dom (World.objects w)) :=
                   Ant.__init__ x y (Z.of_nat (length (World.ants w)))]>
                 (World.objects w)) w).
Proof.
  unfold _check_colony_growth.
  case_match; intros; simplify_eq; eauto using _spawn_new_ant_inv.
Qed.

Lemma _check_colony_growth_total w env :
  world_ok w → ∃ w', _check_colony_growth w env = Some w'.
Proof.
  intros Hok. unfold _check_colony_growth.
  case_match; eauto using _spawn_new_ant_total.
Qed.

Lemma fresh_ref_unlisted w :
  world_ok w → fresh (dom (World.objects w)) ∉ World.ants w.
Proof.
  intros Hok Hin. apply (is_fresh (dom (World.objects w))).
  apply elem_of_dom. by apply Hok.
Qed.

Lemma _check_colony_growth_world_ok w env w' :
  world_ok w → _check_colony_growth w env = Some w' → world_ok w'.
Proof.
  intros Hok Hrun.
  apply _check_colony_growth_inv in Hrun as [->|(x & y & Hv & ->)]; [done|].
  pose proof Hok as [? ? ? ? Hobj Hnd].
  split; try done; simpl.
  - intros r [Hr| ->%list_elem_of_singleton]%elem_of_app.
    + destruct (decide (r = fresh (dom (World.objects w)))) as [->|];
        [by rewrite lookup_insert_eq|].
      rewrite lookup_insert_ne by done. auto.
    + by rewrite lookup_insert_eq.
  - apply list.NoDup_app. split_and!; [done| |apply NoDup_singleton].
    intros r Hr ->%list_elem_of_singleton.
    by apply (fresh_ref_unlisted w).
Qed.



Lemma _check_colony_growth_stands_on_grid w env w' r :
  stands_on_grid r w → _check_colony_growth w env = Some w' → stands_on_grid r w'.
Proof.
  intros (o & Ho & Hg) Hrun.
  apply _check_colony_growth_inv in Hrun as [->|(x & y & Hv & ->)];
    [by exists o|].
  exists o. split; [|done]. simpl. rewrite lookup_insert_ne; [done|].
  intros <-. apply (is_fresh (dom (World.objects w))). by eapply elem_of_dom_2.
Qed.

(** An ant added by a spawn stands on the grid. *)
Lemma _spawn_new_ant_on_grid w env w' r :
  _spawn_new_ant w env = Some w' → r ∈ World.ants w' → r ∉ World.ants w →
  stands_on_grid r w'.
Proof.
  intros Hrun.
  apply _spawn_new_ant_inv in Hrun as [->|(x & y & Hv & ->)]; [done|]. simpl.
  intros [?| ->%list_elem_of_singleton]%elem_of_app ?; [done|].
  eexists. simpl. rewrite lookup_insert_eq. split; [done|]. exact Hv.
Qed.
End growth.

Section frames.
Implicit Types (w : World.t) (r : ref) (env : TickEnv).

Lemma ant_turn_keeps_listed env w r w' r' :
  ant_turn env w r = Some w' → r' ∈ World.ants w → r' ≠ r → r' ∈ World.ants w'.
Proof.
  intros (a & a' & w1 & _ & _ & _ & _ & _ & _ & _ & _ & _ & _ & Hl)%ant_turn_inv ??.
  destruct (Ant.alive a'); [by rewrite Hl|]. by eapply py_remove_other.
Qed.

(** The loop over the copy of [world.ants] runs to its end. *)
Lemma turns_total env l w :
  world_ok w → NoDup l → (∀ r, r ∈ l → r ∈ World.ants w) →
  ∃ w', for_each (ant_turn env) w l = Some w'.
Proof.
  revert w. induction l as [|r l IH]; intros w Hok Hnd Hl; simpl; [by eauto|].
  apply list.NoDup_cons in Hnd as [Hr Hnd].
  destruct (ant_turn_total env w r Hok) as [w1 Hw1]; [apply Hl; by left|].
  rewrite Hw1. simpl. apply IH; [by eapply ant_turn_world_ok|done|].
  intros r' Hr'. eapply ant_turn_keeps_listed; [done|apply Hl; by right|].
  by intros ->.
Qed.

(** A property kept by every step of the frame update is kept by it. *)
Lemma World_update_preserves (P : World.t → Prop) :
  (∀ env w r w', P w → ant_turn env w r = Some w' → P w') →
  (∀ w w', P w → quiet_step w w' → P w') →
  (∀ env w w', P w → _check_colony_growth w env = Some w' → P w') →
  ∀ w env w', P w → World_update w env = Some w' → P w'.
Proof.
  intros Hturn Hquiet Hgrow w env w' HP. unfold World_update. intros Hrun.
  destruct (for_each (ant_turn env) _ _) as [w1|] eqn:H1; simplify_eq/=.
  destruct (_spawn_food w1 env) as [w2|] eqn:H2; simplify_eq/=.
  destruct (_update_pheromones w2) as [w3|] eqn:H3; simplify_eq/=.
  eapply Hgrow; [|done].
  eapply Hquiet; [|by eapply _update_pheromones_quiet].
  eapply Hquiet; [|by eapply _spawn_food_quiet].
  revert H1. apply (for_each_inv P); [by eauto|].
  eapply Hquiet; [done|apply set_frame_count_quiet].
Qed.

Lemma run_preserves (P : World.t → Prop) :
  (∀ w env w', P w → World_update w env = Some w' → P w') →
  ∀ w envs w', P w → run w envs = Some w' → P w'.
Proof.
  intros Hstep w envs w' HP. unfold run. apply (for_each_inv P); [|done].
  intros s env s' _. apply Hstep.
Qed.

Lemma World_update_world_ok w env w' :
  world_ok w → World_update w env = Some w' → world_ok w'.
Proof.
  apply (World_update_preserves world_ok);
    eauto using ant_turn_world_ok, quiet_world_ok, _check_colony_growth_world_ok.
Qed.

(** A frame update of a well-formed world returns. *)
Lemma World_update_total w env : world_ok w → ∃ w', World_update w env = Some w'.
Proof.
  intros Hok. unfold World_update.
  set (w0 := World.set_frame_count _ w).
  assert (world_ok w0) as Hok0.
  { eapply quiet_world_ok; [apply set_frame_count_quiet|done]. }
  destruct (turns_total env (World.ants w0) w0) as [w1 H1];
    [done|apply Hok0|done|].
  rewrite H1. simpl.
  assert (world_ok w1) as Hok1.
  { revert H1. apply (for_each_inv world_ok); [|done].
    intros s r s' _. apply ant_turn_world_ok. }
  destruct (_spawn_food_total w1 env Hok1) as [w2 H2]. rewrite H2. simpl.
  assert (world_ok w2) as Hok2.
  { eapply quiet_world_ok; [by eapply _spawn_food_quiet|done]. }
  destruct (_update_pheromones_total w2 Hok2) as [w3 H3]. rewrite H3. simpl.
  apply _check_colony_growth_total.
  eapply quiet_world_ok; [by eapply _update_pheromones_quiet|done].
Qed.

Lemma run_world_ok w envs w' : world_ok w → run w envs = Some w' → world_ok w'.
Proof. apply run_preserves, World_update_world_ok. Qed.

(** Any number of frames of a well-formed world run to their end. *)
Lemma run_total w envs : world_ok w → ∃ w', run w envs = Some w'.
Proof.
  intros Hok. unfold run.
  destruct (for_each_total world_ok World_update envs w) as (w' & ? & _); eauto.
  intros s env _ Hs. destruct (World_update_total s env Hs) as [s' Hs'].
  eauto using World_update_world_ok.
Qed.



Lemma World_update_stands_on_grid w env w' r :
  stands_on_grid r w → World_update w env = Some w' → stands_on_grid r w'.
Proof.
  apply (World_update_preserves (stands_on_grid r));
    eauto using ant_turn_stands_on_grid, quiet_stands_on_grid,
      _check_colony_growth_stands_on_grid.
Qed.
End frames.

(** ** The small world *)

Section demo.
Lemma grid_lookup {A} W H (f : Z → Z → A) x y :
  0 ≤ x < W → 0 ≤ y < H → grid W H f !! (x, y) = Some (f x y).
Proof.
  intros Hx Hy. unfold grid. apply elem_of_list_to_map_1'.
  - intros v (x' & (y' & Hin%list_elem_of_singleton & _)%list_elem_of_bind & _)%list_elem_of_bind.
    by simplify_eq.
  - apply list_elem_of_bind. exists x. split; [|by apply elem_of_py_range].
    apply list_elem_of_bind. exists y. split; [|by apply elem_of_py_range].
    by apply list_elem_of_singleton.
Qed.

Lemma demo_world_ok fd objs : world_ok (demo_world fd objs).
Proof.
  split; unfold has_shape; simpl.
  1-4: intros x y [??]%is_valid_position_spec; rewrite grid_lookup; eauto.
  - intros r Hr%elem_of_seq.
    destruct (lookup_lt_is_Some_2 objs r) as [o Ho]; [lia|].
    exists o. apply elem_of_list_to_map_1.
    + rewrite fst_zip by (rewrite length_seq; lia). apply NoDup_seq.
    + apply list_elem_of_lookup. exists r. rewrite lookup_zip_with.
      rewrite lookup_seq_lt by lia. simpl. by rewrite Ho.
  - apply NoDup_seq.
Qed.
End demo.

(** ** Food *)

Section food.
Implicit Types (a : Ant.t) (w : World.t).


End food.

(** ** Scent fields *)

Section pheromones.
Implicit Types (w : World.t) (k : Z * Z) (v : Qc).

Lemma f32_rate :
  f32 config.PHEROMONE_DECAY_RATE = Q2Qc (8346665 # 8388608).
Proof. qc_eval. Qed.

Lemma pow2_7 : pow2 (6 + 1) = Q2Qc 128.
Proof. qc_eval. Qed.

Lemma pow2_m18 : pow2 (6 - 24) = Q2Qc (1 # 262144).
Proof. qc_eval. Qed.

Lemma f32_in_range v :
  (Q2Qc 0 ≤ v)%Qc → (v ≤ config.MAX_PHEROMONE_STRENGTH)%Qc →
  (Q2Qc 0 ≤ f32 v)%Qc ∧ (f32 v ≤ config.MAX_PHEROMONE_STRENGTH)%Qc.
Proof.
  unfold config.MAX_PHEROMONE_STRENGTH. intros H0 H100.
  split; [by apply f32_nonneg|].
  apply (f32_le v 100 6); [lia|done|done|]. rewrite pow2_7. by vm_compute.
Qed.

Lemma in_range_decay v :
  (Q2Qc 0 ≤ v)%Qc ∧ (v ≤ config.MAX_PHEROMONE_STRENGTH)%Qc →
  (Q2Qc 0 ≤ decay_cell v)%Qc ∧ (decay_cell v ≤ config.MAX_PHEROMONE_STRENGTH)%Qc.
Proof.
  intros [H0 H100]. unfold decay_cell. rewrite f32_rate.
  unfold config.MAX_PHEROMONE_STRENGTH in *. apply f32_in_range;
    unfold config.MAX_PHEROMONE_STRENGTH; qc_lra.
Qed.

(** One decay step is within 2^-17 of the exact product. *)
Lemma decay_cell_error v :
  (Q2Qc 0 ≤ v)%Qc → (v ≤ config.MAX_PHEROMONE_STRENGTH)%Qc →
  (v * config.PHEROMONE_DECAY_RATE - Q2Qc (1 # 131072) ≤ decay_cell v)%Qc
  ∧ (decay_cell v ≤ v * config.PHEROMONE_DECAY_RATE + Q2Qc (1 # 131072))%Qc.
Proof.
  unfold config.MAX_PHEROMONE_STRENGTH, decay_cell.
  intros H0 H100. rewrite f32_rate.
  destruct (f32_error (v * Q2Qc (8346665 # 8388608)) 6) as [Hlo Hhi];
    [lia|qc_lra|rewrite pow2_7; qc_lra|].
  rewrite pow2_m18 in Hlo, Hhi. unfold config.PHEROMONE_DECAY_RATE.
  split; qc_lra.
Qed.

Lemma iter_decay_in_range n v :
  (Q2Qc 0 ≤ v)%Qc ∧ (v ≤ config.MAX_PHEROMONE_STRENGTH)%Qc →
  (Q2Qc 0 ≤ Nat.iter n decay_cell v)%Qc
  ∧ (Nat.iter n decay_cell v ≤ config.MAX_PHEROMONE_STRENGTH)%Qc.
Proof. intros Hv. induction n as [|n IH]; simpl; [done|by apply in_range_decay]. Qed.

(** [n] decay steps are within n × 2^-17 of the exact product by rate^n. *)
Lemma iter_decay_error n v :
  (Q2Qc 0 ≤ v)%Qc → (v ≤ config.MAX_PHEROMONE_STRENGTH)%Qc →
  (v * config.PHEROMONE_DECAY_RATE ^ n - Q2Qc (inject_Z (Z.of_nat n)) * Q2Qc (1 # 131072)
     ≤ Nat.iter n decay_cell v)%Qc
  ∧ (Nat.iter n decay_cell v
     ≤ v * config.PHEROMONE_DECAY_RATE ^ n
       + Q2Qc (inject_Z (Z.of_nat n)) * Q2Qc (1 # 131072))%Qc.
Proof.
  intros H0 H100. induction n as [|n [IHlo IHhi]].
  - simpl. rewrite Qcmult_1_r, Qcmult_0_l. split; qc_lra.
  - destruct (iter_decay_in_range n v) as [Hn0 Hn100]; [done|].
    destruct (decay_cell_error (Nat.iter n decay_cell v) Hn0 Hn100) as [Hlo Hhi].
    change (Nat.iter (S n) decay_cell v) with (decay_cell (Nat.iter n decay_cell v)).
    assert (v * config.PHEROMONE_DECAY_RATE ^ S n
            = v * config.PHEROMONE_DECAY_RATE ^ n * config.PHEROMONE_DECAY_RATE)%Qc
      as -> by (simpl; ring).
    assert (Q2Qc (inject_Z (Z.of_nat (S n)))
            = Q2Qc (inject_Z (Z.of_nat n)) + Q2Qc 1)%Qc as ->.
    { apply Qc_is_canon. rewrite Qc_plus_Q, !Q2Qc_this, Nat2Z.inj_succ.
      unfold Z.succ. rewrite inject_Z_plus. reflexivity. }
    assert (Q2Qc 0 ≤ Q2Qc (inject_Z (Z.of_nat n)))%Qc as Hn by (apply inject_nonneg; lia).
    set (t := (v * config.PHEROMONE_DECAY_RATE ^ n)%Qc) in *.
    set (x := Nat.iter n decay_cell v) in *.
    set (m := Q2Qc (inject_Z (Z.of_nat n))) in *.
    unfold config.PHEROMONE_DECAY_RATE in *.
    rewrite !Qcmult_plus_distr_l.
    split; qc_lra.
Qed.

Lemma in_range_deposit v amount :
  (Q2Qc 0 ≤ v)%Qc → (Q2Qc 0 ≤ amount)%Qc →
  (Q2Qc 0 ≤ deposit_cell amount v)%Qc
  ∧ (deposit_cell amount v ≤ config.MAX_PHEROMONE_STRENGTH)%Qc.
Proof.
  intros ??. unfold deposit_cell.
  destruct (py_min_spec config.MAX_PHEROMONE_STRENGTH (v + amount)%Qc)
    as (H100 & _ & [Heq|Heq]).
  - rewrite Heq. apply f32_in_range; unfold config.MAX_PHEROMONE_STRENGTH; qc_lra.
  - apply f32_in_range; [rewrite Heq; qc_lra|done].
Qed.

Lemma deposit_spec (arr : gmap (Z * Z) Qc) x y v amount :
  arr !! (x, y) = Some v →
  deposit arr x y amount = Some (<[(x, y) := deposit_cell amount v]> arr).
Proof. unfold deposit, np_get, np_set. intros ->. simpl. by intros. Qed.
End pheromones.

Section scent_update.
Implicit Types (w : World.t) (k : Z * Z) (v : Qc).

Lemma decay_pheromones_iter w n :
  World.pheromone_food (Nat.iter n decay_pheromones w)
    = Nat.iter n decay_cell <$> World.pheromone_food w
  ∧ World.pheromone_home (Nat.iter n decay_pheromones w)
    = Nat.iter n decay_cell <$> World.pheromone_home w.
Proof.
  induction n as [|n [IHf IHh]]; simpl.
  - by rewrite !map_fmap_id.
  - rewrite IHf, IHh. by rewrite <- !map_fmap_compose.
Qed.

Lemma decay_pheromones_in_range w :
  pheromones_in_range w → pheromones_in_range (decay_pheromones w).
Proof.
  intros Hr k v. simpl. rewrite !lookup_fmap.
  intros [Hk|Hk]; apply fmap_Some in Hk as (v0 & Hv0 & ->);
    apply in_range_decay; eauto.
Qed.

(** What one ant of the loop does to a cell of the two fields. *)
Lemma drop_pheromone_cells w r w' k :
  drop_pheromone w r = Some w' →
  World.objects w' = World.objects w
  ∧ World.width w' = World.width w ∧ World.height w' = World.height w
  ∧ World.pheromone_home w' !! k
    = (if drops_home w k r then deposit_cell (Q2Qc 10) else id)
      <$> World.pheromone_home w !! k
  ∧ World.pheromone_food w' !! k
    = (if drops_food w k r then deposit_cell (Q2Qc 5) else id)
      <$> World.pheromone_food w !! k.
Proof.
  unfold drop_pheromone, drops_home, drops_food. intros Hrun.
  assert (∀ arr : gmap (Z * Z) Qc, arr !! k = id <$> arr !! k) as Hid.
  { intros arr. by destruct (arr !! k). }
  destruct (World.objects w !! r) as [o|]; simplify_eq/=.
  destruct (Ant.alive o); simplify_eq/=; [|by split_and!].
  destruct (is_valid_position w _ _); simplify_eq/=; [|by split_and!].
  case_decide as Hcarry.
  - rewrite (bool_decide_eq_true_2 _ Hcarry). simpl. rewrite andb_false_r, andb_true_r.
    unfold deposit, np_get in Hrun.
    destruct (World.pheromone_home w !! (Ant.x o, Ant.y o)) as [c|] eqn:Hc;
      simplify_eq/=.
    destruct (np_set _ _ _ _) as [g|] eqn:Hg; simplify_eq/=.
    apply np_set_spec in Hg as ->. split_and!; try done.
    case_bool_decide as Hk.
    + subst k. by rewrite lookup_insert_eq, Hc.
    + by rewrite lookup_insert_ne.
  - rewrite (bool_decide_eq_false_2 _ Hcarry). simpl. rewrite andb_false_r, andb_true_r.
    case_decide as Htask.
    + rewrite (bool_decide_eq_true_2 _ Htask), andb_true_r.
      unfold deposit, np_get in Hrun.
      destruct (World.pheromone_food w !! (Ant.x o, Ant.y o)) as [c|] eqn:Hc;
        simplify_eq/=.
      destruct (np_set _ _ _ _) as [g|] eqn:Hg; simplify_eq/=.
      apply np_set_spec in Hg as ->. split_and!; try done.
      case_bool_decide as Hk.
      * subst k. by rewrite lookup_insert_eq, Hc.
      * by rewrite lookup_insert_ne.
    + rewrite (bool_decide_eq_false_2 _ Htask), andb_false_r. simplify_eq.
      by split_and!.
Qed.

Lemma count_ants_ext (p p' : ref → bool) l :
  (∀ r, p r = p' r) → count_ants p l = count_ants p' l.
Proof. intros Hp. induction l as [|r l IH]; simpl; [done|]. by rewrite Hp, IH. Qed.

Lemma iter_shift {A} (f : A → A) n x : Nat.iter n f (f x) = f (Nat.iter n f x).
Proof. induction n as [|n IH]; simpl; [done|]. by rewrite IH. Qed.

(** The loop applies one clamped addition per dropping ant. *)
Lemma drop_loop_cells l s s' k :
  for_each drop_pheromone s l = Some s' →
  World.pheromone_home s' !! k
    = Nat.iter (count_ants (drops_home s k) l) (deposit_cell (Q2Qc 10))
      <$> World.pheromone_home s !! k
  ∧ World.pheromone_food s' !! k
    = Nat.iter (count_ants (drops_food s k) l) (deposit_cell (Q2Qc 5))
      <$> World.pheromone_food s !! k.
Proof.
  revert s. induction l as [|r l IH]; intros s Hrun; simplify_eq/=.
  - by rewrite !option_fmap_id.
  - destruct (drop_pheromone s r) as [s1|] eqn:Hr; simplify_eq/=.
    apply (drop_pheromone_cells _ _ _ k) in Hr as (Hobj & Hw & Hh & Hhome & Hfood).
    destruct (IH s1 Hrun) as [-> ->]. rewrite Hhome, Hfood.
    rewrite (count_ants_ext (drops_home s1 k) (drops_home s k)),
            (count_ants_ext (drops_food s1 k) (drops_food s k)).
    + rewrite <- !option_fmap_compose. split.
      * destruct (drops_home s k r); simpl; [|done].
        apply option_fmap_ext. intros v. simpl. apply iter_shift.
      * destruct (drops_food s k r); simpl; [|done].
        apply option_fmap_ext. intros v. simpl. apply iter_shift.
    + intros r'. unfold drops_food, is_valid_position. by rewrite Hobj, Hw, Hh.
    + intros r'. unfold drops_home, is_valid_position. by rewrite Hobj, Hw, Hh.
Qed.

(** [_update_pheromones], cell by cell: the decay, then one clamped
    addition of 10 to the home field for every living ant of the list that
    stands on the cell and carries food, and of 5 to the food field for
    every one that carries none and has the task [move_to_food]. *)
Lemma _update_pheromones_cells w w' k :
  _update_pheromones w = Some w' →
  World.pheromone_home w' !! k
    = (λ v, Nat.iter (count_ants (drops_home w k) (World.ants w))
              (deposit_cell (Q2Qc 10)) (decay_cell v))
      <$> World.pheromone_home w !! k
  ∧ World.pheromone_food w' !! k
    = (λ v, Nat.iter (count_ants (drops_food w k) (World.ants w))
              (deposit_cell (Q2Qc 5)) (decay_cell v))
      <$> World.pheromone_food w !! k.
Proof.
  unfold _update_pheromones. intros Hrun.
  apply (drop_loop_cells _ _ _ k) in Hrun as [-> ->]. simpl.
  rewrite !lookup_fmap, <- !option_fmap_compose. done.
Qed.

Lemma drop_pheromone_in_range w r w' :
  pheromones_in_range w → drop_pheromone w r = Some w' → pheromones_in_range w'.
Proof.
  intros Hr Hrun k v.
  destruct (drop_pheromone_cells _ _ _ k Hrun) as (_ & _ & _ & Hhome & Hfood).
  rewrite Hhome, Hfood.
  intros [Hk|Hk]; apply fmap_Some in Hk as (v0 & Hv0 & ->).
  - destruct (drops_food w k r); [|by eapply Hr; eauto].
    apply in_range_deposit; [by eapply Hr; eauto|by vm_compute].
  - destruct (drops_home w k r); [|by eapply Hr; eauto].
    apply in_range_deposit; [by eapply Hr; eauto|by vm_compute].
Qed.

Lemma _update_pheromones_in_range w w' :
  pheromones_in_range w → _update_pheromones w = Some w' → pheromones_in_range w'.
Proof.
  intros Hr. unfold _update_pheromones.
  apply (for_each_inv pheromones_in_range); [|by apply decay_pheromones_in_range].
  intros s r s' _. apply drop_pheromone_in_range.
Qed.

Lemma count_ants_none (p : ref → bool) l :
  (∀ r, r ∈ l → p r = false) → count_ants p l = 0%nat.
Proof.
  induction l as [|r l IH]; intros Hp; simpl; [done|].
  rewrite Hp by (by left). rewrite IH; [done|]. intros r' Hr'. apply Hp. by right.
Qed.

(** On a cell where no ant of the list stands, a frame only decays. *)
Lemma _update_pheromones_free_cell w w' k :
  _update_pheromones w = Some w' →
  (∀ r o, r ∈ World.ants w → World.objects w !! r = Some o → (Ant.x o, Ant.y o) ≠ k) →
  World.pheromone_food w' !! k = decay_cell <$> World.pheromone_food w !! k
  ∧ World.pheromone_home w' !! k = decay_cell <$> World.pheromone_home w !! k.
Proof.
  intros Hrun Hfree.
  destruct (_update_pheromones_cells _ _ k Hrun) as [-> ->].
  rewrite !count_ants_none; [done|..].
  - intros r Hr. unfold drops_home.
    destruct (World.objects w !! r) as [o|] eqn:Ho; [|done].
    rewrite (bool_decide_eq_false_2 _ (Hfree r o Hr Ho)).
    by rewrite andb_false_r.
  - intros r Hr. unfold drops_food.
    destruct (World.objects w !! r) as [o|] eqn:Ho; [|done].
    rewrite (bool_decide_eq_false_2 _ (Hfree r o Hr Ho)).
    by rewrite !andb_false_r.
Qed.
End scent_update.

Section grid_lookups.
Lemma grid_lookup_Some {A} W H (f : Z → Z → A) x y v :
  grid W H f !! (x, y) = Some v → v = f x y.
Proof.
  unfold grid. intros Hin%elem_of_list_to_map_2.
  apply list_elem_of_bind in Hin as (x' & Hin & _).
  apply list_elem_of_bind in Hin as (y' & Hin%list_elem_of_singleton & _).
  by simplify_eq.
Qed.
End grid_lookups.

Section scent_frames.
Implicit Types (w : World.t) (k : Z * Z) (v : Qc).

Lemma World_update_in_range w env w' :
  pheromones_in_range w → World_update w env = Some w' → pheromones_in_range w'.
Proof.
  set (same := λ w1 w2 : World.t,
    World.pheromone_food w2 = World.pheromone_food w1
    ∧ World.pheromone_home w2 = World.pheromone_home w1).
  assert (Hsame : ∀ w1 w2, same w1 w2 → pheromones_in_range w1 → pheromones_in_range w2).
  { intros w1 w2 [Hf Hh]. unfold pheromones_in_range. by rewrite Hf, Hh. }
  intros Hr. unfold World_update. intros Hrun.
  destruct (for_each (ant_turn env) _ _) as [w1|] eqn:H1; simplify_eq/=.
  destruct (_spawn_food w1 env) as [w2|] eqn:H2; simplify_eq/=.
  destruct (_update_pheromones w2) as [w3|] eqn:H3; simplify_eq/=.
  assert (pheromones_in_range w1) as Hr1.
  { revert H1. apply (for_each_inv pheromones_in_range); [|done].
    intros s r s' _ Hs Hturn. apply (Hsame s); [|done].
    apply ant_turn_inv in Hturn
      as (a & a' & w0 & _ & _ & _ & _ & _ & _ & _ & _ & ? & ? & _).
    by split. }
  assert (pheromones_in_range w2) as Hr2.
  { apply (Hsame w1); [|done]. revert H2. unfold _spawn_food.
    intros H2. repeat case_match; simplify_option_eq; by split. }
  apply _update_pheromones_in_range in H3; [|done].
  apply (Hsame w3); [|done].
  apply _check_colony_growth_inv in Hrun as [->|(x & y & _ & ->)]; by split.
Qed.

(** A deposit is the clamped sum up to the rounding of the store. *)
Lemma deposit_cell_error v amount :
  (Q2Qc 0 ≤ v)%Qc → (Q2Qc 0 ≤ amount)%Qc →
  (py_min config.MAX_PHEROMONE_STRENGTH (v + amount) - Q2Qc (1 # 262144)
     ≤ deposit_cell amount v)%Qc
  ∧ (deposit_cell amount v
     ≤ py_min config.MAX_PHEROMONE_STRENGTH (v + amount) + Q2Qc (1 # 262144))%Qc.
Proof.
  intros Hv Ha. unfold deposit_cell.
  destruct (py_min_spec config.MAX_PHEROMONE_STRENGTH (v + amount)%Qc)
    as (H100 & _ & Hmin).
  set (m := py_min config.MAX_PHEROMONE_STRENGTH (v + amount)%Qc) in *.
  assert (Q2Qc 0 ≤ m)%Qc as H0.
  { destruct Hmin as [->| ->]; unfold config.MAX_PHEROMONE_STRENGTH; qc_lra. }
  unfold config.MAX_PHEROMONE_STRENGTH in H100.
  destruct (f32_error m 6) as [Hlo Hhi]; [lia|done|rewrite pow2_7; qc_lra|].
  by rewrite pow2_m18 in Hlo, Hhi.
Qed.

(** C7, as stated, fails: the scent fields are float32 arrays, and one decay
    step of a cell holding 95 leaves 94.52500152587890625, not 95 × 0.995. *)
Lemma decay_step_is_not_exact :
  let w := World.set_pheromone_home (grid 3 3 (λ _ _, Q2Qc 95))
             (demo_world (λ _ _, Q2Qc 0) []) in
  pheromones_in_range w
  ∧ World.pheromone_home (Nat.iter 1 decay_pheromones w) !! (0, 0)
    = Some (Q2Qc (12389581 # 131072))
  ∧ Q2Qc (12389581 # 131072) ≠ (Q2Qc 95 * config.PHEROMONE_DECAY_RATE ^ 1)%Qc.
Proof.
  intros w. split_and!.
  - intros [x y] v. simpl.
    intros [->%grid_lookup_Some| ->%grid_lookup_Some]; by vm_compute.
  - simpl. rewrite lookup_fmap, grid_lookup by lia. simpl. apply (f_equal Some). qc_eval.
  - intros Heq. apply Qc_eq_Q in Heq. vm_compute in Heq. discriminate.
Qed.

(** C7, amended: a decay step multiplies every cell by the rate in the
    float32 arithmetic of the arrays, so [n] steps leave the [n]-fold
    rounded product, which is within n × 2^-17 of the initial value ×
    rate^n and inside the range; [_update_pheromones] decays every cell and
    then adds, once for every living ant of the list on the cell, 10 to the
    home field when the ant carries food and else 5 to the food field when
    its task is move_to_food; each addition is the sum clamped to the
    ceiling, up to the rounding of the store (95 and 10 give 100, not 105);
    and no cell of a field that starts between 0 and the ceiling ever
    leaves that range. *)
Theorem pheromones_decay_and_stay_in_range :
  (∀ w n k,
     World.pheromone_food (Nat.iter n decay_pheromones w) !! k
       = Nat.iter n decay_cell <$> World.pheromone_food w !! k
     ∧ World.pheromone_home (Nat.iter n decay_pheromones w) !! k
       = Nat.iter n decay_cell <$> World.pheromone_home w !! k)
  ∧ (∀ n v,
     (Q2Qc 0 ≤ v)%Qc → (v ≤ config.MAX_PHEROMONE_STRENGTH)%Qc →
     (v * config.PHEROMONE_DECAY_RATE ^ n
        - Q2Qc (inject_Z (Z.of_nat n)) * Q2Qc (1 # 131072)
      ≤ Nat.iter n decay_cell v)%Qc
     ∧ (Nat.iter n decay_cell v
        ≤ v * config.PHEROMONE_DECAY_RATE ^ n
          + Q2Qc (inject_Z (Z.of_nat n)) * Q2Qc (1 # 131072))%Qc
     ∧ (Q2Qc 0 ≤ Nat.iter n decay_cell v)%Qc
     ∧ (Nat.iter n decay_cell v ≤ config.MAX_PHEROMONE_STRENGTH)%Qc)
  ∧ (∀ w w' k,
     _update_pheromones w = Some w' →
     World.pheromone_home w' !! k
       = (λ v, Nat.iter (count_ants (drops_home w k) (World.ants w))
                 (deposit_cell (Q2Qc 10)) (decay_cell v))
         <$> World.pheromone_home w !! k
     ∧ World.pheromone_food w' !! k
       = (λ v, Nat.iter (count_ants (drops_food w k) (World.ants w))
                 (deposit_cell (Q2Qc 5)) (decay_cell v))
         <$> World.pheromone_food w !! k)
  ∧ (∀ v amount,
     (Q2Qc 0 ≤ v)%Qc → (Q2Qc 0 ≤ amount)%Qc →
     (py_min config.MAX_PHEROMONE_STRENGTH (v + amount) - Q2Qc (1 # 262144)
        ≤ deposit_cell amount v)%Qc
     ∧ (deposit_cell amount v
        ≤ py_min config.MAX_PHEROMONE_STRENGTH (v + amount) + Q2Qc (1 # 262144))%Qc
     ∧ (deposit_cell amount v ≤ config.MAX_PHEROMONE_STRENGTH)%Qc)
  ∧ deposit_cell (Q2Qc 10) (Q2Qc 95) = Q2Qc 100
  ∧ (∀ w w', pheromones_in_range w → _update_pheromones w = Some w' →
             pheromones_in_range w')
  ∧ (∀ w envs w', pheromones_in_range w → run w envs = Some w' →
                  pheromones_in_range w').
Proof.
  split_and!.
  - intros w n k. destruct (decay_pheromones_iter w n) as [-> ->].
    by rewrite !lookup_fmap.
  - intros n v H0 H100.
    destruct (iter_decay_error n v H0 H100) as [??].
    destruct (iter_decay_in_range n v) as [??]; [done|]. by split_and!.
  - apply _update_pheromones_cells.
  - intros v amount Hv Ha.
    destruct (deposit_cell_error v amount Hv Ha) as [??].
    destruct (in_range_deposit v amount Hv Ha) as [_ ?]. by split_and!.
  - qc_eval.
  - apply _update_pheromones_in_range.
  - apply run_preserves, World_update_in_range.
Qed.
End scent_frames.

Section demo_fields.
Lemma demo_world_in_range fd objs : pheromones_in_range (demo_world fd objs).
Proof.
  intros [x y] v. simpl. intros [->%grid_lookup_Some| ->%grid_lookup_Some];
    by vm_compute.
Qed.

Lemma pheromones_decay_and_stay_in_range_witness :
  let a := demo_ant 1 1 return_home (Q2Qc 50) (Q2Qc 1) 10 in
  let w := World.set_pheromone_home (grid 3 3 (λ _ _, Q2Qc 95))
             (demo_world (λ _ _, Q2Qc 0) [a]) in
  pheromones_in_range w
  ∧ World.pheromone_home (Nat.iter 2 decay_pheromones w) !! (0, 0)
    = Some (Nat.iter 2 decay_cell (Q2Qc 95))
  ∧ ((Q2Qc 95 * config.PHEROMONE_DECAY_RATE ^ 2
        - Q2Qc (inject_Z (Z.of_nat 2)) * Q2Qc (1 # 131072)
      ≤ Nat.iter 2 decay_cell (Q2Qc 95))%Qc
     ∧ (Nat.iter 2 decay_cell (Q2Qc 95)
        ≤ Q2Qc 95 * config.PHEROMONE_DECAY_RATE ^ 2
          + Q2Qc (inject_Z (Z.of_nat 2)) * Q2Qc (1 # 131072))%Qc)
  ∧ (∃ w', _update_pheromones w = Some w' ∧ pheromones_in_range w'
       ∧ World.pheromone_home w' !! (1, 1) = Some (Q2Qc 100)
       ∧ World.pheromone_home w' !! (0, 0) = Some (Q2Qc (12389581 # 131072))
       ∧ World.pheromone_food w' !! (1, 1) = Some (Q2Qc 0))
  ∧ (∃ w', run w [demo_env; demo_env] = Some w' ∧ pheromones_in_range w').
Proof.
  intros a w.
  destruct pheromones_decay_and_stay_in_range
    as (Hiter & Herr & Hcells & _ & _ & Hupd & Hrun).
  assert (pheromones_in_range w) as Hr.
  { intros [x y] v. simpl.
    intros [->%grid_lookup_Some| ->%grid_lookup_Some]; by vm_compute. }
  assert (world_ok w) as Hok.
  { destruct (demo_world_ok (λ _ _, Q2Qc 0) [a]) as [? ? ? _ ? ?].
    split; try done. intros x y [??]%is_valid_position_spec. simpl.
    rewrite grid_lookup by done. by eexists. }
  split; [done|]. split; [|split; [|split]].
  - destruct (Hiter w 2%nat (0, 0)) as [_ ->]. simpl.
    by rewrite grid_lookup by lia.
  - destruct (Herr 2%nat (Q2Qc 95)) as (Hlo & Hhi & _); [by vm_compute..|].
    by split.
  - destruct (_update_pheromones_total w Hok) as [w' Hw'].
    exists w'. split_and!; [done|by apply (Hupd w w')|..].
    + destruct (Hcells w w' (1, 1) Hw') as [-> _]. simpl.
      rewrite grid_lookup by lia. simpl. apply (f_equal Some). qc_eval.
    + destruct (Hcells w w' (0, 0) Hw') as [-> _]. simpl.
      rewrite grid_lookup by lia. simpl. apply (f_equal Some). qc_eval.
    + destruct (Hcells w w' (1, 1) Hw') as [_ ->]. simpl.
      rewrite grid_lookup by lia. simpl. apply (f_equal Some). qc_eval.
  - destruct (run_total w [demo_env; demo_env] Hok) as [w' Hw'].
    exists w'. split; [done|]. by apply (Hrun w [demo_env; demo_env] w').
Defined.
End demo_fields.

(** ** Energy *)

Section energy.
Implicit Types (a : Ant.t) (w : World.t) (self : ref) (env : AntEnv).



(** Resting never lifts the energy above [max_energy]. *)
Lemma _action_rest_capped a w a' w' :
  _action_rest a w = Some (a', w') → (Ant.energy a' ≤ Ant.max_energy a')%Qc.
Proof.
  unfold _action_rest. intros Hrun.
  case_decide; simplify_eq/=; apply py_min_spec.
Qed.

(** C3 fails on the engine: a helper standing on the cell of an ant that is
    digging at energy 99 gives it 5, and the helped ant ends the frame alive
    with more energy than its [max_energy]. *)
Lemma helped_ant_exceeds_max_energy :
  let helper := demo_ant 1 1 help_ant (Q2Qc 50) (Q2Qc 0) 10 in
  let digger := demo_ant 1 1 dig_tunnel (Q2Qc 99) (Q2Qc 0) 10 in
  let w := demo_world (λ _ _, Q2Qc 0) [helper; digger] in
  world_ok w ∧ all_alive w ∧
  ∃ w' o, World_update w demo_env = Some w'
          ∧ World.objects w' !! 1%nat = Some o
          ∧ Ant.alive o = true
          ∧ Ant.max_energy o = Q2Qc 100
          ∧ Ant.energy o = Q2Qc 103.9
          ∧ (Ant.max_energy o < Ant.energy o)%Qc.
Proof.
  intros helper digger w. split_and!.
  - apply demo_world_ok.
  - intros r Hr. simpl in Hr.
    apply elem_of_cons in Hr as [->|Hr];
      [|apply list_elem_of_singleton in Hr as ->]; eexists; split; reflexivity.
  - destruct (World_update w demo_env) as [w'|] eqn:Hrun;
      [|vm_compute in Hrun; discriminate].
    destruct (World.objects w' !! 1%nat) as [o|] eqn:Ho.
    + exists w', o. split; [done|]. split; [done|].
      revert Ho. unfold World_update in Hrun.
      vm_compute in Hrun. injection Hrun as <-. vm_compute. intros [= <-].
      split_and!; [reflexivity|reflexivity|qc_eval|reflexivity].
    + exfalso. vm_compute in Hrun. injection Hrun as <-. vm_compute in Ho.
      discriminate.
Qed.
End energy.

(** ** Death *)

Section death.
Implicit Types (a : Ant.t) (w : World.t) (r : ref).





End death.

(** ** Position *)

Section position.
Implicit Types (a : Ant.t) (w : World.t) (r : ref).

(** The step of [_move_towards_target] along one axis is the sign of the
    difference. *)
Lemma step_is_sign (d : Z) :
  (if decide (d ≠ 0) then (if decide (d > 0) then 1 else -1) else d) = Z.sgn d.
Proof. repeat case_decide; lia. Qed.

Lemma run_stands_on_grid w envs w' r :
  stands_on_grid r w → run w envs = Some w' → stands_on_grid r w'.
Proof. apply run_preserves. intros ???. apply World_update_stands_on_grid. Qed.

(** C10: a move changes the position only to a cell that [can_move_to]
    accepts, which lies on the grid; a move to a cell off the grid is
    rejected and only counts as a stuck step; so an ant on the grid is on
    the grid after its update and after any number of frames, and a spawned
    ant starts on the grid. *)
Theorem ants_stay_on_grid :
  (∀ a w a', _move_towards_target a w = Some a' →
     (Ant.x a' = Ant.x a ∧ Ant.y a' = Ant.y a)
     ∨ can_move_to w (Ant.x a') (Ant.y a') = Some true)
  ∧ (∀ w x y, can_move_to w x y = Some true → is_valid_position w x y = true)
  ∧ (∀ a w tx ty,
     Ant.target_x a = Some tx → Ant.target_y a = Some ty →
     is_valid_position w (Ant.x a + Z.sgn (tx - Ant.x a))
       (Ant.y a + Z.sgn (ty - Ant.y a)) = false →
     _move_towards_target a w
       = Some (Ant.set_stuck_counter (Ant.stuck_counter a + 1) a))
  ∧ (∀ self a w env,
     world_ok w → on_grid w a →
     ∃ a' w', Ant_update self a w env = Some (a', w') ∧ on_grid w' a')
  ∧ (∀ w envs r,
     world_ok w → stands_on_grid r w →
     ∃ w', run w envs = Some w' ∧ stands_on_grid r w')
  ∧ (∀ w env w' r,
     _spawn_new_ant w env = Some w' → r ∈ World.ants w' → r ∉ World.ants w →
     stands_on_grid r w').
Proof.
  split_and!.
  - intros a w a'. unfold _move_towards_target.
    destruct (Ant.target_x a) as [tx|], (Ant.target_y a) as [ty|];
      try (intros; simplify_eq; by left).
    cbv zeta. intros Hrun.
    match type of Hrun with
    | context [can_move_to w ?nx ?ny] =>
        destruct (can_move_to w nx ny) as [[]|] eqn:Hm
    end; simplify_eq/=; [by right|by left].
  - apply can_move_to_valid.
  - intros a w tx ty Htx Hty Hv. unfold _move_towards_target, can_move_to.
    rewrite Htx, Hty. cbv zeta. rewrite !step_is_sign, Hv. done.
  - intros self a w env Hok Hg.
    destruct (Ant_update_total self a w env Hok) as [[a' w'] Hrun].
    exists a', w'. split; [done|].
    apply Ant_update_post in Hrun as (_ & _ & Hgrid & _). auto.
  - intros w envs r Hok Hg.
    destruct (run_total w envs Hok) as [w' Hrun].
    exists w'. split; [done|]. by eapply run_stands_on_grid.
  - apply _spawn_new_ant_on_grid.
Qed.

Lemma ants_stay_on_grid_witness :
  let a := Ant.set_target (Some 12) (Some 0)
             (demo_ant 2 0 explore (Q2Qc 50) (Q2Qc 0) 10) in
  let w := demo_world (λ _ _, Q2Qc 0) [a] in
  _move_towards_target a w = Some (Ant.set_stuck_counter 1 a)
  ∧ (∃ a' w', Ant_update 0%nat a w (ant_env demo_env 0%nat) = Some (a', w')
              ∧ on_grid w' a')
  ∧ (∃ w', run w [demo_env; demo_env] = Some w' ∧ stands_on_grid 0%nat w')
  ∧ is_valid_position w 1 1 = true.
Proof.
  intros a w.
  destruct ants_stay_on_grid as (_ & Hbounds & Hreject & Hupdate & Hrun & _).
  split_and!.
  - apply (Hreject a w 12 0); reflexivity.
  - apply Hupdate; [apply demo_world_ok|reflexivity].
  - apply Hrun; [apply demo_world_ok|]. exists a. split; reflexivity.
  - apply Hbounds. reflexivity.
Defined.
End position.

(** ** The grid queries on the small world *)

Section grid_demo.
Lemma out_of_bounds_is_neutral_witness :
  let w := demo_world (λ _ _, Q2Qc 4) [] in
  can_move_to w 3 0 = Some false
  ∧ get_food_at w 0 (-1) = Some (Q2Qc 0)
  ∧ remove_food_at w 3 0 (Q2Qc 2) = Some (Q2Qc 0, w).
Proof.
  intros w.
  destruct (out_of_bounds_is_neutral w 3 0) as (Hmove & _ & _ & _ & Hremove & _).
  { simpl. lia. }
  destruct (out_of_bounds_is_neutral w 0 (-1)) as (_ & _ & _ & Hfood & _).
  { simpl. lia. }
  split_and!; [exact Hmove|exact Hfood|apply Hremove].
Defined.

Lemma dig_tunnel_at_spec_witness :
  let w := demo_world (λ _ _, Q2Qc 0) [] in
  (∃ w', dig_tunnel_at w 0 1 = Some w'
         ∧ World.terrain w' !! (0, 1) = Some Tunnel
         ∧ World.total_tunnels_dug w' = 1
         ∧ dig_tunnel_at w' 0 1 = Some w')
  ∧ dig_tunnel_at w 1 1 = Some w
  ∧ dig_tunnel_at w 7 7 = Some w.
Proof.
  intros w. split_and!.
  - destruct (dig_tunnel_at_spec w 0 1) as (Hdig & _ & Hidem).
    specialize (Hdig Soil eq_refl eq_refl). simpl in Hdig.
    rewrite Hdig in Hidem. simpl in Hidem.
    eexists. split_and!; [exact Hdig| | |exact Hidem].
    + simpl. by rewrite lookup_insert_eq.
    + reflexivity.
  - destruct (dig_tunnel_at_spec w 1 1) as (Hdig & _).
    apply (Hdig Tunnel); reflexivity.
  - destruct (dig_tunnel_at_spec w 7 7) as (_ & Hout & _).
    apply Hout. reflexivity.
Defined.
End grid_demo.

(** ** What an action does *)

Section effects.
Implicit Types (a : Ant.t) (w : World.t) (self : ref).

(** The three outcomes of [_move_towards_target]. *)
Lemma _move_towards_target_effect a w a' :
  _move_towards_target a w = Some a' →
  a' = a
  ∨ (∃ tx ty, Ant.target_x a = Some tx ∧ Ant.target_y a = Some ty
       ∧ can_move_to w (Ant.x a + Z.sgn (tx - Ant.x a))
           (Ant.y a + Z.sgn (ty - Ant.y a)) = Some false
       ∧ a' = Ant.set_stuck_counter (Ant.stuck_counter a + 1) a)
  ∨ (∃ tx ty, Ant.target_x a = Some tx ∧ Ant.target_y a = Some ty
       ∧ can_move_to w (Ant.x a + Z.sgn (tx - Ant.x a))
           (Ant.y a + Z.sgn (ty - Ant.y a)) = Some true
       ∧ a' = Ant.set_stuck_counter 0
                (Ant.set_pos (Ant.x a + Z.sgn (tx - Ant.x a))
                   (Ant.y a + Z.sgn (ty - Ant.y a)) a)).
Proof.
  unfold _move_towards_target. intros Hrun.
  destruct (Ant.target_x a) as [tx|], (Ant.target_y a) as [ty|]; simplify_eq;
    try (by left).
  cbv zeta in Hrun. rewrite !step_is_sign in Hrun.
  destruct (can_move_to w _ _) as [[]|] eqn:Hm; simplify_eq/=.
  - right. right. by exists tx, ty.
  - right. left. by exists tx, ty.
Qed.

Lemma _move_towards_target_motion a w a' :
  _move_towards_target a w = Some a' →
  moved_at_most_one_step w a a' ∧ same_identity a a'
  ∧ Ant.energy a' = Ant.energy a ∧ Ant.carrying_food a' = Ant.carrying_food a
  ∧ Ant.current_task a' = Ant.current_task a
  ∧ Ant.target_x a' = Ant.target_x a ∧ Ant.target_y a' = Ant.target_y a.
Proof.
  intros Hrun. apply _move_towards_target_effect in Hrun
    as [->|[(tx & ty & _ & _ & _ & ->)|(tx & ty & _ & _ & Hm & ->)]].
  - by split_and!; [left|..].
  - by split_and!; [left|..].
  - split_and!; try done. right. simpl. split_and!; [done|lia..|done|done].
Qed.
End effects.

Section action_effects.
Implicit Types (a : Ant.t) (w : World.t) (self : ref).

Lemma move_with_target_motion a w tx ty a1 :
  _move_towards_target (Ant.set_target tx ty a) w = Some a1 →
  moved_at_most_one_step w a a1 ∧ same_identity a a1
  ∧ Ant.energy a1 = Ant.energy a ∧ Ant.carrying_food a1 = Ant.carrying_food a
  ∧ Ant.current_task a1 = Ant.current_task a.
Proof.
  intros Hm. apply _move_towards_target_motion in Hm as (? & ? & ? & ? & ? & _).
  by split_and!.
Qed.

Lemma same_identity_refl a : same_identity a a.
Proof. by split_and!. Qed.

Lemma moved_refl w a : moved_at_most_one_step w a a.
Proof. by left. Qed.

(** What each action does: its effect on the world and the load, how far
    the ant moves, and the fields it leaves alone. *)
Lemma _execute_action_effect self a w env a' w' :
  _execute_action self a w env = Some (a', w') →
  action_effect self a w a' w' ∧ moved_at_most_one_step w a a'
  ∧ same_identity a a'.
Proof.
  unfold _execute_action. intros Hrun.
  destruct (Ant.current_task a).
  - unfold _action_explore in Hrun.
    match type of Hrun with
    | context [_move_towards_target ?a0 w] => set (a0' := a0) in Hrun
    end.
    assert (moved_at_most_one_step w a a0' ∧ same_identity a a0'
            ∧ Ant.carrying_food a0' = Ant.carrying_food a
            ∧ Ant.x a0' = Ant.x a ∧ Ant.y a0' = Ant.y a) as (_ & Hi0 & Hc0 & Hx0 & Hy0).
    { subst a0'. repeat case_match; by split_and!; [left|..]. }
    destruct (_move_towards_target a0' w) as [a1|] eqn:Hm; simplify_eq/=.
    apply _move_towards_target_motion in Hm as (Hmv & Hi1 & _ & Hc1 & _).
    unfold moved_at_most_one_step in *. rewrite Hx0, Hy0 in Hmv.
    assert (same_identity a a1) as Hi.
    { unfold same_identity in *. destruct_and!. split_and!; congruence. }
    case_match; simplify_eq; (split_and!; [apply effect_none; simpl; congruence|done|done]).
  - unfold _action_move_to_food in Hrun.
    destruct (_find_nearest_food a w) as [[[fx fy]|]|]; simplify_eq/=;
      [|by split_and!; [apply effect_none|left|]].
    destruct (_move_towards_target _ w) as [a1|] eqn:Hm; simplify_eq/=.
    apply move_with_target_motion in Hm as (? & ? & _ & ? & _).
    by split_and!; [apply effect_none|..].
  - unfold _action_collect_food, get_food_at, remove_food_at, np_get, np_set in Hrun.
    destruct (is_valid_position w (Ant.x a) (Ant.y a)) eqn:Hv; simpl in Hrun.
    + destruct (World.food w !! (Ant.x a, Ant.y a)) as [f|] eqn:Hf; simplify_eq/=.
      destruct (bool_decide (Q2Qc 0 < f)%Qc) eqn:Hpos; simpl in Hrun;
        [|simplify_eq; by split_and!; [apply effect_none|left|]].
      destruct (bool_decide (Ant.carrying_food a < config.ANT_CARRYING_CAPACITY)%Qc)
        eqn:Hroom; simpl in Hrun;
        [|simplify_eq; by split_and!; [apply effect_none|left|]].
      apply bool_decide_eq_true in Hpos, Hroom.
      rewrite ?Hf in Hrun. simpl in Hrun. simplify_eq.
      rewrite py_min_absorb.
      split_and!; [by eapply effect_collect|by left|done].
    + simplify_eq. by split_and!; [apply effect_none|left|].
  - unfold _action_return_home in Hrun.
    destruct (_find_nearest_tunnel a w) as [[[hx hy]|]|]; simplify_eq/=;
      [|by split_and!; [apply effect_none|left|]].
    destruct (_move_towards_target _ w) as [a1|] eqn:Hm; simplify_eq/=.
    apply move_with_target_motion in Hm as (Hmv & Hi & _ & Hc & _).
    destruct (is_tunnel w _ _) as [at_home|] eqn:Hhome; simplify_eq/=.
    destruct at_home; simpl in Hrun;
      [|simplify_eq; by split_and!; [apply effect_none|..]].
    case_bool_decide as Hload; simplify_eq/=;
      [|by split_and!; [apply effect_none|..]].
    rewrite Hc. split_and!; [|done|done].
    apply effect_deliver; [done|by rewrite <- Hc|done].
  - unfold _action_dig_tunnel, dig_tunnel_at, can_dig_at, np_get, np_set in Hrun.
    case_decide; simplify_eq/=; [|by split_and!; [apply effect_none|left|]].
    destruct (is_valid_position w (Ant.x a) (Ant.y a)) eqn:Hv; simpl in Hrun;
      [|simplify_eq; by split_and!; [apply effect_none|left|]].
    destruct (World.terrain w !! (Ant.x a, Ant.y a)) as [c|] eqn:Hc; simplify_eq/=.
    case_bool_decide; simplify_eq/=;
      [|by split_and!; [apply effect_none|left|]].
    split_and!; [by apply effect_dig|by left|done].
  - unfold _action_follow_ant in Hrun.
    destruct (_find_nearest_ant self a w) as [[tr|]|]; simplify_eq/=;
      [|by split_and!; [apply effect_none|left|]].
    destruct (World.objects w !! tr) as [o|]; simplify_eq/=.
    destruct (_move_towards_target _ w) as [a1|] eqn:Hm; simplify_eq/=.
    apply move_with_target_motion in Hm as (? & ? & _ & ? & _).
    by split_and!; [apply effect_none|..].
  - unfold _action_rest in Hrun.
    case_decide; simplify_eq/=; by split_and!; [apply effect_none|left|].
  - unfold _action_help_ant in Hrun.
    destruct (_find_nearest_ant self a w) as [[tr|]|] eqn:Hfind; simplify_eq/=;
      [|by split_and!; [apply effect_none|left|]].
    apply _find_nearest_ant_found in Hfind as (Hne & Hin & o & Ho & Halive).
    rewrite Ho in Hrun. simpl in Hrun.
    case_bool_decide; simplify_eq/=; [|by split_and!; [apply effect_none|left|]].
    destruct (_move_towards_target _ w) as [a1|] eqn:Hm; simplify_eq/=.
    apply move_with_target_motion in Hm as (Hmv & Hi & _ & Hc & _).
    repeat (case_bool_decide || case_decide); simplify_eq/=;
      try (by split_and!; [apply effect_none|..]).
    split_and!; [by eapply effect_help|done|done].
Qed.
End action_effects.

Section update_effects.
Implicit Types (a : Ant.t) (w : World.t) (self : ref).

(** [_update_ai_decision] writes the cooldown, the task and the target only. *)
Lemma _update_ai_decision_fields self a w env a1 :
  _update_ai_decision self a w env = Some a1 →
  Ant.x a1 = Ant.x a ∧ Ant.y a1 = Ant.y a
  ∧ Ant.energy a1 = Ant.energy a ∧ Ant.carrying_food a1 = Ant.carrying_food a
  ∧ Ant.max_energy a1 = Ant.max_energy a ∧ Ant.alive a1 = Ant.alive a
  ∧ Ant.path_history a1 = Ant.path_history a ∧ Ant.age a1 = Ant.age a
  ∧ Ant.id a1 = Ant.id a.
Proof.
  unfold _update_ai_decision. intros Hrun.
  case_decide; simplify_eq/=; [|done].
  destruct (_gather_world_context _ _ _) as [ctx|]; simplify_eq/=.
  by case_decide.
Qed.

(** The three ways through [Ant.update]. *)
Lemma Ant_update_inv self a w env a' w' :
  Ant_update self a w env = Some (a', w') →
  (Ant.alive a = false ∧ a' = a ∧ w' = w)
  ∨ (Ant.alive a = true ∧ (Ant.energy a - Q2Qc 0.1 ≤ Q2Qc 0)%Qc ∧ w' = w
     ∧ a' = Ant.set_alive false
              (Ant.set_energy (Ant.energy a - Q2Qc 0.1)%Qc
                 (Ant.set_age (Ant.age a + 1) a)))
  ∨ (Ant.alive a = true ∧ ¬ (Ant.energy a - Q2Qc 0.1 ≤ Q2Qc 0)%Qc
     ∧ ∃ a1 a2,
         _update_ai_decision self
           (Ant.set_energy (Ant.energy a - Q2Qc 0.1)%Qc
              (Ant.set_age (Ant.age a + 1) a)) w env = Some a1
         ∧ _execute_action self a1 w env = Some (a2, w')
         ∧ a' = Ant.set_pheromone_strength
                  (Ant.pheromone_strength a2 * config.PHEROMONE_DECAY_RATE)%Qc
                  (_update_movement_history a2)).
Proof.
  unfold Ant_update. intros Hrun.
  destruct (Ant.alive a) eqn:Halive; simplify_eq/=; [|by left].
  case_decide; simplify_eq/=; [by right; left|].
  right. right. split_and!; [done..|].
  destruct (_update_ai_decision _ _ _ _) as [a1|] eqn:Hdec; simplify_eq/=.
  destruct (_execute_action _ _ _ _) as [[a2 w2]|] eqn:Hact; simplify_eq/=.
  by exists a1, a2.
Qed.

(** The world after [Ant.update] is the world before, or the world after
    the one action the update executed. *)
Lemma Ant_update_effect self a w env a' w' :
  Ant_update self a w env = Some (a', w') →
  w' = w ∨ ∃ a1 a2, action_effect self a1 w a2 w'
                    ∧ Ant.x a1 = Ant.x a ∧ Ant.y a1 = Ant.y a.
Proof.
  intros Hrun. apply Ant_update_inv in Hrun
    as [(_ & _ & ->)|[(_ & _ & -> & _)|(_ & _ & a1 & a2 & Hdec & Hact & _)]];
    [by left..|].
  right. exists a1, a2.
  apply _update_ai_decision_fields in Hdec as (? & ? & _).
  apply _execute_action_effect in Hact as (? & _). by split_and!.
Qed.
End update_effects.

(** ** What each phase of a frame does *)

Section phases.
Implicit Types (w : World.t) (r : ref) (env : TickEnv).

Lemma _spawn_food_effect w env w' :
  _spawn_food w env = Some w' →
  w' = w ∨
  ∃ x y amount f,
    food_roll env = Some (x, y, amount)
    ∧ is_valid_position w x y = true
    ∧ World.terrain w !! (x, y) = Some Air
    ∧ World.food w !! (x, y) = Some f ∧ (f < Q2Qc 10)%Qc
    ∧ w' = World.set_food (<[(x, y) := (f + amount)%Qc]> (World.food w)) w.
Proof.
  unfold _spawn_food, np_get, np_set. intros Hrun.
  destruct (food_roll env) as [[[x y] amount]|]; simplify_eq; [|by left].
  destruct (is_valid_position w x y) eqn:Hv; simplify_eq; [|by left].
  destruct (World.terrain w !! (x, y)) as [c|] eqn:Hc; simplify_eq/=.
  case_decide; simplify_eq; [|by left].
  destruct (World.food w !! (x, y)) as [f|] eqn:Hf; simplify_eq/=.
  case_decide; simplify_eq/=; [|by left].
  right. by exists x, y, amount, f.
Qed.

Lemma drop_pheromone_effect w r w' :
  drop_pheromone w r = Some w' →
  ∃ pf ph, w' = World.set_pheromone_home ph (World.set_pheromone_food pf w).
Proof.
  unfold drop_pheromone. intros Hrun.
  assert (∃ pf ph, w = World.set_pheromone_home ph (World.set_pheromone_food pf w)) as Hid.
  { exists (World.pheromone_food w), (World.pheromone_home w). by destruct w. }
  destruct (World.objects w !! r) as [o|]; simplify_eq/=.
  destruct (Ant.alive o); simplify_eq; [|done].
  destruct (is_valid_position w _ _); simplify_eq; [|done].
  repeat case_decide; simplify_eq; try done.
  - destruct (deposit _ _ _ _) as [g|]; simplify_eq/=.
    exists (World.pheromone_food w), g. by destruct w.
  - destruct (deposit _ _ _ _) as [g|]; simplify_eq/=.
    exists g, (World.pheromone_home w). by destruct w.
Qed.

(** A frame's scent update writes the two scent fields only. *)
Lemma _update_pheromones_effect w w' :
  _update_pheromones w = Some w' →
  ∃ pf ph, w' = World.set_pheromone_home ph (World.set_pheromone_food pf w).
Proof.
  unfold _update_pheromones.
  apply (for_each_inv
    (λ s, ∃ pf ph, s = World.set_pheromone_home ph (World.set_pheromone_food pf w))).
  - intros s r s' _ (pf & ph & ->) (pf' & ph' & ->)%drop_pheromone_effect.
    by exists pf', ph'.
  - unfold decay_pheromones. eauto.
Qed.

Lemma tunnel_scan_tunnels w locs :
  for_each (λ acc x,
    for_each (λ acc y,
      c ← np_get (World.terrain w) x y;
      if decide (c = Tunnel) then Some (acc ++ [(x, y)]) else Some acc)
      acc (py_range 0 (World.height w)))
    [] (py_range 0 (World.width w)) = Some locs →
  ∀ p, p ∈ locs → World.terrain w !! p = Some Tunnel.
Proof.
  set (P := λ acc : list (Z * Z), ∀ p, p ∈ acc → World.terrain w !! p = Some Tunnel).
  apply (for_each_inv P).
  - intros acc x acc' _ Hacc. apply (for_each_inv P); [|done].
    intros acc0 y acc1 _ Hacc0 Hbody. unfold np_get in Hbody.
    destruct (World.terrain w !! (x, y)) as [c|] eqn:Hc; simplify_eq/=.
    case_decide; simplify_eq; [|done].
    intros p [?| ->%list_elem_of_singleton]%elem_of_app; by auto.
  - by intros p ?%elem_of_nil.
Qed.

(** A spawn either does nothing or appends one new ant, created on a tunnel
    cell of the grid, under an unused reference. *)
Lemma _spawn_new_ant_effect w env w' :
  _spawn_new_ant w env = Some w' →
  w' = w ∨
  ∃ x y, is_valid_position w x y = true
    ∧ World.terrain w !! (x, y) = Some Tunnel
    ∧ w' = World.set_ants (World.ants w ++ [fresh (dom (World.objects w))])
             (World.set_objects
                (<[fresh (dom (World.objects w)) :=
                     Ant.__init__ x y (Z.of_nat (length (World.ants w)))]>
                   (World.objects w)) w).
Proof.
  unfold _spawn_new_ant. intros Hrun.
  destruct (for_each _ _ _) as [locs|] eqn:Hscan; simplify_eq/=.
  pose proof (tunnel_scan_on_grid _ _ Hscan) as Hgrid.
  pose proof (tunnel_scan_tunnels _ _ Hscan) as Htun.
  destruct locs as [|p0 locs]; simplify_eq; [by left|].
  destruct (_ !! _) as [[x y]|] eqn:Hp; simplify_eq/=.
  apply list_elem_of_lookup_2 in Hp.
  right. exists x, y. split_and!; [by apply (Hgrid (x, y))|by apply Htun|done].
Qed.

(** Growth needs more than 50 stored food, fewer than 30 ants and a frame
    count that is a multiple of 1800. *)
Lemma _check_colony_growth_effect w env w' :
  _check_colony_growth w env = Some w' →
  w' = w ∨
  ((Q2Qc 50 < World.food_storage w)%Qc
   ∧ Z.of_nat (length (World.ants w)) < 30
   ∧ World.frame_count w `mod` 1800 = 0
   ∧ ∃ x y, is_valid_position w x y = true
       ∧ World.terrain w !! (x, y) = Some Tunnel
       ∧ w' = World.set_ants (World.ants w ++ [fresh (dom (World.objects w))])
                (World.set_objects
                   (<[fresh (dom (World.objects w)) :=
                        Ant.__init__ x y (Z.of_nat (length (World.ants w)))]>
                      (World.objects w)) w)).
Proof.
  unfold _check_colony_growth. intros Hrun.
  destruct (bool_decide (Q2Qc 50 < World.food_storage w)%Qc) eqn:H1;
    simpl in Hrun; [|simplify_eq; by left].
  destruct (bool_decide (Z.of_nat (length (World.ants w)) < 30)) eqn:H2;
    simpl in Hrun; [|simplify_eq; by left].
  destruct (bool_decide (World.frame_count w `mod` 1800 = 0)) eqn:H3;
    simpl in Hrun; [|simplify_eq; by left].
  apply bool_decide_eq_true in H1, H2, H3.
  apply _spawn_new_ant_effect in Hrun as [->|Hspawn]; [by left|].
  right. by split_and!.
Qed.

(** The exact world a turn of the loop leaves. *)
Lemma ant_turn_effect env w r w' :
  ant_turn env w r = Some w' →
  ∃ a a' w1,
    World.objects w !! r = Some a
    ∧ Ant_update r a w (ant_env env r) = Some (a', w1)
    ∧ ((Ant.alive a' = true
        ∧ w' = World.set_objects (<[r := a']> (World.objects w1)) w1)
       ∨ (Ant.alive a' = false
          ∧ ∃ l, py_remove r (World.ants w1) = Some l
              ∧ w' = World.set_ants l
                       (World.set_objects (<[r := a']> (World.objects w1)) w1))).
Proof.
  unfold ant_turn. intros Hrun.
  destruct (World.objects w !! r) as [a|] eqn:Ha; simplify_eq/=.
  destruct (Ant_update r a w (ant_env env r)) as [[a' w1]|] eqn:Hup; simplify_eq/=.
  exists a, a', w1. split_and!; [done..|].
  destruct (Ant.alive a') eqn:Halive; simplify_eq/=; [by left|].
  destruct (py_remove r (World.ants w1)) as [l|] eqn:Hrm; simplify_eq/=.
  right. split; [done|]. by exists l.
Qed.

(** A property kept by each of the five phases of a frame is kept by the
    frame. *)
Lemma World_update_phases (P : World.t → Prop) :
  (∀ w n, P w → P (World.set_frame_count n w)) →
  (∀ env w r w', P w → ant_turn env w r = Some w' → P w') →
  (∀ env w w', P w → _spawn_food w env = Some w' → P w') →
  (∀ w pf ph, P w → P (World.set_pheromone_home ph (World.set_pheromone_food pf w))) →
  (∀ env w w', P w → _check_colony_growth w env = Some w' → P w') →
  ∀ w env w', P w → World_update w env = Some w' → P w'.
Proof.
  intros Hframe Hturn Hfood Hscent Hgrow w env w' HP. unfold World_update.
  intros Hrun.
  destruct (for_each (ant_turn env) _ _) as [w1|] eqn:H1; simplify_eq/=.
  destruct (_spawn_food w1 env) as [w2|] eqn:H2; simplify_eq/=.
  destruct (_update_pheromones w2) as [w3|] eqn:H3; simplify_eq/=.
  apply _update_pheromones_effect in H3 as (pf & ph & ->).
  eapply Hgrow; [|done]. apply Hscent. eapply Hfood; [|done].
  revert H1. apply (for_each_inv P); [|by apply Hframe].
  intros s r s' _ Hs Hstep. by eapply Hturn.
Qed.
End phases.

(** ** Properties of ants that every frame keeps *)

Section invariants.
Context (Q : World.t → Ant.t → Prop) (HQ : ant_invariant Q).
Implicit Types (w : World.t) (r : ref) (env : TickEnv) (o : Ant.t).

(** What one ant's action changes in the world keeps the property for every
    ant. *)
Lemma action_effect_keeps self a w a' w' o :
  action_effect self a w a' w' → Q w o → Q w' o.
Proof.
  intros Heff Ho. destruct Heff; try done.
  - by eapply (inv_ground Q HQ); [..|done].
  - by eapply (inv_ground Q HQ); [..|done].
  - eapply (inv_ground Q HQ); [..|by eapply (inv_dig Q HQ)]; done.
  - by eapply (inv_ground Q HQ); [..|done].
Qed.

Lemma Ant_update_keeps_others self a w (aenv : AntEnv) a' w' o :
  Ant_update self a w aenv = Some (a', w') → Q w o → Q w' o.
Proof.
  intros Hup Ho. apply Ant_update_effect in Hup as [->|(a1 & a2 & Heff & _)];
    [done|]. by eapply action_effect_keeps.
Qed.

Lemma ant_turn_holds_for env w r w' r0 :
  holds_for Q r0 w → ant_turn env w r = Some w' → holds_for Q r0 w'.
Proof.
  intros (o & Ho & HQo) Hrun.
  pose proof (ant_turn_effect _ _ _ _ Hrun) as (a & a' & w1 & Ha & Hup & Hw').
  assert (∀ o', Q w1 o' → Q w' o') as Hlift.
  { intros o' Ho'. destruct Hw' as [[_ ->]|(_ & l & _ & ->)];
      by eapply (inv_ground Q HQ); [..|done]. }
  assert (World.objects w' = <[r := a']> (World.objects w1)) as Hobj.
  { by destruct Hw' as [[_ ->]|(_ & l & _ & ->)]. }
  unfold holds_for. destruct (decide (r0 = r)) as [->|Hne].
  - exists a'. rewrite Hobj, lookup_insert_eq. split; [done|]. simplify_eq.
    apply Hlift. by eapply (inv_update Q HQ).
  - destruct (ant_turn_other _ _ _ _ r0 Hrun Hne) as [->|(_ & o' & ? & ? & ->)].
    + exists o. split; [done|]. apply Hlift. by eapply Ant_update_keeps_others.
    + simplify_eq. eexists. split; [done|]. apply Hlift.
      apply (inv_helped Q HQ). by eapply Ant_update_keeps_others.
Qed.

Lemma _spawn_food_keeps env w w' o : _spawn_food w env = Some w' → Q w o → Q w' o.
Proof.
  intros Hrun Ho.
  apply _spawn_food_effect in Hrun as [->|(x & y & amt & f & _ & _ & _ & _ & _ & ->)];
    [done|]. by eapply (inv_ground Q HQ); [..|done].
Qed.

Lemma _check_colony_growth_holds_for env w w' r0 :
  holds_for Q r0 w → _check_colony_growth w env = Some w' → holds_for Q r0 w'.
Proof.
  intros (o & Ho & HQo) Hrun.
  apply _check_colony_growth_effect in Hrun
    as [->|(_ & _ & _ & x & y & _ & _ & ->)]; [by exists o|].
  exists o. split.
  - simpl. rewrite lookup_insert_ne; [done|].
    intros <-. apply (is_fresh (dom (World.objects w))). by eapply elem_of_dom_2.
  - by eapply (inv_ground Q HQ); [..|done].
Qed.

(** An ant that has the property has it after every frame. *)
Lemma World_update_holds_for w env w' r0 :
  holds_for Q r0 w → World_update w env = Some w' → holds_for Q r0 w'.
Proof.
  apply (World_update_phases (holds_for Q r0)).
  - intros s n (o & Ho & HQo). exists o. split; [done|].
    by eapply (inv_ground Q HQ); [..|done].
  - intros env0 s r s' Hs Hturn. by eapply ant_turn_holds_for.
  - intros env0 s s' (o & Ho & HQo) Hfood. exists o. split.
    + apply _spawn_food_quiet in Hfood. by rewrite (quiet_objects _ _ Hfood).
    + by eapply _spawn_food_keeps.
  - intros s pf ph (o & Ho & HQo). exists o. split; [done|].
    by eapply (inv_ground Q HQ); [..|done].
  - intros env0 s s' Hs Hgrow. by eapply _check_colony_growth_holds_for.
Qed.

Lemma run_holds_for w envs w' r0 :
  holds_for Q r0 w → run w envs = Some w' → holds_for Q r0 w'.
Proof. apply run_preserves. intros ???. apply World_update_holds_for. Qed.

(** When every ant of the list has the property, so it is after every
    frame, ants born in the frame included. *)
Lemma World_update_all_hold w env w' :
  (∀ r, r ∈ World.ants w → holds_for Q r w) →
  World_update w env = Some w' →
  ∀ r, r ∈ World.ants w' → holds_for Q r w'.
Proof.
  apply (World_update_phases (λ w, ∀ r, r ∈ World.ants w → holds_for Q r w)).
  - intros s n Hs r Hr. destruct (Hs r Hr) as (o & Ho & HQo). exists o.
    split; [done|]. by eapply (inv_ground Q HQ); [..|done].
  - intros env0 s r s' Hs Hturn r0 Hr0.
    eapply ant_turn_holds_for; [|done]. apply Hs. by eapply ant_turn_ants.
  - intros env0 s s' Hs Hfood r Hr.
    pose proof (_spawn_food_quiet _ _ _ Hfood) as Hq.
    rewrite (quiet_ants _ _ Hq) in Hr. destruct (Hs r Hr) as (o & Ho & HQo).
    exists o. split; [by rewrite (quiet_objects _ _ Hq)|by eapply _spawn_food_keeps].
  - intros s pf ph Hs r Hr. destruct (Hs r Hr) as (o & Ho & HQo). exists o.
    split; [done|]. by eapply (inv_ground Q HQ); [..|done].
  - intros env0 s s' Hs Hgrow r Hr.
    pose proof Hgrow as Hgrow'.
    apply _check_colony_growth_effect in Hgrow
      as [->|(_ & _ & _ & x & y & Hv & Ht & ->)]; [by apply Hs|].
    simpl in Hr. apply elem_of_app in Hr as [Hr| ->%list_elem_of_singleton].
    + eapply _check_colony_growth_holds_for; [|done]. by apply Hs.
    + eexists. simpl. rewrite lookup_insert_eq. split; [done|].
      eapply (inv_ground Q HQ); [..|by apply (inv_born Q HQ)]; done.
Qed.

Lemma run_all_hold w envs w' :
  (∀ r, r ∈ World.ants w → holds_for Q r w) →
  run w envs = Some w' →
  ∀ r, r ∈ World.ants w' → holds_for Q r w'.
Proof.
  apply (run_preserves (λ w, ∀ r, r ∈ World.ants w → holds_for Q r w)).
  intros ???. apply World_update_all_hold.
Qed.
End invariants.

Section kept_properties.
Implicit Types (w : World.t) (o a : Ant.t).

Lemma can_move_to_true w x y :
  can_move_to w x y = Some true ↔
  is_valid_position w x y = true
  ∧ ∃ c, World.terrain w !! (x, y) = Some c ∧ c ≠ Soil.
Proof.
  unfold can_move_to, np_get. destruct (is_valid_position w x y); simpl.
  - destruct (World.terrain w !! (x, y)) as [c|]; simpl.
    + split.
      * intros [= Hc%bool_decide_eq_true]. eauto.
      * intros (_ & c' & [= <-] & Hc). by rewrite bool_decide_eq_true_2.
    + split; [done|]. by intros (_ & c' & ? & _).
  - split; [done|]. by intros [? _].
Qed.

Lemma off_soil_invariant : ant_invariant off_soil.
Proof.
  split; unfold off_soil.
  - intros w w' o Hw Hh Ht. unfold can_move_to, is_valid_position.
    by rewrite Hw, Hh, Ht.
  - intros w x y o Hsoil. rewrite !can_move_to_true. simpl.
    intros (Hv & c & Hc & Hne). split; [done|].
    destruct (decide ((x, y) = (Ant.x o, Ant.y o))) as [->|].
    + exists Tunnel. by rewrite lookup_insert_eq.
    + exists c. by rewrite lookup_insert_ne.
  - done.
  - intros self a w env a' w' Ha Hup.
    apply Ant_update_inv in Hup
      as [(_ & -> & ->)|[(_ & _ & -> & ->)|(_ & _ & a1 & a2 & Hdec & Hact & ->)]];
      [done..|].
    apply _update_ai_decision_fields in Hdec as (Hx & Hy & _). simpl in Hx, Hy.
    apply _execute_action_effect in Hact as (Heff & Hmv & _).
    simpl.
    assert (can_move_to w (Ant.x a2) (Ant.y a2) = Some true) as Hpos.
    { destruct Hmv as [[-> ->]|[? _]]; [by rewrite Hx, Hy|done]. }
    clear -Heff Hpos. revert Hpos. rewrite !can_move_to_true.
    destruct Heff; try done; simpl.
    intros (Hv & c & Hc & Hne). split; [done|].
    match goal with
    | |- context [<[?k := Tunnel]> _ !! ?k'] =>
        destruct (decide (k = k')) as [->|]
    end.
    + exists Tunnel. by rewrite lookup_insert_eq.
    + exists c. by rewrite lookup_insert_ne.
  - intros w x y n Hv Ht. apply can_move_to_true. simpl. split; [done|].
    by exists Tunnel.
Qed.

Lemma load_ok_invariant : ant_invariant (λ _, load_ok).
Proof.
  split; try done.
  - intros self a w env a' w' Ha Hup.
    apply Ant_update_inv in Hup
      as [(_ & -> & ->)|[(_ & _ & -> & ->)|(_ & _ & a1 & a2 & Hdec & Hact & ->)]];
      [done..|].
    apply _update_ai_decision_fields in Hdec as (_ & _ & _ & Hc & _). simpl in Hc.
    apply _execute_action_effect in Hact as (Heff & _).
    unfold load_ok in *. simpl. rewrite <- Hc in Ha. clear Hc.
    destruct Ha as [Hlo Hhi].
    destruct Heff as [a2 Hk|a2 f _ _ Hf Hroom Hk|a2 _ _ Hk|a2 _ _ Hk|a2 tr o _ _ _ _ _ Hk];
      rewrite Hk; try done.
    destruct (py_min_spec f (config.ANT_CARRYING_CAPACITY - Ant.carrying_food a1)%Qc)
      as (_ & Hle & [Hp|Hp]); rewrite Hp in *;
      unfold config.ANT_CARRYING_CAPACITY in *; split; qc_lra.
Qed.

Lemma _update_movement_history_length a :
  (length (Ant.path_history a) ≤ 20)%nat →
  (length (Ant.path_history (_update_movement_history a)) ≤ 20)%nat
  ∧ list.last (Ant.path_history (_update_movement_history a)) = Some (Ant.x a, Ant.y a)
  ∧ Ant.x (_update_movement_history a) = Ant.x a
  ∧ Ant.y (_update_movement_history a) = Ant.y a.
Proof.
  intros Hlen. unfold _update_movement_history. simpl.
  case_decide as Hlong; rewrite length_app in Hlong; simpl in Hlong.
  - split_and!; try done.
    + rewrite length_drop, length_app. simpl. lia.
    + rewrite drop_app_le by lia. by rewrite last_snoc.
  - split_and!; try done.
    + rewrite length_app. simpl. lia.
    + by rewrite last_snoc.
Qed.

Lemma history_ok_invariant : ant_invariant (λ _, history_ok).
Proof.
  split; try done.
  - intros self a w env a' w' Ha Hup.
    apply Ant_update_inv in Hup
      as [(_ & -> & ->)|[(_ & _ & -> & ->)|(_ & _ & a1 & a2 & Hdec & Hact & ->)]];
      [done..|].
    apply _update_ai_decision_fields in Hdec as (_ & _ & _ & _ & _ & _ & Hh & _).
    apply _execute_action_effect in Hact as (_ & _ & Hid).
    destruct Hid as (_ & _ & _ & _ & _ & _ & Hh2). simpl in Hh.
    unfold history_ok in *. simpl.
    apply _update_movement_history_length. by rewrite Hh2, Hh.
  - intros w x y n _ _. unfold history_ok. simpl. lia.
Qed.

Lemma energy_ok_invariant : ant_invariant (λ _, energy_ok).
Proof.
  split; try done.
  - intros w o [Hmax He]. split; [done|]. simpl. intros Halive.
    specialize (He Halive). qc_lra.
  - intros self a w env a' w' [Hmax He] Hup.
    apply Ant_update_inv in Hup
      as [(Hdead & -> & ->)|[(_ & _ & -> & ->)|(Halive & Hpos & a1 & a2 & Hdec & Hact & ->)]].
    + done.
    + by split.
    + pose proof (_update_ai_decision_fields _ _ _ _ _ Hdec)
        as (_ & _ & He1 & _ & Hm1 & _). simpl in He1, Hm1.
      pose proof (_execute_action_effect _ _ _ _ _ _ Hact) as (_ & _ & Hid).
      destruct Hid as (_ & Hm2 & _).
      split; simpl; [by rewrite Hm2, Hm1|]. intros _.
      destruct (decide (Ant.current_task a1 = rest)) as [Hrest|Hrest].
      * unfold _execute_action in Hact. rewrite Hrest in Hact.
        unfold _action_rest in Hact.
        destruct (py_min_spec (Ant.max_energy a1) (Ant.energy a1 + Q2Qc 2)%Qc)
          as (_ & _ & Hp).
        case_decide; simplify_eq/=; rewrite Hm1 in *; rewrite He1 in *;
          (destruct Hp as [->| ->]; [done|qc_lra]).
      * apply _execute_action_post in Hact as (_ & _ & Hspent).
        destruct (Hspent Hrest) as [->|[Hcost ->]]; rewrite He1 in *;
          unfold config.DIGGING_ENERGY_COST in *; qc_lra.
Qed.
End kept_properties.

(** ** Fields of the world across a frame *)

Section world_fields.
Implicit Types (w : World.t) (r : ref).

(** A turn of the loop changes the world by at most one action of the ant,
    then stores the ant and perhaps shortens the list. *)
Lemma ant_turn_world env w r w' :
  ant_turn env w r = Some w' →
  ∃ w1 objs l,
    (w1 = w ∨ ∃ a1 a2, action_effect r a1 w a2 w1)
    ∧ w' = World.set_ants l (World.set_objects objs w1)
    ∧ (l = World.ants w ∨ py_remove r (World.ants w) = Some l).
Proof.
  intros (a & a' & w1 & _ & Hup & Hw')%ant_turn_effect.
  pose proof (Ant_update_post _ _ _ _ _ _ Hup) as ([_ _ Hants _ _ _ _ _ _] & _).
  exists w1, (<[r := a']> (World.objects w1)).
  destruct Hw' as [[_ ->]|(_ & l & Hl & ->)].
  - exists (World.ants w). split_and!; [|by rewrite <- Hants; destruct w1|by left].
    apply Ant_update_effect in Hup as [->|(a1 & a2 & ? & _)]; eauto.
  - exists l. split_and!; [|done|right; by rewrite <- Hants].
    apply Ant_update_effect in Hup as [->|(a1 & a2 & ? & _)]; eauto.
Qed.

(** A property of the fields other than the list and the store of ants is
    kept by a frame when each way of writing those fields keeps it. *)
Lemma World_update_fields (P : World.t → Prop) env :
  (∀ w l objs, P w → P (World.set_ants l (World.set_objects objs w))) →
  (∀ w n, P w → P (World.set_frame_count n w)) →
  (∀ w pf ph, P w → P (World.set_pheromone_home ph (World.set_pheromone_food pf w))) →
  (∀ self a w a' w', P w → action_effect self a w a' w' → P w') →
  (∀ w w', P w → _spawn_food w env = Some w' → P w') →
  ∀ w w', P w → World_update w env = Some w' → P w'.
Proof.
  intros Hstore Hframe Hscent Hact Hfood w w' HP. unfold World_update. intros Hrun.
  destruct (for_each (ant_turn env) _ _) as [w1|] eqn:H1; simplify_eq/=.
  destruct (_spawn_food w1 env) as [w2|] eqn:H2; simplify_eq/=.
  destruct (_update_pheromones w2) as [w3|] eqn:H3; simplify_eq/=.
  apply _update_pheromones_effect in H3 as (pf & ph & ->).
  assert (P w1) as HP1.
  { revert H1. apply (for_each_inv P); [|by apply Hframe].
    intros s r s' _ Hs (s1 & objs & l & Hs1 & -> & _)%ant_turn_world.
    apply Hstore. destruct Hs1 as [->|(a1 & a2 & Heff)]; [done|].
    by eapply Hact. }
  apply Hfood in H2; [|done].
  apply _check_colony_growth_effect in Hrun
    as [->|(_ & _ & _ & x & y & _ & _ & ->)]; [by apply Hscent|].
  by apply Hstore, Hscent.
Qed.

Lemma py_remove_length r l l' :
  py_remove r l = Some l' → length l = S (length l').
Proof.
  revert l'. induction l as [|h l IH]; intros l' Hrm; simplify_eq/=.
  case_decide; simplify_eq; [done|].
  destruct (py_remove r l) as [l0|]; simplify_eq/=. f_equal. by apply IH.
Qed.

(** The colony never grows beyond 30 ants. *)
Lemma World_update_colony_cap w env w' :
  (length (World.ants w) ≤ 30)%nat → World_update w env = Some w' →
  (length (World.ants w') ≤ 30)%nat.
Proof.
  apply (World_update_phases (λ w, (length (World.ants w) ≤ 30)%nat)).
  - done.
  - intros env0 s r s' Hs (s1 & objs & l & Hs1 & -> & Hl)%ant_turn_world. simpl.
    destruct Hl as [->|Hl%py_remove_length]; lia.
  - intros env0 s s' Hs Hq. apply _spawn_food_quiet in Hq.
    by rewrite (quiet_ants _ _ Hq).
  - done.
  - intros env0 s s' Hs Hgrow. apply _check_colony_growth_effect in Hgrow
      as [->|(_ & Hlt & _ & x & y & _ & _ & ->)]; [done|].
    simpl. rewrite length_app. simpl. lia.
Qed.

(** A frame adds one to the frame counter. *)
Lemma World_update_frame_count w env w' :
  World_update w env = Some w' → World.frame_count w' = World.frame_count w + 1.
Proof.
  unfold World_update. intros Hrun.
  destruct (for_each (ant_turn env) _ _) as [w1|] eqn:H1; simplify_eq/=.
  destruct (_spawn_food w1 env) as [w2|] eqn:H2; simplify_eq/=.
  destruct (_update_pheromones w2) as [w3|] eqn:H3; simplify_eq/=.
  apply _update_pheromones_effect in H3 as (pf & ph & ->).
  assert (World.frame_count w1 = World.frame_count w + 1) as Hc1.
  { revert H1.
    apply (for_each_inv (λ s, World.frame_count s = World.frame_count w + 1));
      [|done].
    intros s r s' _ Hs (a & a' & s1 & _ & Hup & Hs')%ant_turn_effect.
    apply Ant_update_post in Hup as ([_ _ _ _ _ Hfc _ _ _] & _).
    destruct Hs' as [[_ ->]|(_ & l & _ & ->)]; simpl; congruence. }
  apply _spawn_food_effect in H2 as [->|(x & y & amt & f & _ & _ & _ & _ & _ & ->)];
    apply _check_colony_growth_effect in Hrun
      as [->|(_ & _ & _ & x' & y' & _ & _ & ->)]; simpl; done.
Qed.
End world_fields.

Section field_invariants.
Implicit Types (w : World.t) (env : TickEnv).

Lemma spawn_food_fields w env w' :
  _spawn_food w env = Some w' →
  World.terrain w' = World.terrain w
  ∧ World.food_storage w' = World.food_storage w
  ∧ World.total_food_collected w' = World.total_food_collected w
  ∧ World.total_tunnels_dug w' = World.total_tunnels_dug w.
Proof.
  intros Hrun. apply _spawn_food_effect in Hrun
    as [->|(x & y & amt & f & _ & _ & _ & _ & _ & ->)]; done.
Qed.

(** The store of food is never drawn from: it stays equal to the total
    collected, and no frame lowers it. *)
Lemma World_update_food_storage w env w' :
  World_update w env = Some w' →
  (World.food_storage w ≤ World.food_storage w')%Qc
  ∧ (World.food_storage w = World.total_food_collected w →
     World.food_storage w' = World.total_food_collected w').
Proof.
  intros Hrun. split.
  - revert Hrun.
    apply (World_update_fields
      (λ s, (World.food_storage w ≤ World.food_storage s)%Qc) env);
      try done.
    + intros self a s a' s' Hs Heff. destruct Heff; simpl; try done. qc_lra.
    + intros s s' Hs (_ & -> & _)%spawn_food_fields. done.
  - intros Heq. revert Hrun.
    apply (World_update_fields
      (λ s, World.food_storage s = World.total_food_collected s) env); try done.
    + intros self a s a' s' Hs Heff. destruct Heff; simpl; try done.
      by rewrite Hs.
    + intros s s' Hs (_ & -> & -> & _)%spawn_food_fields. done.
Qed.

Lemma terrain_grows_refl w : terrain_grows w w.
Proof. intros k c ?. by left. Qed.

(** Air stays air, a tunnel stays a tunnel, soil stays soil or becomes a
    tunnel; the counter of dug tunnels never goes down. *)
Lemma World_update_terrain w env w' :
  World_update w env = Some w' →
  terrain_grows w w' ∧ World.total_tunnels_dug w ≤ World.total_tunnels_dug w'.
Proof.
  apply (World_update_fields
    (λ s, terrain_grows w s ∧ World.total_tunnels_dug w ≤ World.total_tunnels_dug s) env);
    try done.
  - intros self a s a' s' [Hs Hn] Heff. destruct Heff; simpl; try done.
    split; [|lia]. intros k c Hc. simpl.
    match goal with H : World.terrain s !! ?p = Some Soil |- _ =>
      rename H into Hsoil; destruct (decide (p = k)) as [<-|] end.
    + rewrite lookup_insert_eq.
      destruct (Hs _ _ Hc) as [?|[? ?]]; [|congruence]. right. split; congruence.
    + rewrite lookup_insert_ne by done. by apply Hs.
  - intros s s' [Hs Hn] (Ht & _ & _ & Hd)%spawn_food_fields.
    unfold terrain_grows. by rewrite Ht, Hd.
  - split; [apply terrain_grows_refl|lia].
Qed.

(** With rolls that are not negative, no frame makes a stock negative. *)
Lemma World_update_food_nonneg w env w' :
  roll_nonneg env → food_nonneg w → World_update w env = Some w' → food_nonneg w'.
Proof.
  intros Hroll. apply (World_update_fields food_nonneg env); try done.
  - intros self a s a' s' Hs Heff. destruct Heff; try done.
    intros k v. simpl. intros [[_ <-]|[_ Hk]]%lookup_insert_Some; [|by eauto].
    match goal with |- context [py_min ?p ?q] =>
      destruct (py_min_spec p q) as (? & _ & _) end. qc_lra.
  - intros s s' Hs Hfood. apply _spawn_food_effect in Hfood
      as [->|(x & y & amt & f & Hr & _ & _ & Hf & _ & ->)]; [done|].
    intros k v. simpl. intros [[_ <-]|[_ Hk]]%lookup_insert_Some; [|by eauto].
    specialize (Hs _ _ Hf). specialize (Hroll _ _ _ Hr). qc_lra.
Qed.
End field_invariants.

(** ** The nearest-target scans *)

Section nearest.
Context {A : Type}.
Implicit Types (cand : A → option (option Z)) (l : list A).

Lemma for_each_ext {S B} (f g : S → B → option S) (s : S) (l : list B) :
  (∀ s i, i ∈ l → f s i = g s i) → for_each f s l = for_each g s l.
Proof.
  revert s. induction l as [|i l IH]; intros s Hfg; simpl; [done|].
  rewrite (Hfg s i) by (by left). destruct (g s i); simpl; [|done].
  apply IH. intros s1 j Hj. apply Hfg. by right.
Qed.

(** Two nested loops are one loop over the pairs in visiting order. *)
Lemma for_each_nested {S B C} (f : S → B → C → option S) (s : S)
  (lb : list B) (lc : list C) :
  for_each (λ s b, for_each (λ s c, f s b c) s lc) s lb
  = for_each (λ s (p : B * C), f s p.1 p.2) s (b ← lb; c ← lc; [(b, c)]).
Proof.
  revert s. induction lb as [|b lb IH]; intros s; simpl; [done|].
  rewrite for_each_app.
  assert (for_each (λ s c, f s b c) s lc
          = for_each (λ s (p : B * C), f s p.1 p.2) s (c ← lc; [(b, c)])) as ->.
  { clear IH. revert s. induction lc as [|c lc IHc]; intros s; simpl; [done|].
    destruct (f s b c); simpl; [apply IHc|done]. }
  destruct (for_each _ s _); simpl; [apply IH|done].
Qed.

(** The scan returns nothing when the list has no candidate, and otherwise
    the first candidate at the least distance. *)
Lemma nearest_scan_spec cand l st :
  for_each (nearest_step cand) (None, None) l = Some st →
  match st.2 with
  | None => st.1 = None ∧ ∀ q, q ∈ l → cand q = Some None
  | Some p => ∃ d, st.1 = Some d ∧ first_nearest cand l p d
  end.
Proof.
  revert st. induction l as [|q l IH] using rev_ind; intros st.
  - simpl. intros [= <-]. simpl. split; [done|]. by intros q ?%elem_of_nil.
  - rewrite for_each_app. simpl.
    destruct (for_each (nearest_step cand) (None, None) l) as [st0|] eqn:Hl;
      simpl; [|done].
    specialize (IH st0 eq_refl). unfold nearest_step at 1.
    destruct (cand q) as [[dq|]|] eqn:Hq; simpl; [| |done].
    + destruct st0 as [m0 [p|]]; simpl in IH.
      * destruct IH as (d & -> & l1 & l2 & -> & Hp & H1 & H2). simpl.
        case_bool_decide as Hlt; intros [= <-]; simpl.
        -- exists dq. split; [done|].
           exists (l1 ++ p :: l2), []. split_and!; [done|done| |by intros ?? ?%elem_of_nil].
           intros q' dq' [Hin|[->|Hin]%elem_of_cons]%elem_of_app Hq'.
           ++ specialize (H1 _ _ Hin Hq'). lia.
           ++ simplify_eq. lia.
           ++ specialize (H2 _ _ Hin Hq'). lia.
        -- exists d. split; [done|].
           exists l1, (l2 ++ [q]). split_and!; [by rewrite <- app_assoc|done|done|].
           intros q' dq' [Hin| ->%list_elem_of_singleton]%elem_of_app Hq'.
           ++ by eapply H2.
           ++ simplify_eq. lia.
      * destruct IH as [-> Hnone]. simpl. intros [= <-]. simpl.
        exists dq. split; [done|]. exists l, []. split_and!; try done.
        -- intros q' dq' Hin Hq'. rewrite (Hnone _ Hin) in Hq'. done.
        -- by intros ?? ?%elem_of_nil.
    + intros [= <-]. destruct st0 as [m0 [p|]]; simpl in *.
      * destruct IH as (d & -> & l1 & l2 & -> & Hp & H1 & H2).
        exists d. split; [done|].
        exists l1, (l2 ++ [q]). split_and!; [by rewrite <- app_assoc|done|done|].
        intros q' dq' [Hin| ->%list_elem_of_singleton]%elem_of_app Hq'.
        -- by eapply H2.
        -- congruence.
      * destruct IH as [-> Hnone]. split; [done|].
        intros q' [Hin| ->%list_elem_of_singleton]%elem_of_app; auto.
Qed.
End nearest.

Section nearest_cells.
Implicit Types (a : Ant.t) (w : World.t).

Lemma find_nearest_scan hit a w :
  find_nearest hit a w
  = st ← for_each (nearest_step (cell_cand hit a)) (None, None) (vision_cells a w);
    Some st.2.
Proof.
  unfold find_nearest, vision_cells. cbv zeta.
  rewrite (for_each_nested
    (λ (st : option Z * option (Z * Z)) x y,
       h ← hit x y;
       if h : bool then
         if lt_min_distance (dist2 x y (Ant.x a) (Ant.y a)) st.1
         then Some (Some (dist2 x y (Ant.x a) (Ant.y a)), Some (x, y))
         else Some st
       else Some st)).
  erewrite for_each_ext; [done|].
  intros st [x y] _. unfold nearest_step, cell_cand. simpl.
  destruct (hit x y) as [[]|]; done.
Qed.

Lemma elem_of_vision_cells a w x y :
  (x, y) ∈ vision_cells a w ↔
  is_valid_position w x y = true
  ∧ Z.abs (x - Ant.x a) ≤ config.ANT_VISION_RANGE
  ∧ Z.abs (y - Ant.y a) ≤ config.ANT_VISION_RANGE.
Proof.
  unfold vision_cells, config.ANT_VISION_RANGE. cbv zeta.
  rewrite is_valid_position_spec. split.
  - intros (x' & (y' & [= -> ->]%list_elem_of_singleton & Hy%elem_of_py_range)%list_elem_of_bind
              & Hx%elem_of_py_range)%list_elem_of_bind.
    lia.
  - intros ([??] & ? & ?). apply list_elem_of_bind. exists x.
    split; [|apply elem_of_py_range; lia].
    apply list_elem_of_bind. exists y.
    split; [by apply list_elem_of_singleton|apply elem_of_py_range; lia].
Qed.
End nearest_cells.

(** ** The nearest target in view *)

Section nearest_targets.
Implicit Types (a : Ant.t) (w : World.t) (self : ref).

Lemma find_nearest_spec hit (good : Z → Z → Prop) a w res :
  (∀ x y, ∃ b, hit x y = Some b ∧ (b = true ↔ good x y)) →
  find_nearest hit a w = Some res → nearest_in_view good a w res.
Proof.
  intros Hhit. rewrite find_nearest_scan.
  destruct (for_each _ _ _) as [st|] eqn:Hscan; simpl; [|done].
  intros [= <-]. apply nearest_scan_spec in Hscan.
  assert (∀ q d, cell_cand hit a q = Some (Some d) →
                 good q.1 q.2 ∧ d = dist2 q.1 q.2 (Ant.x a) (Ant.y a)) as Hyes.
  { intros q d. unfold cell_cand. destruct (Hhit q.1 q.2) as (b & -> & Hb). simpl.
    destruct b; [|done]. intros [= <-]. split; [by apply Hb|done]. }
  assert (∀ q, good q.1 q.2 →
            cell_cand hit a q = Some (Some (dist2 q.1 q.2 (Ant.x a) (Ant.y a)))) as Hgood.
  { intros q Hq. unfold cell_cand. destruct (Hhit q.1 q.2) as (b & -> & Hb). simpl.
    apply Hb in Hq as ->. done. }
  destruct (st.2) as [p|]; simpl.
  - destruct Hscan as (d & _ & l1 & l2 & Hl & Hp & H1 & H2).
    apply Hyes in Hp as [Hp ->]. split; [done|].
    exists l1, l2. split_and!; [done| |].
    + intros q Hq Hg. by apply (H1 q _ Hq), Hgood.
    + intros q Hq Hg. by apply (H2 q _ Hq), Hgood.
  - destruct Hscan as [_ Hnone]. intros x y Hin Hg.
    apply (Hgood (x, y)) in Hg. by rewrite (Hnone _ Hin) in Hg.
Qed.

Lemma _find_nearest_ant_scan self a w :
  _find_nearest_ant self a w
  = st ← for_each (nearest_step (ant_cand self a w)) (None, None) (World.ants w);
    Some st.2.
Proof.
  unfold _find_nearest_ant. cbv zeta. erewrite for_each_ext; [done|].
  intros st r _. unfold nearest_step, ant_cand. cbv zeta.
  case_decide; [|done].
  destruct (World.objects w !! r) as [o|]; simpl; [|done].
  destruct (Ant.alive o); simpl; [|done].
  destruct (bool_decide (_ ≤ _)); simpl; [|by rewrite andb_false_r].
  by rewrite andb_true_r.
Qed.

(** X2: on a well-formed world [_find_nearest_food] returns; it answers
    [None] exactly when no cell of the vision window holds food, and
    otherwise a cell of the window with food, the first in scan order among
    those at the least distance from the ant. *)
Theorem nearest_food_is_first_nearest a w :
  world_ok w →
  ∃ res, _find_nearest_food a w = Some res
    ∧ nearest_in_view
        (λ x y, ∃ f, get_food_at w x y = Some f ∧ (Q2Qc 0 < f)%Qc) a w res.
Proof.
  intros Hok. destruct (_find_nearest_food_total a w Hok) as [res Hres].
  exists res. split; [done|]. revert Hres. apply find_nearest_spec.
  intros x y. destruct (get_food_at_total w Hok x y) as [f Hf].
  exists (bool_decide (Q2Qc 0 < f)%Qc). rewrite Hf. split; [done|].
  rewrite bool_decide_eq_true. split.
  - intros ?. by exists f.
  - by intros (f' & [= <-] & ?).
Qed.

(** X3: on a well-formed world [_find_nearest_tunnel] returns; it answers
    [None] exactly when no cell of the vision window is a tunnel, and
    otherwise a tunnel cell of the window, the first in scan order among
    those at the least distance from the ant. *)
Theorem nearest_tunnel_is_first_nearest a w :
  world_ok w →
  ∃ res, _find_nearest_tunnel a w = Some res
    ∧ nearest_in_view (λ x y, is_tunnel w x y = Some true) a w res.
Proof.
  intros Hok. destruct (_find_nearest_tunnel_total a w Hok) as [res Hres].
  exists res. split; [done|]. revert Hres. apply find_nearest_spec.
  intros x y. destruct (is_tunnel_total w Hok x y) as [b Hb].
  exists b. rewrite Hb. split; [done|]. split; congruence.
Qed.

(** X4: on a well-formed world [_find_nearest_ant] returns; it answers
    [None] exactly when every other living ant of the list is farther than
    the vision range, and otherwise another living ant within the range, the
    first of the list among those at the least distance. *)
Theorem nearest_ant_is_first_nearest self a w :
  world_ok w →
  ∃ res, _find_nearest_ant self a w = Some res ∧ nearest_ant_in_view self a w res.
Proof.
  intros Hok. destruct (_find_nearest_ant_total self a w Hok) as [res Hres].
  exists res. split; [done|]. revert Hres. rewrite _find_nearest_ant_scan.
  destruct (for_each _ _ _) as [st|] eqn:Hscan; simpl; [|done].
  intros [= <-]. apply nearest_scan_spec in Hscan.
  set (r2 := config.ANT_VISION_RANGE * config.ANT_VISION_RANGE).
  assert (∀ q d, ant_cand self a w q = Some (Some d) →
                 other_ant self a w q d ∧ d ≤ r2) as Hyes.
  { intros q d. unfold ant_cand, other_ant. case_decide; [|done].
    destruct (World.objects w !! q) as [o|]; simpl; [|done].
    destruct (Ant.alive o) eqn:Halive; simpl; [|done].
    case_bool_decide; [|done]. intros [= <-]. split; [|done].
    split; [done|]. by exists o. }
  assert (∀ q d, other_ant self a w q d →
            ant_cand self a w q = Some (if bool_decide (d ≤ r2) then Some d else None))
    as Hother.
  { intros q d (Hne & o & Ho & Halive & ->). unfold ant_cand.
    rewrite decide_True by done. rewrite Ho. simpl. by rewrite Halive. }
  unfold nearest_ant_in_view. fold r2. destruct (st.2) as [r|]; simpl.
  - destruct Hscan as (d & _ & l1 & l2 & Hl & Hr & H1 & H2).
    apply Hyes in Hr as [Hr Hd]. exists d. split_and!; [done..|].
    exists l1, l2. split_and!; [done| |].
    + intros q dq Hq Hoq. specialize (Hother _ _ Hoq).
      case_bool_decide; [by eapply H1|lia].
    + intros q dq Hq Hoq. specialize (Hother _ _ Hoq).
      case_bool_decide; [by eapply H2|lia].
  - destruct Hscan as [_ Hnone]. intros r d Hr Hor.
    specialize (Hother _ _ Hor). rewrite (Hnone _ Hr) in Hother.
    case_bool_decide; [done|lia].
Qed.
End nearest_targets.

Section nearest_witnesses.
Lemma nearest_food_is_first_nearest_witness :
  let a := demo_ant 1 1 explore (Q2Qc 50) (Q2Qc 0) 0 in
  let w := demo_world (λ x y, if decide (y = 0 ∧ x ≠ 1) then Q2Qc 1 else Q2Qc 0) [a] in
  world_ok w
  ∧ _find_nearest_food a w = Some (Some (0, 0))
  ∧ ∃ res, _find_nearest_food a w = Some res
      ∧ nearest_in_view
          (λ x y, ∃ f, get_food_at w x y = Some f ∧ (Q2Qc 0 < f)%Qc) a w res.
Proof.
  intros a w. split_and!; [apply demo_world_ok|by vm_compute|].
  apply (nearest_food_is_first_nearest a w), demo_world_ok.
Defined.

Lemma nearest_tunnel_is_first_nearest_witness :
  let a := demo_ant 0 0 explore (Q2Qc 50) (Q2Qc 0) 0 in
  let w := demo_world (λ _ _, Q2Qc 0) [a] in
  world_ok w
  ∧ _find_nearest_tunnel a w = Some (Some (1, 1))
  ∧ ∃ res, _find_nearest_tunnel a w = Some res
      ∧ nearest_in_view (λ x y, is_tunnel w x y = Some true) a w res.
Proof.
  intros a w. split_and!; [apply demo_world_ok|by vm_compute|].
  apply (nearest_tunnel_is_first_nearest a w), demo_world_ok.
Defined.

Lemma nearest_ant_is_first_nearest_witness :
  let a := demo_ant 1 0 explore (Q2Qc 50) (Q2Qc 0) 0 in
  let b := demo_ant 0 0 explore (Q2Qc 50) (Q2Qc 0) 0 in
  let c := demo_ant 2 0 explore (Q2Qc 50) (Q2Qc 0) 0 in
  let w := demo_world (λ _ _, Q2Qc 0) [a; b; c] in
  world_ok w
  ∧ _find_nearest_ant 0%nat a w = Some (Some 1%nat)
  ∧ ∃ res, _find_nearest_ant 0%nat a w = Some res
      ∧ nearest_ant_in_view 0%nat a w res.
Proof.
  intros a b c w. split_and!; [apply demo_world_ok|by vm_compute|].
  apply (nearest_ant_is_first_nearest 0%nat a w), demo_world_ok.
Defined.
End nearest_witnesses.

Section steps.
Implicit Types (a : Ant.t) (w : World.t).


End steps.

(** ** What every run keeps *)

Section runs.
Implicit Types (w : World.t) (r : ref) (env : TickEnv) (envs : list TickEnv).

Lemma World_update_width w env w' :
  World_update w env = Some w' → World.width w' = World.width w.
Proof.
  apply (World_update_fields (λ s, World.width s = World.width w) env); try done.
  - intros self a s a' s' Hs Heff. by destruct Heff.
  - intros s s' Hs Hfood. apply _spawn_food_quiet in Hfood.
    by rewrite (quiet_width _ _ Hfood).
Qed.

Lemma run_width w envs w' : run w envs = Some w' → World.width w' = World.width w.
Proof.
  apply (run_preserves (λ s, World.width s = World.width w)); [|done].
  intros s env s' Hs Hup. apply World_update_width in Hup. congruence.
Qed.

Lemma demo_playable fd objs : playable (demo_world fd objs).
Proof. split; [apply demo_world_ok|reflexivity]. Qed.

(** X1: from a well-formed world of positive width every sequence of frames
    runs to its end, whatever the random draws and the answers of the
    decision service: no array access is out of range, no ant is removed
    twice, and the world reached is well-formed, of the same width. *)
Theorem frames_never_fail w envs :
  playable w → ∃ w', run w envs = Some w' ∧ playable w'.
Proof.
  intros [Hok Hwidth]. destruct (run_total w envs Hok) as [w' Hrun].
  exists w'. split; [done|]. split; [by eapply run_world_ok|].
  by rewrite (run_width _ _ _ Hrun).
Qed.

Lemma frames_never_fail_witness :
  let a := demo_ant 1 1 explore (Q2Qc 50) (Q2Qc 0) 0 in
  let w := demo_world (λ _ _, Q2Qc 1) [a; a] in
  playable w ∧ ∃ w', run w [demo_env; demo_env; demo_env] = Some w' ∧ playable w'.
Proof.
  intros a w. split; [apply demo_playable|].
  apply (frames_never_fail w), demo_playable.
Defined.

Lemma run_all_hold_total (Q : World.t → Ant.t → Prop) w envs :
  ant_invariant Q → playable w →
  (∀ r, r ∈ World.ants w → holds_for Q r w) →
  ∃ w', run w envs = Some w' ∧ ∀ r, r ∈ World.ants w' → holds_for Q r w'.
Proof.
  intros HQ [Hok _] Hall. destruct (run_total w envs Hok) as [w' Hrun].
  exists w'. split; [done|]. by eapply run_all_hold.
Qed.

(** X6: ants never stand on soil: when every ant of the list stands on a
    cell that [can_move_to] accepts, so does every ant of the list after any
    number of frames, the ants born meanwhile included. *)
Theorem ants_never_stand_on_soil w envs :
  playable w →
  (∀ r, r ∈ World.ants w → holds_for off_soil r w) →
  ∃ w', run w envs = Some w' ∧ ∀ r, r ∈ World.ants w' → holds_for off_soil r w'.
Proof. apply run_all_hold_total, off_soil_invariant. Qed.

Lemma ants_never_stand_on_soil_witness :
  let a := demo_ant 1 1 explore (Q2Qc 50) (Q2Qc 0) 0 in
  let w := demo_world (λ _ _, Q2Qc 0) [a] in
  playable w
  ∧ (∀ r, r ∈ World.ants w → holds_for off_soil r w)
  ∧ ∃ w', run w [demo_env; demo_env] = Some w'
      ∧ ∀ r, r ∈ World.ants w' → holds_for off_soil r w'.
Proof.
  intros a w.
  assert (∀ r, r ∈ World.ants w → holds_for off_soil r w) as Hall.
  { intros r ->%list_elem_of_singleton. exists a. split; reflexivity. }
  split_and!; [apply demo_playable|done|].
  apply (ants_never_stand_on_soil w); [apply demo_playable|done].
Defined.

(** X7: the load of an ant stays between 0 and the carrying capacity: when
    this holds of every ant of the list it holds after any number of
    frames. *)
Theorem load_stays_within_capacity w envs :
  playable w →
  (∀ r, r ∈ World.ants w → holds_for (λ _, load_ok) r w) →
  ∃ w', run w envs = Some w'
    ∧ ∀ r, r ∈ World.ants w' → holds_for (λ _, load_ok) r w'.
Proof. apply run_all_hold_total, load_ok_invariant. Qed.

Lemma load_stays_within_capacity_witness :
  let a := demo_ant 1 0 collect_food (Q2Qc 50) (Q2Qc 2) 10 in
  let w := demo_world (λ _ _, Q2Qc 5) [a] in
  playable w
  ∧ (∀ r, r ∈ World.ants w → holds_for (λ _, load_ok) r w)
  ∧ ∃ w', run w [demo_env; demo_env] = Some w'
      ∧ ∀ r, r ∈ World.ants w' → holds_for (λ _, load_ok) r w'.
Proof.
  intros a w.
  assert (∀ r, r ∈ World.ants w → holds_for (λ _, load_ok) r w) as Hall.
  { intros r ->%list_elem_of_singleton. exists a. split; [reflexivity|].
    split; by vm_compute. }
  split_and!; [apply demo_playable|done|].
  apply (load_stays_within_capacity w); [apply demo_playable|done].
Defined.

(** X8: the movement history of an ant never holds more than 20 positions:
    when this holds of every ant of the list it holds after any number of
    frames. *)
Theorem history_stays_bounded w envs :
  playable w →
  (∀ r, r ∈ World.ants w → holds_for (λ _, history_ok) r w) →
  ∃ w', run w envs = Some w'
    ∧ ∀ r, r ∈ World.ants w' → holds_for (λ _, history_ok) r w'.
Proof. apply run_all_hold_total, history_ok_invariant. Qed.

Lemma history_stays_bounded_witness :
  let a := demo_ant 1 0 explore (Q2Qc 50) (Q2Qc 0) 10 in
  let w := demo_world (λ _ _, Q2Qc 0) [a] in
  playable w
  ∧ (∀ r, r ∈ World.ants w → holds_for (λ _, history_ok) r w)
  ∧ ∃ w', run w [demo_env; demo_env] = Some w'
      ∧ ∀ r, r ∈ World.ants w' → holds_for (λ _, history_ok) r w'.
Proof.
  intros a w.
  assert (∀ r, r ∈ World.ants w → holds_for (λ _, history_ok) r w) as Hall.
  { intros r ->%list_elem_of_singleton. exists a. split; [reflexivity|].
    unfold history_ok. simpl. lia. }
  split_and!; [apply demo_playable|done|].
  apply (history_stays_bounded w); [apply demo_playable|done].
Defined.

(** X9: a living ant never has negative energy: when [max_energy] is not
    negative and the energy of the living ants is not negative, for every
    ant of the list, the same holds after any number of frames. *)
Theorem energy_never_negative w envs :
  playable w →
  (∀ r, r ∈ World.ants w → holds_for (λ _, energy_ok) r w) →
  ∃ w', run w envs = Some w'
    ∧ ∀ r, r ∈ World.ants w' → holds_for (λ _, energy_ok) r w'.
Proof. apply run_all_hold_total, energy_ok_invariant. Qed.

Lemma energy_never_negative_witness :
  let a := demo_ant 1 0 explore (Q2Qc 50) (Q2Qc 0) 10 in
  let w := demo_world (λ _ _, Q2Qc 0) [a] in
  playable w
  ∧ (∀ r, r ∈ World.ants w → holds_for (λ _, energy_ok) r w)
  ∧ ∃ w', run w [demo_env; demo_env] = Some w'
      ∧ ∀ r, r ∈ World.ants w' → holds_for (λ _, energy_ok) r w'.
Proof.
  intros a w.
  assert (∀ r, r ∈ World.ants w → holds_for (λ _, energy_ok) r w) as Hall.
  { intros r ->%list_elem_of_singleton. exists a. split; [reflexivity|].
    split; [by vm_compute|]. intros _. by vm_compute. }
  split_and!; [apply demo_playable|done|].
  apply (energy_never_negative w); [apply demo_playable|done].
Defined.
End runs.

Section counters.
Implicit Types (w : World.t) (r : ref) (env : TickEnv) (envs : list TickEnv).

(** X10: the colony never grows beyond 30 ants: a list of at most 30 ants
    has at most 30 ants after any number of frames. *)
Theorem colony_never_exceeds_thirty w envs :
  playable w → (length (World.ants w) ≤ 30)%nat →
  ∃ w', run w envs = Some w' ∧ (length (World.ants w') ≤ 30)%nat.
Proof.
  intros [Hok _] Hlen. destruct (run_total w envs Hok) as [w' Hrun].
  exists w'. split; [done|]. revert Hrun.
  apply (run_preserves (λ s, (length (World.ants s) ≤ 30)%nat)); [|done].
  intros s env s'. apply World_update_colony_cap.
Qed.

Lemma colony_never_exceeds_thirty_witness :
  let a := demo_ant 1 1 explore (Q2Qc 50) (Q2Qc 0) 0 in
  let w := demo_world (λ _ _, Q2Qc 0) [a; a] in
  playable w ∧ (length (World.ants w) ≤ 30)%nat
  ∧ ∃ w', run w [demo_env; demo_env] = Some w' ∧ (length (World.ants w') ≤ 30)%nat.
Proof.
  intros a w. split_and!; [apply demo_playable|simpl; lia|].
  apply (colony_never_exceeds_thirty w); [apply demo_playable|simpl; lia].
Defined.

(** X11: the frame counter counts the frames: after a run of [n] frames it
    is [n] higher. *)
Theorem frame_count_counts_frames w envs :
  playable w →
  ∃ w', run w envs = Some w'
    ∧ World.frame_count w' = World.frame_count w + Z.of_nat (length envs).
Proof.
  intros [Hok _]. destruct (run_total w envs Hok) as [w' Hrun].
  exists w'. split; [done|]. clear Hok. revert w Hrun. unfold run.
  induction envs as [|env envs IH]; intros w Hrun; simplify_eq/=; [lia|].
  destruct (World_update w env) as [w1|] eqn:H1; simplify_eq/=.
  apply World_update_frame_count in H1. apply IH in Hrun. lia.
Qed.

Lemma frame_count_counts_frames_witness :
  let a := demo_ant 1 1 explore (Q2Qc 50) (Q2Qc 0) 0 in
  let w := demo_world (λ _ _, Q2Qc 0) [a] in
  playable w
  ∧ ∃ w', run w [demo_env; demo_env; demo_env] = Some w'
      ∧ World.frame_count w' = World.frame_count w + Z.of_nat 3.
Proof.
  intros a w. split; [apply demo_playable|].
  apply (frame_count_counts_frames w [demo_env; demo_env; demo_env]), demo_playable.
Defined.

(** X12: the food store is never drawn from: over any number of frames it
    does not go down, and when it starts equal to the total of food
    collected it stays equal to it. *)
Theorem food_storage_never_decreases w envs :
  playable w →
  ∃ w', run w envs = Some w'
    ∧ (World.food_storage w ≤ World.food_storage w')%Qc
    ∧ (World.food_storage w = World.total_food_collected w →
       World.food_storage w' = World.total_food_collected w').
Proof.
  intros [Hok _]. destruct (run_total w envs Hok) as [w' Hrun].
  exists w'. split; [done|]. split.
  - revert Hrun.
    apply (run_preserves (λ s, (World.food_storage w ≤ World.food_storage s)%Qc));
      [|qc_lra].
    intros s env s' Hs Hup. apply World_update_food_storage in Hup as [Hle _].
    qc_lra.
  - intros Heq. revert Hrun.
    apply (run_preserves (λ s, World.food_storage s = World.total_food_collected s));
      [|done].
    intros s env s' Hs Hup. by apply World_update_food_storage in Hup as [_ ->].
Qed.

Lemma food_storage_never_decreases_witness :
  let a := demo_ant 1 1 return_home (Q2Qc 50) (Q2Qc 2) 10 in
  let w := demo_world (λ _ _, Q2Qc 0) [a] in
  playable w
  ∧ ∃ w', run w [demo_env; demo_env] = Some w'
      ∧ (World.food_storage w ≤ World.food_storage w')%Qc
      ∧ (World.food_storage w = World.total_food_collected w →
         World.food_storage w' = World.total_food_collected w').
Proof.
  intros a w. split; [apply demo_playable|].
  apply (food_storage_never_decreases w), demo_playable.
Defined.

Lemma terrain_grows_trans w1 w2 w3 :
  terrain_grows w1 w2 → terrain_grows w2 w3 → terrain_grows w1 w3.
Proof.
  intros H12 H23 k c Hc. destruct (H12 k c Hc) as [H2|[-> H2]].
  - by apply H23.
  - right. split; [done|]. by destruct (H23 k _ H2) as [?|[? _]].
Qed.

(** X13: the terrain changes one way only: over any number of frames a cell
    keeps its kind, except that soil may have become tunnel, and the count
    of tunnels dug does not go down. *)
Theorem terrain_only_turns_soil_into_tunnel w envs :
  playable w →
  ∃ w', run w envs = Some w'
    ∧ terrain_grows w w'
    ∧ World.total_tunnels_dug w ≤ World.total_tunnels_dug w'.
Proof.
  intros [Hok _]. destruct (run_total w envs Hok) as [w' Hrun].
  exists w'. split; [done|]. revert Hrun.
  apply (run_preserves
    (λ s, terrain_grows w s ∧ World.total_tunnels_dug w ≤ World.total_tunnels_dug s)).
  - intros s env s' [Hs Hn] [Hs' Hn']%World_update_terrain.
    split; [by eapply terrain_grows_trans|lia].
  - split; [apply terrain_grows_refl|lia].
Qed.

Lemma terrain_only_turns_soil_into_tunnel_witness :
  let a := demo_ant 1 2 dig_tunnel (Q2Qc 50) (Q2Qc 0) 10 in
  let w := demo_world (λ _ _, Q2Qc 0) [a] in
  playable w
  ∧ ∃ w', run w [demo_env; demo_env] = Some w'
      ∧ terrain_grows w w'
      ∧ World.total_tunnels_dug w ≤ World.total_tunnels_dug w'.
Proof.
  intros a w. split; [apply demo_playable|].
  apply (terrain_only_turns_soil_into_tunnel w), demo_playable.
Defined.

(** X15: food is never negative: when no cell holds a negative amount and
    the amounts rolled for new food are not negative, no cell holds a
    negative amount after any number of frames. *)
Theorem food_never_negative w envs :
  playable w → food_nonneg w → Forall roll_nonneg envs →
  ∃ w', run w envs = Some w' ∧ food_nonneg w'.
Proof.
  intros [Hok _] Hfood Hrolls. destruct (run_total w envs Hok) as [w' Hrun].
  exists w'. split; [done|]. revert Hrun. unfold run.
  apply (for_each_inv food_nonneg); [|done].
  intros s env s' Henv Hs. apply World_update_food_nonneg; [|done].
  rewrite list.Forall_forall in Hrolls. exact (Hrolls env Henv).
Qed.

Lemma food_never_negative_witness :
  let a := demo_ant 1 0 collect_food (Q2Qc 50) (Q2Qc 0) 10 in
  let w := demo_world (λ _ _, Q2Qc 2) [a] in
  let env := mkTickEnv (ant_env demo_env) (Some (0, 0, Q2Qc 1)) 0 in
  playable w ∧ food_nonneg w ∧ Forall roll_nonneg [env; demo_env]
  ∧ ∃ w', run w [env; demo_env] = Some w' ∧ food_nonneg w'.
Proof.
  intros a w env.
  assert (food_nonneg w) as Hfood.
  { intros [x y] f ->%grid_lookup_Some. by vm_compute. }
  assert (Forall roll_nonneg [env; demo_env]) as Hrolls.
  { repeat constructor.
    - intros x y amount [= _ _ <-]. by vm_compute.
    - by intros x y amount. }
  split_and!; [apply demo_playable|done..|].
  apply (food_never_negative w); [apply demo_playable|done..].
Defined.
End counters.

Section store.
Context (Q : World.t → Ant.t → Prop) (HQ : ant_invariant Q).
Implicit Types (w : World.t) (r : ref) (env : TickEnv).

Lemma ant_turn_all_hold env w r w' :
  all_hold Q w → ant_turn env w r = Some w' → all_hold Q w'.
Proof.
  intros Hall Hturn r0 o Ho.
  assert (is_Some (World.objects w !! r0)) as [o0 Ho0].
  { pose proof (ant_turn_inv _ _ _ _ Hturn)
      as (a & a' & w1 & Ha & _ & Hstep & Hobj & _).
    destruct (decide (r0 = r)) as [->|Hne]; [by eexists|].
    rewrite Hobj, lookup_insert_ne in Ho by done.
    destruct (step_objects _ _ _ Hstep r0) as [Heq|(_ & _ & o1 & ? & _)];
      [rewrite <- Heq; by eexists|by eexists]. }
  destruct (ant_turn_holds_for Q HQ env w r w' r0) as (o' & Ho' & HQo');
    [exists o0; split; [done|by eapply Hall]|done|].
  by simplify_eq.
Qed.

Lemma _spawn_food_all_hold env w w' :
  all_hold Q w → _spawn_food w env = Some w' → all_hold Q w'.
Proof.
  intros Hall Hfood r0 o Ho.
  pose proof (_spawn_food_quiet _ _ _ Hfood) as Hq.
  rewrite (quiet_objects _ _ Hq) in Ho.
  eapply _spawn_food_keeps; [done..|]. by eapply Hall.
Qed.

Lemma _check_colony_growth_all_hold env w w' :
  all_hold Q w → _check_colony_growth w env = Some w' → all_hold Q w'.
Proof.
  intros Hall Hgrow r0 o Ho.
  apply _check_colony_growth_effect in Hgrow
    as [->|(_ & _ & _ & x & y & Hv & Ht & ->)]; [by eapply Hall|].
  simpl in Ho. apply lookup_insert_Some in Ho as [[_ <-]|[_ Ho]].
  - eapply (inv_ground Q HQ); [..|by apply (inv_born Q HQ)]; done.
  - eapply (inv_ground Q HQ); [..|by eapply Hall]; done.
Qed.
End store.

Section digging.
Implicit Types (w : World.t) (r : ref) (env : TickEnv) (envs : list TickEnv).

(** An ant that is not on soil does not dig: its update leaves the terrain
    and the count of tunnels as they are. *)
Lemma Ant_update_off_soil self a w (aenv : AntEnv) a' w' :
  off_soil w a → Ant_update self a w aenv = Some (a', w') →
  World.terrain w' = World.terrain w
  ∧ World.total_tunnels_dug w' = World.total_tunnels_dug w.
Proof.
  intros Hoff Hup.
  apply Ant_update_effect in Hup as [->|(a1 & a2 & Heff & Hx & Hy)]; [done|].
  apply can_move_to_true in Hoff as (_ & c & Hc & Hne).
  destruct Heff; try done. rewrite Hx, Hy in *. congruence.
Qed.

Lemma World_update_no_dig w0 w env w' :
  World.terrain w = World.terrain w0
  ∧ World.total_tunnels_dug w = World.total_tunnels_dug w0
  ∧ all_hold off_soil w →
  World_update w env = Some w' →
  World.terrain w' = World.terrain w0
  ∧ World.total_tunnels_dug w' = World.total_tunnels_dug w0
  ∧ all_hold off_soil w'.
Proof.
  apply (World_update_phases
    (λ s, World.terrain s = World.terrain w0
          ∧ World.total_tunnels_dug s = World.total_tunnels_dug w0
          ∧ all_hold off_soil s)).
  - intros s n (? & ? & Hall). split_and!; [done..|].
    intros r o Ho. by apply (Hall r o).
  - intros env0 s r s' (Ht & Hn & Hall) Hturn.
    split_and!; [| |by eapply ant_turn_all_hold; [apply off_soil_invariant|..]].
    + apply ant_turn_effect in Hturn as (a & a' & w1 & Ha & Hup & Hs').
      apply Ant_update_off_soil in Hup as [Ht1 _]; [|by eapply Hall].
      destruct Hs' as [[_ ->]|(_ & l & _ & ->)]; simpl; congruence.
    + apply ant_turn_effect in Hturn as (a & a' & w1 & Ha & Hup & Hs').
      apply Ant_update_off_soil in Hup as [_ Hn1]; [|by eapply Hall].
      destruct Hs' as [[_ ->]|(_ & l & _ & ->)]; simpl; congruence.
  - intros env0 s s' (Ht & Hn & Hall) Hfood.
    pose proof (spawn_food_fields _ _ _ Hfood) as (-> & _ & _ & ->).
    split_and!; [done..|]. by eapply _spawn_food_all_hold; [apply off_soil_invariant|..].
  - intros s pf ph (? & ? & Hall). split_and!; [done..|].
    intros r o Ho. by apply (Hall r o).
  - intros env0 s s' (Ht & Hn & Hall) Hgrow.
    split_and!;
      [| |by eapply _check_colony_growth_all_hold; [apply off_soil_invariant|..]].
    + apply _check_colony_growth_effect in Hgrow
        as [->|(_ & _ & _ & x & y & _ & _ & ->)]; done.
    + apply _check_colony_growth_effect in Hgrow
        as [->|(_ & _ & _ & x & y & _ & _ & ->)]; done.
Qed.

Lemma run_no_dig w envs w' :
  all_hold off_soil w → run w envs = Some w' →
  World.terrain w' = World.terrain w
  ∧ World.total_tunnels_dug w' = World.total_tunnels_dug w
  ∧ all_hold off_soil w'.
Proof.
  intros Hall.
  apply (run_preserves
    (λ s, World.terrain s = World.terrain w
          ∧ World.total_tunnels_dug s = World.total_tunnels_dug w
          ∧ all_hold off_soil s)); [|done].
  intros s env s'. apply World_update_no_dig.
Qed.


End digging.

Section births.
Implicit Types (w : World.t) (r : ref) (env : TickEnv).

(** X16: a frame adds at most one ant to the list, and only in a frame
    whose number is a multiple of 1800, with more than 50 food in store and
    room under the cap of 30: the newcomer is the last of the list, a fresh
    ant as [Ant.__init__] makes it, numbered by the length of the list
    before, and it stands on a tunnel cell of the grid. *)
Theorem colony_grows_by_one_ant w env :
  playable w →
  ∃ w', World_update w env = Some w'
    ∧ ∀ r, r ∈ World.ants w' → r ∉ World.ants w →
      (World.frame_count w + 1) `mod` 1800 = 0
      ∧ (Q2Qc 50 < World.food_storage w')%Qc
      ∧ (length (World.ants w') ≤ 30)%nat
      ∧ ∃ l x y, World.ants w' = l ++ [r]
          ∧ (∀ r', r' ∈ l → r' ∈ World.ants w)
          ∧ World.objects w' !! r = Some (Ant.__init__ x y (Z.of_nat (length l)))
          ∧ is_valid_position w' x y = true
          ∧ World.terrain w' !! (x, y) = Some Tunnel.
Proof.
  intros [Hok _]. destruct (World_update_total w env Hok) as [w' Hrun].
  exists w'. split; [done|]. intros r Hr Hnew.
  pose proof (World_update_frame_count _ _ _ Hrun) as Hfc.
  unfold World_update in Hrun. cbv zeta in Hrun.
  destruct (for_each (ant_turn env) _ _) as [w1|] eqn:H1; simplify_eq/=.
  destruct (_spawn_food w1 env) as [w2|] eqn:H2; simplify_eq/=.
  destruct (_update_pheromones w2) as [w3|] eqn:H3; simplify_eq/=.
  assert (∀ r', r' ∈ World.ants w1 → r' ∈ World.ants w) as Hsub.
  { revert H1.
    apply (for_each_inv (λ s, ∀ r', r' ∈ World.ants s → r' ∈ World.ants w));
      [|done].
    intros s r0 s' _ Hs Hturn r' Hr'. apply Hs. by eapply ant_turn_ants. }
  apply _spawn_food_quiet in H2.
  apply _update_pheromones_effect in H3 as (pf & ph & ->).
  apply _check_colony_growth_effect in Hrun
    as [->|(Hstore & Hlen & Hmod & x & y & Hv & Ht & ->)].
  - simpl in Hr. rewrite (quiet_ants _ _ H2) in Hr. by apply Hsub in Hr.
  - simpl in *. rewrite (quiet_ants _ _ H2) in *.
    apply elem_of_app in Hr as [Hr%Hsub|Hr%list_elem_of_singleton]; [done|].
    subst r. split_and!.
    + by rewrite <- Hfc.
    + done.
    + rewrite length_app. simpl. lia.
    + exists (World.ants w1), x, y. rewrite lookup_insert_eq.
      split_and!; done.
Qed.

Lemma colony_grows_by_one_ant_witness :
  let a := demo_ant 1 1 rest (Q2Qc 50) (Q2Qc 0) 10 in
  let w := World.set_frame_count 1799
             (World.set_food_storage (Q2Qc 60) (Q2Qc 60)
                (demo_world (λ _ _, Q2Qc 0) [a])) in
  playable w
  ∧ (∃ w', World_update w demo_env = Some w' ∧ length (World.ants w') = 2%nat)
  ∧ ∃ w', World_update w demo_env = Some w'
    ∧ ∀ r, r ∈ World.ants w' → r ∉ World.ants w →
      (World.frame_count w + 1) `mod` 1800 = 0
      ∧ (Q2Qc 50 < World.food_storage w')%Qc
      ∧ (length (World.ants w') ≤ 30)%nat
      ∧ ∃ l x y, World.ants w' = l ++ [r]
          ∧ (∀ r', r' ∈ l → r' ∈ World.ants w)
          ∧ World.objects w' !! r = Some (Ant.__init__ x y (Z.of_nat (length l)))
          ∧ is_valid_position w' x y = true
          ∧ World.terrain w' !! (x, y) = Some Tunnel.
Proof.
  intros a w.
  assert (playable w) as Hok.
  { split; [|reflexivity]. destruct (demo_world_ok (λ _ _, Q2Qc 0) [a]). by split. }
  split_and!; [done| |by apply (colony_grows_by_one_ant w demo_env)].
  destruct (World_update_total w demo_env (proj1 Hok)) as [w' Hw'].
  exists w'. split; [done|]. revert Hw'. vm_compute. by intros [= <-].
Defined.
End births.

(** ** The constructor *)

Section constructor_terrain.
Implicit Types (w : World.t).

Lemma np_fill_rows_lookup {A} (arr : gmap (Z * Z) A) lo hi v k :
  np_fill_rows arr lo hi v !! k
  = (λ c, if decide (lo ≤ k.2 < hi) then v else c) <$> arr !! k.
Proof.
  unfold np_fill_rows. rewrite map_lookup_imap.
  by destruct (arr !! k).
Qed.

Lemma for_each_fmap {S B C} (f : S → C → option S) (g : B → C) (s : S) (l : list B) :
  for_each f s (g <$> l) = for_each (λ s i, f s (g i)) s l.
Proof.
  revert s. induction l as [|i l IH]; intros s; simpl; [done|].
  destruct (f s (g i)); simpl; [apply IH|done].
Qed.

Lemma same_but_terrain_refl w : same_but_terrain w w.
Proof. unfold same_but_terrain. by destruct w. Qed.

Lemma same_but_terrain_valid w w' x y :
  same_but_terrain w w' → is_valid_position w' x y = is_valid_position w x y.
Proof. intros ->. done. Qed.

Lemma carve_step w x y :
  has_shape w (World.terrain w) →
  ∃ w', carve w x y = Some w'
    ∧ same_but_terrain w w'
    ∧ has_shape w' (World.terrain w')
    ∧ ∀ x' y', is_valid_position w x' y' = true →
        World.terrain w' !! (x', y')
        = if decide ((x', y') = (x, y)) then Some Tunnel
          else World.terrain w !! (x', y').
Proof.
  intros Hshape. unfold carve, np_set.
  destruct (is_valid_position w x y) eqn:Hv.
  - destruct (Hshape x y Hv) as [c ->]. simpl. eexists. split_and!; [done|..].
    + unfold same_but_terrain. by destruct w.
    + intros x' y' Hxy. simpl. destruct (decide ((x, y) = (x', y'))) as [->|].
      * rewrite lookup_insert_eq. by eexists.
      * rewrite lookup_insert_ne by done. by apply Hshape.
    + intros x' y' Hxy. simpl. case_decide as Heq.
      * by rewrite Heq, lookup_insert_eq.
      * by rewrite lookup_insert_ne.
  - exists w. split_and!; [done|apply same_but_terrain_refl|done|].
    intros x' y' Hxy. case_decide as Heq; [|done]. congruence.
Qed.

(** Carving a list of cells turns those on the grid into tunnel and leaves
    the rest of the world alone. *)
Lemma carve_cells w (L : list (Z * Z)) :
  has_shape w (World.terrain w) →
  ∃ w', for_each (λ w p, carve w p.1 p.2) w L = Some w'
    ∧ same_but_terrain w w'
    ∧ ∀ x y, is_valid_position w x y = true →
        World.terrain w' !! (x, y)
        = if decide ((x, y) ∈ L) then Some Tunnel else World.terrain w !! (x, y).
Proof.
  revert w. induction L as [|[px py] L IH]; intros w Hshape.
  - exists w. split_and!; [done|apply same_but_terrain_refl|].
    intros x y _. destruct (decide ((x, y) ∈ [])) as [Hin|_]; [|done].
    by apply elem_of_nil in Hin.
  - destruct (carve_step w px py Hshape) as (w1 & Hc & Hsame1 & Hshape1 & Hcell1).
    destruct (IH w1 Hshape1) as (w' & Hrun & Hsame & Hcells).
    exists w'. split_and!.
    + change (for_each ?b w ((px, py) :: L))
        with (s' ← carve w px py; for_each b s' L). by rewrite Hc.
    + unfold same_but_terrain in *. rewrite Hsame, Hsame1. by destruct w.
    + intros x y Hxy.
      rewrite (Hcells x y) by (by rewrite (same_but_terrain_valid w w1)).
      rewrite (Hcell1 x y Hxy).
      destruct (decide ((x, y) ∈ L)) as [Hin|Hin],
               (decide ((x, y) ∈ (px, py) :: L)) as [Hin'|Hin'],
               (decide ((x, y) = (px, py))) as [Heq|Hne]; try done.
      * exfalso. apply Hin'. by right.
      * exfalso. apply Hin'. by right.
      * apply elem_of_cons in Hin' as [?|?]; done.
      * exfalso. apply Hin'. rewrite Heq. by left.
Qed.
End constructor_terrain.

Section constructor_terrain_spec.
Implicit Types (w : World.t).

Lemma elem_of_cells (xs ys : list Z) x y :
  (x, y) ∈ (a ← xs; b ← ys; [(a, b)]) ↔ x ∈ xs ∧ y ∈ ys.
Proof.
  rewrite list_elem_of_bind. split.
  - intros (a & (b & [= -> ->]%list_elem_of_singleton & Hb)%list_elem_of_bind & Ha).
    done.
  - intros [Hx Hy]. exists x. split; [|done]. apply list_elem_of_bind.
    exists y. split; [by apply list_elem_of_singleton|done].
Qed.

(** The terrain [_generate_initial_terrain] leaves: tunnel in the chamber
    and the shaft, air above the ground level, soil elsewhere. *)
Lemma _generate_initial_terrain_spec w :
  has_shape w (World.terrain w) →
  ∃ w', _generate_initial_terrain w = Some w'
    ∧ same_but_terrain w w'
    ∧ ∀ x y, is_valid_position w x y = true →
        World.terrain w' !! (x, y) =
          Some (if decide (in_chamber (World.width w) (World.height w) x y) then Tunnel
                else if decide (y < World.height w `div` 4) then Air else Soil).
Proof.
  intros Hshape. unfold _generate_initial_terrain. cbv zeta.
  set (g := World.height w `div` 4).
  set (w2 := World.set_terrain _ (World.set_terrain _ w)).
  assert (same_but_terrain w w2) as Hsame2.
  { unfold same_but_terrain. subst w2. by destruct w. }
  assert (∀ x y, is_valid_position w x y = true →
            World.terrain w2 !! (x, y) = Some (if decide (y < g) then Air else Soil))
    as Hfill.
  { intros x y Hxy. subst w2. simpl. rewrite !np_fill_rows_lookup.
    destruct (Hshape x y Hxy) as [c ->]. simpl.
    apply is_valid_position_spec in Hxy as [_ Hy].
    repeat case_decide; try done; lia. }
  assert (has_shape w2 (World.terrain w2)) as Hshape2.
  { intros x y Hxy. rewrite (same_but_terrain_valid w w2) in Hxy by done.
    rewrite (Hfill x y Hxy). by eexists. }
  rewrite (for_each_nested (λ w x y, carve w x y)).
  change (World.width w2) with (World.width w).
  set (cx := World.width w `div` 2).
  match goal with |- context [for_each _ w2 ?L] => set (L1 := L) end.
  destruct (carve_cells w2 L1 Hshape2) as (w3 & -> & Hsame3 & Hcells3).
  simpl.
  assert (has_shape w3 (World.terrain w3)) as Hshape3.
  { intros x y Hxy. rewrite (same_but_terrain_valid w2 w3) in Hxy by done.
    rewrite (Hcells3 x y Hxy). case_decide; [by eexists|by apply Hshape2]. }
  set (L2 := (λ y, (cx, y)) <$> py_range g (g + config2.STARTING_CHAMBER_SIZE)).
  destruct (carve_cells w3 L2 Hshape3) as (w4 & Hrun4 & Hsame4 & Hcells4).
  subst L2. rewrite for_each_fmap in Hrun4. simpl in Hrun4.
  exists w4. split_and!; [done| |].
  - unfold same_but_terrain in *. rewrite Hsame4, Hsame3, Hsame2. by destruct w.
  - intros x y Hxy.
    rewrite (Hcells4 x y)
      by (by rewrite (same_but_terrain_valid w2 w3), (same_but_terrain_valid w w2)).
    rewrite (Hcells3 x y) by (by rewrite (same_but_terrain_valid w w2)).
    rewrite (Hfill x y Hxy).
    assert ((x, y) ∈ L1 ∨ (x, y) ∈ (λ y, (cx, y)) <$> py_range g (g + config2.STARTING_CHAMBER_SIZE)
            ↔ in_chamber (World.width w) (World.height w) x y) as Hin.
    { subst L1. rewrite elem_of_cells, !elem_of_py_range, list_elem_of_fmap.
      unfold in_chamber, config2.STARTING_CHAMBER_SIZE. cbv zeta.
      change (10 `div` 2) with 5. fold g cx. split.
      - intros [[??]|(y' & [= -> ->] & Hy%elem_of_py_range)]; [left; lia|right; lia].
      - intros [[??]|[-> ?]]; [left; lia|].
        right. exists y. split; [done|]. apply elem_of_py_range. lia. }
    repeat case_decide; try done; tauto.
Qed.
End constructor_terrain_spec.

Section constructor_food.
Implicit Types (w : World.t) (env : InitEnv).

Lemma _spawn_initial_food_spec w env :
  0 < World.width w → has_shape w (World.terrain w) → has_shape w (World.food w) →
  ∃ w', _spawn_initial_food w env = Some w'
    ∧ w' = World.set_food (World.food w') w
    ∧ has_shape w' (World.food w')
    ∧ (food_on_air w → food_on_air w')
    ∧ ((∀ i, (Q2Qc 0 ≤ (initial_food_roll env i).2)%Qc) → food_nonneg w → food_nonneg w').
Proof.
  intros Hwidth Hterrain Hfood. unfold _spawn_initial_food.
  apply (for_each_total
    (λ s, s = World.set_food (World.food s) w
          ∧ has_shape s (World.food s)
          ∧ (food_on_air w → food_on_air s)
          ∧ ((∀ i, (Q2Qc 0 ≤ (initial_food_roll env i).2)%Qc) →
             food_nonneg w → food_nonneg s))).
  - intros s i _ (Hs & Hshape & Hair & Hnn).
    assert (World.width s = World.width w) as Hw by (by rewrite Hs).
    assert (World.terrain s = World.terrain w) as Ht by (by rewrite Hs).
    assert (∀ x y, is_valid_position s x y = is_valid_position w x y) as Hvalid
      by (by rewrite Hs).
    rewrite decide_False by lia.
    destruct (initial_food_roll env i) as [[x y] amount] eqn:Hroll.
    destruct (is_valid_position s x y) eqn:Hv; [|by eauto 10].
    unfold np_get, np_set. rewrite Ht.
    destruct (Hterrain x y) as [c Hc]; [by rewrite <- Hvalid|]. rewrite Hc. simpl.
    case_decide as Hair'; [|by eauto 10]. subst c.
    destruct (Hshape x y Hv) as [f Hf]. rewrite Hf. simpl.
    eexists. split; [done|]. split_and!.
    + rewrite Hs. by destruct w.
    + intros x' y' Hxy. simpl. destruct (decide ((x, y) = (x', y'))) as [->|].
      * rewrite lookup_insert_eq. by eexists.
      * rewrite lookup_insert_ne by done. by apply Hshape.
    + intros Hw0 k v. simpl. rewrite Ht.
      intros [[<- _]|[_ Hk]]%lookup_insert_Some Hv0; [done|].
      specialize (Hair Hw0 k v Hk Hv0). by rewrite Ht in Hair.
    + intros Hrolls Hw0 k v. simpl.
      intros [[_ <-]|[_ Hk]]%lookup_insert_Some; [|by eapply Hnn].
      specialize (Hnn Hrolls Hw0 _ _ Hf). specialize (Hrolls i).
      rewrite Hroll in Hrolls. simpl in Hrolls. qc_lra.
  - split_and!; [by destruct w|done..].
Qed.

Lemma _spawn_initial_food_raises w env :
  World.width w ≤ 0 → _spawn_initial_food w env = None.
Proof.
  intros Hw. unfold _spawn_initial_food. simpl. by rewrite decide_True.
Qed.
End constructor_food.

Section constructor_ants.
Implicit Types (w : World.t) (env : InitEnv) (placed : Z → Z → Prop).

Lemma for_each_grows {A S} (m : S → nat) (body : S → A → option S) l s s' :
  (∀ s i s', body s i = Some s' → (m s' ≤ m s + 1)%nat) →
  for_each body s l = Some s' → (m s' ≤ m s + length l)%nat.
Proof.
  intros Hb. revert s. induction l as [|i l IH]; intros s Hrun; simplify_eq/=; [lia|].
  destruct (body s i) as [s1|] eqn:Hi; simplify_eq/=.
  apply Hb in Hi. apply IH in Hrun. lia.
Qed.

Lemma for_each_skip {A S} (body : S → A → option S) l s :
  (∀ i, i ∈ l → body s i = Some s) → for_each body s l = Some s.
Proof.
  induction l as [|i l IH]; intros Hb; simpl; [done|].
  rewrite Hb by (by left). simpl. apply IH. intros j Hj. apply Hb. by right.
Qed.

(** What differs between two worlds is the list and the store of ants. *)
Lemma same_but_ants_refl w :
  w = World.set_ants (World.ants w) (World.set_objects (World.objects w) w).
Proof. by destruct w. Qed.

Lemma append_ant_colony placed w x y :
  new_colony placed w → placed x y →
  new_colony placed
    (append_ant w (Ant.__init__ x y (Z.of_nat (length (World.ants w))))).
Proof.
  intros [Hlisted Hnodup Hants] Hxy. unfold append_ant. cbv zeta.
  set (r := fresh (dom (World.objects w))).
  assert (World.objects w !! r = None) as Hfresh.
  { apply not_elem_of_dom, is_fresh. }
  assert (r ∉ World.ants w) as Hr.
  { intros [o Ho]%Hlisted. congruence. }
  split; simpl.
  - intros r'. rewrite elem_of_app, list_elem_of_singleton, Hlisted.
    destruct (decide (r' = r)) as [->|Hne].
    + rewrite lookup_insert_eq. split; [by eexists|by right].
    + rewrite lookup_insert_ne by done. split; [by intros [?|?]|by left].
  - apply list.NoDup_app. split_and!; [done| |apply NoDup_singleton].
    intros r' Hin ->%list_elem_of_singleton. done.
  - intros i r'. rewrite lookup_app.
    destruct (World.ants w !! i) as [r0|] eqn:Hi.
    + intros [= <-]. destruct (Hants i r0 Hi) as (x0 & y0 & Ho & Hp).
      exists x0, y0. split; [|done]. rewrite lookup_insert_ne; [done|].
      intros <-. apply Hr. by eapply list_elem_of_lookup_2.
    + apply lookup_ge_None in Hi.
      intros [Hi' <-]%list_lookup_singleton_Some.
      exists x, y. rewrite lookup_insert_eq. split; [|done].
      do 3 f_equal. lia.
Qed.

(** The fallback loop of [_create_initial_ants]. *)
Lemma fallback_ants_spec placed w cx cy k :
  new_colony placed w → placed cx cy →
  ∃ w', for_each (λ w i, Some (append_ant w (Ant.__init__ cx cy (Z.of_nat i)))) w
          (seq (length (World.ants w)) k) = Some w'
    ∧ w' = World.set_ants (World.ants w') (World.set_objects (World.objects w') w)
    ∧ new_colony placed w'
    ∧ length (World.ants w') = (length (World.ants w) + k)%nat.
Proof.
  intros Hcol Hp. revert w Hcol. induction k as [|k IH]; intros w Hcol; simpl.
  - exists w. split_and!; [done|apply same_but_ants_refl|done|lia].
  - set (w1 := append_ant w (Ant.__init__ cx cy (Z.of_nat (length (World.ants w))))).
    destruct (IH w1) as (w' & Hrun & Hsame & Hcol' & Hlen).
    { by apply append_ant_colony. }
    assert (length (World.ants w1) = S (length (World.ants w))) as Hlen1.
    { subst w1. simpl. rewrite length_app. simpl. lia. }
    rewrite Hlen1 in Hrun. exists w'. split_and!; [done| |done|lia].
    rewrite Hsame. subst w1. by destruct w.
Qed.

Lemma empty_colony placed w :
  World.ants w = [] → World.objects w = ∅ → new_colony placed w.
Proof.
  intros Hl Ho. split.
  - intros r. rewrite Hl, Ho, lookup_empty. split; [by intros ?%elem_of_nil|].
    by intros [? ?].
  - rewrite Hl. constructor.
  - intros i r. by rewrite Hl.
Qed.

(** [_create_initial_ants] on a world without ants: between 1 and 12 ants,
    each on a tunnel cell of the grid or, when no draw hit a tunnel, all 12
    at the centre of the chamber. *)
Lemma _create_initial_ants_spec w env :
  has_shape w (World.terrain w) → World.ants w = [] → World.objects w = ∅ →
  let cx := World.width w `div` 2 in
  let cy := World.height w `div` 4 + config2.STARTING_CHAMBER_SIZE in
  ∃ w', _create_initial_ants w env = Some w'
    ∧ w' = World.set_ants (World.ants w') (World.set_objects (World.objects w') w)
    ∧ (1 ≤ length (World.ants w') ≤ 12)%nat
    ∧ new_colony (λ x y,
        (is_valid_position w x y = true ∧ World.terrain w !! (x, y) = Some Tunnel)
        ∨ (x = cx ∧ y = cy)) w'.
Proof.
  intros Hterrain Hl Ho cx cy. unfold _create_initial_ants. cbv zeta. fold cx cy.
  set (placed := λ x y,
        (is_valid_position w x y = true ∧ World.terrain w !! (x, y) = Some Tunnel)
        ∨ (x = cx ∧ y = cy)).
  match goal with
  | |- context [for_each ?b w ?l] =>
      destruct (for_each_total
        (λ s, s = World.set_ants (World.ants s) (World.set_objects (World.objects s) w)
              ∧ new_colony placed s) b l w) as (w1 & Hrun1 & Hsame1 & Hcol1);
      [| |pose proof (for_each_grows (λ s, length (World.ants s)) b l w w1) as Hlen1]
  end.
  - intros s i _ [Hs Hcol].
    assert (∀ x y, is_valid_position s x y = is_valid_position w x y) as Hvalid
      by (by rewrite Hs).
    assert (World.terrain s = World.terrain w) as Ht by (by rewrite Hs).
    assert (World.width s = World.width w) as Hw by (by rewrite Hs).
    assert (World.height s = World.height w) as Hh by (by rewrite Hs).
    destruct (initial_ant_offset env i) as [ox oy].
    destruct (is_valid_position s (cx + ox) (cy + oy)) eqn:Hv; [|by eauto].
    unfold np_get. rewrite Ht.
    destruct (Hterrain (cx + ox) (cy + oy)) as [c Hc]; [by rewrite <- Hvalid|].
    rewrite Hc. simpl. case_decide as Htun; [|by eauto]. subst c.
    eexists. split; [done|]. split.
    + rewrite Hs. unfold append_ant. by destruct w.
    + apply append_ant_colony; [done|]. left. by rewrite <- Hvalid.
  - split; [apply same_but_ants_refl|]. by apply empty_colony.
  - rewrite Hrun1. simpl.
    assert (length (World.ants w1) ≤ 12)%nat as Hle.
    { cbv beta in Hlen1. rewrite Hl in Hlen1. simpl in Hlen1. apply Hlen1; [|done].
      intros s i s' Hbody. destruct (initial_ant_offset env i) as [ox oy].
      destruct (is_valid_position s _ _); simplify_eq; [|lia].
      destruct (np_get _ _ _); simplify_eq/=. case_decide; simplify_eq; [|lia].
      simpl. rewrite length_app. simpl. lia. }
    assert (World.width w1 = World.width w) as Hw by (by rewrite Hsame1).
    assert (World.height w1 = World.height w) as Hh by (by rewrite Hsame1).
    case_decide as Hnone.
    + destruct (fallback_ants_spec placed w1 cx cy 12 Hcol1) as (w' & Hrun & Hsame & Hcol & Hlen).
      { by right. }
      rewrite Hnone in Hrun, Hlen.
      exists w'. split_and!; [done| |lia|lia|done].
      rewrite Hsame, Hsame1. by destruct w.
    + exists w1. split_and!; [done|done|lia|lia|done].
Qed.
End constructor_ants.

Section constructor.
Implicit Types (w : World.t) (env : InitEnv).

Lemma np_full_shape {A} w (v : A) :
  has_shape w (np_full (World.width w) (World.height w) v).
Proof.
  intros x y [??]%is_valid_position_spec. unfold np_full.
  rewrite grid_lookup by done. by eexists.
Qed.

(** The world the constructor hands to [_create_initial_ants]. *)
Lemma World__init__before_ants width height env :
  0 < width → 0 ≤ height →
  ∃ w, World__init__ width height env = _create_initial_ants w env
    ∧ World.width w = width ∧ World.height w = height
    ∧ World.ants w = [] ∧ World.objects w = ∅
    ∧ fresh_world w ∧ food_on_air w
    ∧ ((∀ i, (Q2Qc 0 ≤ (initial_food_roll env i).2)%Qc) → food_nonneg w).
Proof.
  intros Hwidth Hheight. unfold World__init__.
  rewrite decide_False by lia. cbv zeta.
  set (w0 := World.mk _ _ _ _ _ _ _ _ _ _ _ _).
  destruct (_generate_initial_terrain_spec w0) as (w1 & -> & Hsame1 & Hcells1).
  { apply (np_full_shape w0). }
  simpl. unfold same_but_terrain in Hsame1.
  assert (has_shape w1 (World.terrain w1)) as Hshape1.
  { intros x y Hxy. rewrite Hsame1 in Hxy. rewrite (Hcells1 x y Hxy). by eexists. }
  destruct (_spawn_initial_food_spec w1 env) as (w2 & -> & Hsame2 & Hshape2 & Hair & Hnn).
  { by rewrite Hsame1. }
  { done. }
  { rewrite Hsame1. apply (np_full_shape w0). }
  simpl. exists w2.
  assert (World.width w2 = width ∧ World.height w2 = height
          ∧ World.ants w2 = [] ∧ World.objects w2 = ∅
          ∧ World.terrain w2 = World.terrain w1
          ∧ World.pheromone_food w2 = np_full width height (Q2Qc 0)
          ∧ World.pheromone_home w2 = np_full width height (Q2Qc 0)
          ∧ World.food_storage w2 = Q2Qc 0 ∧ World.total_food_collected w2 = Q2Qc 0
          ∧ World.total_tunnels_dug w2 = 0 ∧ World.frame_count w2 = 0
          ∧ World.food w1 = np_full width height (Q2Qc 0))
    as (Hw & Hh & Hl & Ho & Ht & Hpf & Hph & Hc1 & Hc2 & Hc3 & Hc4 & Hf1).
  { rewrite Hsame2, Hsame1. by split_and!. }
  assert (∀ x y, is_valid_position w2 x y = is_valid_position w0 x y) as Hvalid.
  { intros x y. unfold is_valid_position. by rewrite Hw, Hh. }
  split_and!; try done.
  - split.
    + intros x y Hxy. rewrite Hw, Hh, Ht. apply (Hcells1 x y). by rewrite <- Hvalid.
    + done.
    + intros x y Hxy. rewrite Hpf. apply (np_full_shape w0). by rewrite <- Hvalid.
    + intros x y Hxy. rewrite Hph. apply (np_full_shape w0). by rewrite <- Hvalid.
    + done.
  - apply Hair. intros [x y] f Hk Hf. rewrite Hf1 in Hk.
    by apply grid_lookup_Some in Hk.
  - intros Hrolls. apply Hnn; [done|].
    intros [x y] f Hk. rewrite Hf1 in Hk.
    apply grid_lookup_Some in Hk as ->. by vm_compute.
Qed.

Lemma new_colony_world_ok placed w :
  fresh_world w → new_colony placed w → world_ok w ∧ all_alive w.
Proof.
  intros [Hterrain Hfood Hpf Hph _] [Hlisted Hnodup Hants]. split; [split; try done|].
  - intros x y Hxy. rewrite (Hterrain x y Hxy). by eexists.
  - intros r Hr. by apply Hlisted.
  - intros r [i Hi]%list_elem_of_lookup.
    destruct (Hants i r Hi) as (x & y & Ho & _). by eexists.
Qed.

Lemma new_colony_weaken (P P' : Z → Z → Prop) w :
  (∀ x y, P x y → P' x y) → new_colony P w → new_colony P' w.
Proof.
  intros HP [Hlisted Hnodup Hants]. split; [done..|].
  intros i r Hi. destruct (Hants i r Hi) as (x & y & ? & ?). eauto.
Qed.

Lemma new_colony_ground (P : Z → Z → Prop) w w' :
  w' = World.set_ants (World.ants w') (World.set_objects (World.objects w') w) →
  fresh_world w → fresh_world w'.
Proof. intros -> [Hterrain Hfood Hpf Hph Hc]. by split. Qed.

(** The centre of the chamber is a tunnel cell of the grid when the grid is
    at least 14 cells high. *)
Lemma centre_is_tunnel w :
  fresh_world w → 0 < World.width w → 14 ≤ World.height w →
  is_valid_position w (World.width w `div` 2)
    (World.height w `div` 4 + config2.STARTING_CHAMBER_SIZE) = true
  ∧ World.terrain w !! (World.width w `div` 2,
       World.height w `div` 4 + config2.STARTING_CHAMBER_SIZE) = Some Tunnel.
Proof.
  intros Hfresh Hw Hh. unfold config2.STARTING_CHAMBER_SIZE.
  assert (0 ≤ World.width w `div` 2 < World.width w) as Hx.
  { split; [apply Z.div_pos; lia|apply Z.div_lt_upper_bound; lia]. }
  assert (0 ≤ World.height w `div` 4 ∧ World.height w `div` 4 + 10 < World.height w) as Hy.
  { split; [apply Z.div_pos; lia|].
    assert (World.height w `div` 4 < World.height w - 10); [|lia].
    apply Z.div_lt_upper_bound; lia. }
  assert (is_valid_position w (World.width w `div` 2) (World.height w `div` 4 + 10) = true)
    as Hv by (apply is_valid_position_spec; lia).
  split; [done|]. rewrite (fresh_terrain w Hfresh _ _ Hv).
  rewrite decide_True; [done|]. left. unfold config2.STARTING_CHAMBER_SIZE. lia.
Qed.
End constructor.

Section games.
Implicit Types (w : World.t) (env : InitEnv) (envs : list TickEnv).

(** X17: the constructor raises on a negative dimension and on a width of 0;
    on a positive width and a height that is not negative it returns a
    well-formed world of that size with between 1 and 12 living ants, the
    counters at 0, food on air cells only, and the terrain of the plan: the
    chamber and the shaft are tunnel, the rest is air above the ground
    level and soil from it on. *)
Theorem constructor_makes_playable_world width height env :
  (0 < width → 0 ≤ height →
   ∃ w, World__init__ width height env = Some w
     ∧ World.width w = width ∧ World.height w = height
     ∧ playable w ∧ fresh_world w ∧ all_alive w ∧ food_on_air w
     ∧ (1 ≤ length (World.ants w) ≤ 12)%nat)
  ∧ (width ≤ 0 ∨ height < 0 → World__init__ width height env = None).
Proof.
  split.
  - intros Hwidth Hheight.
    destruct (World__init__before_ants width height env Hwidth Hheight)
      as (w2 & -> & Hw & Hh & Hl & Ho & Hfresh & Hair & _).
    destruct (_create_initial_ants_spec w2 env) as (w & Hrun & Hsame & Hlen & Hcol);
      [|done..|].
    { intros x y Hxy. rewrite (fresh_terrain w2 Hfresh x y Hxy). by eexists. }
    assert (fresh_world w) as Hfresh'.
    { rewrite Hsame. destruct Hfresh. by split. }
    destruct (new_colony_world_ok _ w Hfresh' Hcol) as [Hok Halive].
    exists w. split_and!; try done.
    + by rewrite Hsame.
    + by rewrite Hsame.
    + split; [done|]. rewrite Hsame. simpl. lia.
    + rewrite Hsame. apply Hair.
    + lia.
    + lia.
  - intros Hbad. unfold World__init__. case_decide; [done|]. cbv zeta.
    set (w0 := World.mk _ _ _ _ _ _ _ _ _ _ _ _).
    destruct (_generate_initial_terrain_spec w0) as (w1 & -> & Hsame1 & _).
    { apply (np_full_shape w0). }
    simpl. rewrite _spawn_initial_food_raises; [done|].
    unfold same_but_terrain in Hsame1. rewrite Hsame1. simpl. lia.
Qed.

Lemma constructor_makes_playable_world_witness :
  let env := mkInitEnv (λ i, (Z.of_nat i, 1, Q2Qc 2)) (λ i, (Z.of_nat i - 6, 0)) in
  0 < 40 ∧ 0 ≤ 20
  ∧ (∃ w, World__init__ 40 20 env = Some w
       ∧ World.width w = 40 ∧ World.height w = 20
       ∧ playable w ∧ fresh_world w ∧ all_alive w ∧ food_on_air w
       ∧ (1 ≤ length (World.ants w) ≤ 12)%nat)
  ∧ World__init__ 0 20 env = None.
Proof.
  intros env. destruct (constructor_makes_playable_world 40 20 env) as [Hmake _].
  destruct (constructor_makes_playable_world 0 20 env) as [_ Hraise].
  split_and!; [lia|lia|apply Hmake; lia|apply Hraise; lia].
Defined.

Lemma constructor_colony width height env :
  0 < width → 14 ≤ height →
  ∃ w, World__init__ width height env = Some w
    ∧ World.width w = width
    ∧ fresh_world w
    ∧ new_colony (λ x y, is_tunnel w x y = Some true) w.
Proof.
  intros Hwidth Hheight.
  destruct (World__init__before_ants width height env Hwidth) as
    (w2 & -> & Hw & Hh & Hl & Ho & Hfresh & _); [lia|].
  destruct (_create_initial_ants_spec w2 env) as (w & Hrun & Hsame & Hlen & Hcol);
    [|done..|].
  { intros x y Hxy. rewrite (fresh_terrain w2 Hfresh x y Hxy). by eexists. }
  destruct (centre_is_tunnel w2 Hfresh) as [Hv Ht]; [lia..|].
  exists w. split_and!; [done|by rewrite Hsame| |].
  - rewrite Hsame. destruct Hfresh. by split.
  - eapply new_colony_weaken; [|done]. cbv beta.
    assert (∀ x y, is_valid_position w2 x y = true
                   ∧ World.terrain w2 !! (x, y) = Some Tunnel →
                   is_tunnel w x y = Some true) as Htun.
    { intros x y [Hxy Hc]. unfold is_tunnel, np_get. rewrite Hsame. simpl.
      change (is_valid_position _ x y) with (is_valid_position w2 x y).
      rewrite Hxy, Hc. done. }
    intros x y [?|[-> ->]]; by apply Htun.
Qed.

(** X18: on a grid at least 14 cells high the constructor puts every ant on
    a tunnel cell: the list names every ant object once, and the ant at
    place [i] of the list is as [Ant.__init__] makes it, with id [i], on a
    tunnel cell of the grid. *)
Theorem constructor_puts_ants_in_tunnels width height env :
  0 < width → 14 ≤ height →
  ∃ w, World__init__ width height env = Some w
    ∧ new_colony (λ x y, is_tunnel w x y = Some true) w.
Proof.
  intros Hwidth Hheight.
  destruct (constructor_colony width height env Hwidth Hheight)
    as (w & Hrun & _ & _ & Hcol).
  by exists w.
Qed.

Lemma constructor_puts_ants_in_tunnels_witness :
  let env := mkInitEnv (λ i, (Z.of_nat i, 1, Q2Qc 2)) (λ i, (Z.of_nat i - 6, 0)) in
  0 < 40 ∧ 14 ≤ 20
  ∧ ∃ w, World__init__ 40 20 env = Some w
      ∧ new_colony (λ x y, is_tunnel w x y = Some true) w.
Proof.
  intros env. split_and!; [lia|lia|].
  apply (constructor_puts_ants_in_tunnels 40 20 env); lia.
Defined.

(** X19: on a grid less than 14 cells high the centre of the chamber is
    below the grid; when no draw places an ant (as when no vertical offset
    is negative), the constructor puts all 12 ants there, outside the
    grid. *)
Theorem constructor_low_grid_ants_off_grid width height env :
  0 < width → 0 ≤ height < 14 →
  (∀ i, 0 ≤ (initial_ant_offset env i).2) →
  ∃ w, World__init__ width height env = Some w
    ∧ length (World.ants w) = 12%nat
    ∧ new_colony (λ x y, is_valid_position w x y = false) w.
Proof.
  intros Hwidth Hheight Hoff.
  destruct (World__init__before_ants width height env Hwidth) as
    (w2 & -> & Hw & Hh & Hl & Ho & Hfresh & _); [lia|].
  assert (height ≤ height `div` 4 + 10) as Hlow.
  { pose proof (Z.div_mod height 4 ltac:(lia)).
    pose proof (Z.mod_pos_bound height 4 ltac:(lia)). lia. }
  unfold _create_initial_ants. cbv zeta.
  rewrite for_each_skip.
  - simpl. rewrite Hl. simpl.
    destruct (fallback_ants_spec
      (λ x y, is_valid_position w2 x y = false) w2
      (World.width w2 `div` 2) (World.height w2 `div` 4 + config2.STARTING_CHAMBER_SIZE) 12)
      as (w & Hrun & Hsame & Hcol & Hlen).
    { by apply empty_colony. }
    { apply is_valid_position_false. rewrite Hh.
      unfold config2.STARTING_CHAMBER_SIZE. lia. }
    rewrite Hl in Hrun, Hlen. simpl in Hrun, Hlen. exists w. split_and!; [done..|].
    eapply new_colony_weaken; [|done]. intros x y. by rewrite Hsame.
  - intros i _. specialize (Hoff i).
    destruct (initial_ant_offset env i) as [ox oy]. simpl in Hoff.
    rewrite is_valid_position_false; [done|]. rewrite Hh.
    unfold config2.STARTING_CHAMBER_SIZE. lia.
Qed.

Lemma constructor_low_grid_ants_off_grid_witness :
  let env := mkInitEnv (λ i, (Z.of_nat i, 1, Q2Qc 2)) (λ i, (0, 0)) in
  0 < 40 ∧ 0 ≤ 13 < 14 ∧ (∀ i, 0 ≤ (initial_ant_offset env i).2)
  ∧ ∃ w, World__init__ 40 13 env = Some w
      ∧ length (World.ants w) = 12%nat
      ∧ new_colony (λ x y, is_valid_position w x y = false) w.
Proof.
  intros env. split_and!; [lia|lia|lia|done|].
  apply (constructor_low_grid_ants_off_grid 40 13 env); [lia|lia|done].
Defined.

Lemma is_tunnel_off_soil w x y :
  is_tunnel w x y = Some true → can_move_to w x y = Some true.
Proof.
  unfold is_tunnel, can_move_to, np_get.
  destruct (is_valid_position w x y); simpl; [|done].
  destruct (World.terrain w !! (x, y)) as [c|]; simpl; [|done].
  intros [= Hc%bool_decide_eq_true]. by subst c.
Qed.

(** X20: a game started by the constructor on a grid at least 14 cells high
    never digs: whatever the draws and the decisions, after any number of
    frames the terrain is the one the constructor made and no tunnel was
    dug. *)
Theorem constructed_game_never_digs width height env envs :
  0 < width → 14 ≤ height →
  ∃ w w', World__init__ width height env = Some w
    ∧ run w envs = Some w'
    ∧ World.terrain w' = World.terrain w
    ∧ World.total_tunnels_dug w' = 0.
Proof.
  intros Hwidth Hheight.
  destruct (constructor_colony width height env Hwidth Hheight)
    as (w & Hrun & Hw & Hfresh & Hcol).
  destruct (new_colony_world_ok _ w Hfresh Hcol) as [Hok _].
  assert (all_hold off_soil w) as Hall.
  { intros r o Ho.
    assert (r ∈ World.ants w) as [i Hi]%list_elem_of_lookup
      by (by apply (colony_listed _ w Hcol)).
    destruct (colony_ants _ w Hcol i r Hi) as (x & y & Ho' & Htun).
    simplify_eq. by apply is_tunnel_off_soil. }
  destruct (run_total w envs Hok) as [w' Hrun'].
  destruct (run_no_dig w envs w' Hall Hrun') as (Ht & Hn & _).
  exists w, w'. split_and!; [done..|].
  rewrite Hn. by destruct Hfresh as [_ _ _ _ (_ & _ & ? & _)].
Qed.

Lemma constructed_game_never_digs_witness :
  let env := mkInitEnv (λ i, (Z.of_nat i, 1, Q2Qc 2)) (λ i, (Z.of_nat i - 6, 0)) in
  0 < 40 ∧ 14 ≤ 20
  ∧ ∃ w w', World__init__ 40 20 env = Some w
      ∧ run w [demo_env; demo_env] = Some w'
      ∧ World.terrain w' = World.terrain w
      ∧ World.total_tunnels_dug w' = 0.
Proof.
  intros env. split_and!; [lia|lia|].
  apply (constructed_game_never_digs 40 20 env [demo_env; demo_env]); lia.
Defined.
End games.

